(** * Expressable: menus, markers, default shortcuts and toolbox colours

    A shallow embedding of the interactive core of the editor
    (src/core/menu.ts, the MenuItem class, the MarkerManager class, the two
    variants of the default-shortcut module and the colour resolution of
    ToolboxCategory), with the properties the specification states about it.

    Objects are identified by references into an object store, so that a
    MenuItem held both by the Menu's array and by [highlightedItem] is one
    object.  Calls into collaborators that are not part of the repository
    files (DOM helpers, ARIA helpers, drawers, the clipboard, the shortcut
    registry) are recorded in a log, in call order. *)

From Stdlib Require Import ZArith QArith Qabs Lia List String Ascii Bool.
From stdpp Require Import base option list gmap strings pretty.

Local Open Scope string_scope.
Local Open Scope list_scope.

(** ** A small monad for JavaScript methods

    A method is a function from the world before the call to the world after
    it, paired with how the call ended: it returned a value, it threw, or (for
    the fuelled model of a [while] loop) the fuel ran out.  A thrown exception
    keeps every mutation made before the throw, as in JavaScript. *)

Module Js.

Inductive Exn : Type :=
| TypeError (msg : string)
| Error (msg : string)
| NotFoundError (msg : string).

Inductive Outcome (A : Type) : Type :=
| Ret (a : A)
| Throw (e : Exn)
| OutOfFuel.

Arguments Ret {A} a.
Arguments Throw {A} e.
Arguments OutOfFuel {A}.

Definition M (W A : Type) : Type := W -> W * Outcome A.

Definition ret {W A} (a : A) : M W A := fun w => (w, Ret a).

Definition bind {W A B} (m : M W A) (k : A -> M W B) : M W B :=
  fun w =>
    match m w with
    | (w', Ret a) => k a w'
    | (w', Throw e) => (w', Throw e)
    | (w', OutOfFuel) => (w', OutOfFuel)
    end.

Definition throw {W A} (e : Exn) : M W A := fun w => (w, Throw e).

Definition diverge {W A} : M W A := fun w => (w, OutOfFuel).

Definition gets {W A} (f : W -> A) : M W A := fun w => (w, Ret (f w)).

Definition modify {W} (f : W -> W) : M W unit := fun w => (f w, Ret tt).

(** Running a method of a component inside a larger world. *)
Definition lift {W V A} (get : W -> V) (set : V -> W -> W) (m : M V A) : M W A :=
  fun w => let (v', o) := m (get w) in (set v' w, o).

(** [for (const x of l) body (x)]. *)
Fixpoint for_each {W A} (l : list A) (body : A -> M W unit) : M W unit :=
  match l with
  | nil => ret tt
  | cons x rest => bind (body x) (fun _ => for_each rest body)
  end.

(** The world a call leaves behind, whether it returned or threw. *)
Definition exec {W A} (m : M W A) (w : W) : W := fst (m w).

End Js.

Import Js.

Notation "'let!' x ':=' m 'in' k" := (bind m (fun x => k))
  (at level 10, x name, m at level 100, k at level 200).
Notation "'do!' m 'in' k" := (bind m (fun _ => k))
  (at level 10, m at level 100, k at level 200).

(** ** DOM nodes

    An element is known by its identity.  The class list and the [id]
    attribute of each element live in the world, because the Menu and its
    items look at the same elements. *)

Definition Elem : Type := nat.
Definition ItemRef : Type := nat.
Definition Handler : Type := nat.

Definition upd {A} (f : nat -> A) (k : nat) (v : A) : nat -> A :=
  fun k' => if Nat.eqb k' k then v else f k'.

Definition contains (classList : list string) (name : string) : bool :=
  existsb (String.eqb name) classList.

(** Modelled from the spec: [dom.addClass] and [dom.removeClass] of
    utils/dom.js, which is not among the repository files; a CSS state class
    is switched on or off on the element. *)
Definition addClass (classList : list string) (name : string) : list string :=
  if contains classList name then classList else classList ++ [name].

Definition removeClass (classList : list string) (name : string) : list string :=
  filter (fun c => c ≠ name) classList.

(** Calls that leave the modelled classes, in the order they are made. *)
Inductive Effect : Type :=
| ScrollIntoContainerView (element container : option Elem)
| AriaSetActiveDescendant (element : option Elem) (id : string)
| CallPerformAction (item : ItemRef)
| CallActionHandler (handler : Handler) (item : ItemRef)
| StopPropagation
| PreventDefault.

(** ** MenuItem *)

Module MenuItem.

Record t : Type := mk {
  actionHandler : option Handler;
  element : option Elem;
  rightToLeft : bool;
  highlight : bool;
  checkable : bool;
  checked : bool;
  enabled : bool
}.

(** The field initialisers of the class. *)
Definition new : t :=
  {| actionHandler := None; element := None; rightToLeft := false;
     highlight := false; checkable := false; checked := false;
     enabled := true |}.

Definition with_highlight (b : bool) (i : t) : t :=
  {| actionHandler := actionHandler i; element := element i;
     rightToLeft := rightToLeft i; highlight := b;
     checkable := checkable i; checked := checked i; enabled := enabled i |}.

Definition with_element (e : option Elem) (i : t) : t :=
  {| actionHandler := actionHandler i; element := e;
     rightToLeft := rightToLeft i; highlight := highlight i;
     checkable := checkable i; checked := checked i; enabled := enabled i |}.

Definition with_enabled (b : bool) (i : t) : t :=
  {| actionHandler := actionHandler i; element := element i;
     rightToLeft := rightToLeft i; highlight := highlight i;
     checkable := checkable i; checked := checked i; enabled := b |}.

Definition with_actionHandler (h : option Handler) (i : t) : t :=
  {| actionHandler := h; element := element i;
     rightToLeft := rightToLeft i; highlight := highlight i;
     checkable := checkable i; checked := checked i; enabled := enabled i |}.

(** The store of MenuItem objects with the part of the DOM they touch. *)
Record World : Type := mkWorld {
  items : ItemRef -> t;
  classList : Elem -> list string;
  elemId : Elem -> string;
  nextElem : Elem;
  log : list Effect
}.

Definition set_item (this : ItemRef) (f : t -> t) (w : World) : World :=
  {| items := upd (items w) this (f (items w this));
     classList := classList w; elemId := elemId w;
     nextElem := nextElem w; log := log w |}.

Definition set_classList (e : Elem) (f : list string -> list string) (w : World) : World :=
  {| items := items w;
     classList := upd (classList w) e (f (classList w e));
     elemId := elemId w; nextElem := nextElem w; log := log w |}.

Definition emit (x : Effect) (w : World) : World :=
  {| items := items w; classList := classList w; elemId := elemId w;
     nextElem := nextElem w; log := log w ++ [x] |}.

Definition cond_add (c : bool) (name : string) (l : list string) : list string :=
  if c then l ++ [name] else l.

(** [createDom]: a new element with the state classes of the moment.  The
    identifier comes from the id generator ([freshId]); the content subtree
    and the ARIA states of the element are not tracked. *)
Definition createDom (this : ItemRef) (freshId : string) : M World Elem :=
  fun w =>
    let i := items w this in
    let e := nextElem w in
    let classes :=
      cond_add (rightToLeft i) "blocklyMenuItemRtl"
        (cond_add (highlight i) "blocklyMenuItemHighlight"
          (cond_add (checked i) "blocklyMenuItemSelected"
            (cond_add (negb (enabled i)) "blocklyMenuItemDisabled"
              ["blocklyMenuItem"]))) in
    ({| items := upd (items w) this (with_element (Some e) i);
        classList := upd (classList w) e classes;
        elemId := upd (elemId w) e freshId;
        nextElem := S e; log := log w |}, Ret e).

Definition dispose (this : ItemRef) : M World unit :=
  modify (set_item this (with_element None)).

Definition getElement (this : ItemRef) : M World (option Elem) :=
  gets (fun w => element (items w this)).

(** [this.element!.id]: reading [id] off a null element throws. *)
Definition getId (this : ItemRef) : M World string :=
  let! e := getElement this in
  match e with
  | Some e => gets (fun w => elemId w e)
  | None => throw (TypeError "Cannot read properties of null (reading 'id')")
  end.

Definition isEnabled (this : ItemRef) : M World bool :=
  gets (fun w => enabled (items w this)).

Definition setEnabled (this : ItemRef) (b : bool) : M World unit :=
  modify (set_item this (with_enabled b)).

Definition setHighlighted (this : ItemRef) (highlight : bool) : M World unit :=
  do! modify (set_item this (with_highlight highlight)) in
  let! element := getElement this in
  let! enabled := isEnabled this in
  match element with
  | None => ret tt
  | Some element =>
      if negb enabled then ret tt
      else if highlight
      then modify (set_classList element (fun l => addClass l "blocklyMenuItemHighlight"))
      else modify (set_classList element (fun l => removeClass l "blocklyMenuItemHighlight"))
  end.

(** [onAction]: the handler, bound to its object, replaces the one before. *)
Definition onAction (this : ItemRef) (handler : Handler) : M World unit :=
  modify (set_item this (with_actionHandler (Some handler))).

(** [performAction]; the call itself is written to the log, so that a
    handler of the Menu that makes no such call can be told from one that
    calls it on a disabled item. *)
Definition performAction (this : ItemRef) : M World unit :=
  do! modify (emit (CallPerformAction this)) in
  let! enabled := isEnabled this in
  if negb enabled then ret tt
  else
    let! handler := gets (fun w => actionHandler (items w this)) in
    match handler with
    | Some h => modify (emit (CallActionHandler h this))
    | None => ret tt
    end.

(** *** Vocabulary for the statements *)

(** The world [setHighlighted] leaves: the flag is written first, the class
    only on an enabled item that has an element. *)
Definition highlighted_world (this : ItemRef) (b : bool) (w : World) : World :=
  let w1 := set_item this (with_highlight b) w in
  match element (items w this) with
  | None => w1
  | Some e =>
      if negb (enabled (items w this)) then w1
      else if b
      then set_classList e (fun l => addClass l "blocklyMenuItemHighlight") w1
      else set_classList e (fun l => removeClass l "blocklyMenuItemHighlight") w1
  end.

End MenuItem.

(** ** Menu *)

Module Menu.

Record Coordinate : Type := mkCoordinate { x : Q; y : Q }.

(** A pointer event.  [target] is the element the event hit followed by its
    chain of [parentElement]s, innermost first; [clientX] is [None] when the
    property is not a number. *)
Record PointerEvent : Type := mkPointerEvent {
  target : list Elem;
  clientX : option Q;
  clientY : Q
}.

Record KeyboardEvent : Type := mkKeyboardEvent {
  shiftKey : bool;
  ctrlKey : bool;
  metaKey : bool;
  altKey : bool;
  keyCode : Z
}.

(** The fields of the class that the handlers read or write; the five bind
    handles and the role name play no part in them. *)
Record t : Type := mk {
  menuItems : list ItemRef;
  openingCoords : option Coordinate;
  highlightedItem : option ItemRef;
  element : option Elem
}.

(** [new Menu()]. *)
Definition new : t :=
  {| menuItems := []; openingCoords := None; highlightedItem := None;
     element := None |}.

Record World : Type := mkWorld {
  menu : t;
  store : MenuItem.World
}.

Definition set_store (s : MenuItem.World) (w : World) : World :=
  {| menu := menu w; store := s |}.

Definition set_menu (f : t -> t) (w : World) : World :=
  {| menu := f (menu w); store := store w |}.

Definition item {A} (m : M MenuItem.World A) : M World A :=
  lift store set_store m.

Definition emit (e : Effect) : M World unit :=
  item (modify (MenuItem.emit e)).

Definition with_highlightedItem (h : option ItemRef) (m : t) : t :=
  {| menuItems := menuItems m; openingCoords := openingCoords m;
     highlightedItem := h; element := element m |}.

Definition with_openingCoords (c : option Coordinate) (m : t) : t :=
  {| menuItems := menuItems m; openingCoords := c;
     highlightedItem := highlightedItem m; element := element m |}.

Definition with_menuItems (l : list ItemRef) (m : t) : t :=
  {| menuItems := l; openingCoords := openingCoords m;
     highlightedItem := highlightedItem m; element := element m |}.

Definition with_element (e : option Elem) (m : t) : t :=
  {| menuItems := menuItems m; openingCoords := openingCoords m;
     highlightedItem := highlightedItem m; element := e |}.

Definition addChild (item : ItemRef) : M World unit :=
  modify (set_menu (fun m => with_menuItems (menuItems m ++ [item]) m)).

(** [render]: the root element with its two classes, then the element of
    every child in the order of the array.  [freshId] is what the id
    generator gives for each child; the five event bindings and the
    container are not tracked. *)
Definition render (freshId : ItemRef -> string) : M World Elem :=
  let! element := gets (fun w => MenuItem.nextElem (store w)) in
  do! item (modify (fun s =>
        {| MenuItem.items := MenuItem.items s;
           MenuItem.classList :=
             upd (MenuItem.classList s) element ["blocklyMenu"; "blocklyNonSelectable"];
           MenuItem.elemId := MenuItem.elemId s;
           MenuItem.nextElem := S element;
           MenuItem.log := MenuItem.log s |})) in
  do! modify (set_menu (with_element (Some element))) in
  let! children := gets (fun w => menuItems (menu w)) in
  do! for_each children
        (fun child => do! item (MenuItem.createDom child (freshId child)) in ret tt) in
  ret element.

(** [dispose], without the unbinding of the handlers. *)
Definition dispose : M World unit :=
  let! children := gets (fun w => menuItems (menu w)) in
  do! for_each children (fun child => item (MenuItem.dispose child)) in
  modify (set_menu (with_element None)).

Definition isEmpty (w : World) : bool :=
  Nat.ltb (List.length (menuItems (menu w))) 1.

Definition getElement : M World (option Elem) :=
  gets (fun w => element (menu w)).

(** [Array.prototype.indexOf]: the first position of the item, or -1. *)
Fixpoint indexOf (l : list ItemRef) (r : ItemRef) : Z :=
  match l with
  | [] => (-1)%Z
  | r' :: l' =>
      if Nat.eqb r' r then 0%Z
      else let i := indexOf l' r in if (i <? 0)%Z then (-1)%Z else (i + 1)%Z
  end.

(** [array[index]] for a number [index]: [undefined] outside the array. *)
Definition at_index (l : list ItemRef) (index : Z) : option ItemRef :=
  if (index <? 0)%Z then None else l !! Z.to_nat index.

(** The inner [for] loop of [getMenuItem]: the first item whose element is
    [current]. *)
Definition ownerOf (w : World) (current : Elem) : option ItemRef :=
  List.find
    (fun r => bool_decide (MenuItem.element (MenuItem.items (store w) r) = Some current))
    (menuItems (menu w)).

(** [getMenuItem], walking up from [child]; the walk ends at the root of the
    menu or when the chain of parents ends. *)
Fixpoint getMenuItem (w : World) (child : list Elem) : option ItemRef :=
  match child with
  | [] => None
  | current :: parents =>
      if bool_decide (element (menu w) = Some current) then None
      else if contains (MenuItem.classList (store w) current) "blocklyMenuItem"
      then match ownerOf w current with
           | Some r => Some r
           | None => getMenuItem w parents
           end
      else getMenuItem w parents
  end.

Definition setHighlighted (item' : option ItemRef) : M World unit :=
  let! old := gets (fun w => highlightedItem (menu w)) in
  do! match old with
      | Some old => item (MenuItem.setHighlighted old false)
      | None => ret tt
      end in
  do! modify (set_menu (with_highlightedItem None)) in
  match item' with
  | None => ret tt
  | Some it =>
      do! item (MenuItem.setHighlighted it true) in
      do! modify (set_menu (with_highlightedItem (Some it))) in
      let! element := getElement in
      let! itemElement := item (MenuItem.getElement it) in
      do! emit (ScrollIntoContainerView itemElement element) in
      let! id := item (MenuItem.getId it) in
      emit (AriaSetActiveDescendant element id)
  end.

(** The [while] loop of [highlightHelper], from [index] on.  The loop has no
    bound of its own in the source, so the model carries fuel. *)
Fixpoint highlightLoop (fuel : nat) (index delta : Z) : M World unit :=
  match fuel with
  | O => diverge
  | S fuel' =>
      let! l := gets (fun w => menuItems (menu w)) in
      match at_index l index with
      | None => ret tt
      | Some menuItem =>
          let! enabled := item (MenuItem.isEnabled menuItem) in
          if enabled then setHighlighted (Some menuItem)
          else highlightLoop fuel' (index + delta)%Z delta
      end
  end.

Definition highlightHelper (fuel : nat) (startIndex delta : Z) : M World unit :=
  highlightLoop fuel (startIndex + delta)%Z delta.

(** Fuel that is enough for a walk by steps of one over the items. *)
Definition enough (w : World) : nat := S (List.length (menuItems (menu w))).

Definition currentIndex (w : World) : Z :=
  match highlightedItem (menu w) with
  | Some h => indexOf (menuItems (menu w)) h
  | None => (-1)%Z
  end.

Definition highlightNext : M World unit :=
  fun w => highlightHelper (enough w) (currentIndex w) 1 w.

Definition highlightPrevious : M World unit :=
  fun w =>
    let index := currentIndex w in
    let index :=
      if (index <? 0)%Z then Z.of_nat (List.length (menuItems (menu w))) else index in
    highlightHelper (enough w) index (-1) w.

Definition highlightFirst : M World unit :=
  fun w => highlightHelper (enough w) (-1) 1 w.

Definition highlightLast : M World unit :=
  fun w =>
    highlightHelper (enough w) (Z.of_nat (List.length (menuItems (menu w)))) (-1) w.

Definition handleMouseOver (event : PointerEvent) : M World unit :=
  let! menuItem := gets (fun w => getMenuItem w (target event)) in
  match menuItem with
  | None => ret tt
  | Some menuItem =>
      let! enabled := item (MenuItem.isEnabled menuItem) in
      if enabled then
        let! h := gets (fun w => highlightedItem (menu w)) in
        if bool_decide (h = Some menuItem) then ret tt
        else setHighlighted (Some menuItem)
      else setHighlighted None
  end.

Section Handlers.

(** [Coordinate.distance] of utils/coordinate.js and the key codes of
    utils/keycodes.js are not among the repository files. *)
Variable distance : Coordinate -> Coordinate -> Q.
Variables KeyCodes_ENTER KeyCodes_SPACE KeyCodes_UP KeyCodes_DOWN : Z.
Variables KeyCodes_PAGE_UP KeyCodes_HOME KeyCodes_PAGE_DOWN KeyCodes_END : Z.

(** [distance (openingCoords, coordinates) < 1]. *)
Definition below_one (q : Q) : bool := negb (Qle_bool 1 q).

Definition handleClick (event : PointerEvent) : M World unit :=
  let! openingCoords := gets (fun w => openingCoords (menu w)) in
  do! modify (set_menu (with_openingCoords None)) in
  let suppressed :=
    match openingCoords, clientX event with
    | Some openingCoords, Some clientX =>
        let coordinates := mkCoordinate clientX (clientY event) in
        below_one (distance openingCoords coordinates)
    | _, _ => false
    end in
  if suppressed then ret tt
  else
    let! menuItem := gets (fun w => getMenuItem w (target event)) in
    match menuItem with
    | Some menuItem => item (MenuItem.performAction menuItem)
    | None => ret tt
    end.

Definition handleKeyEvent (event : KeyboardEvent) : M World unit :=
  let! empty := gets isEmpty in
  if empty then ret tt
  else if shiftKey event then ret tt
  else if ctrlKey event then ret tt
  else if metaKey event then ret tt
  else if altKey event then ret tt
  else
    let code := keyCode event in
    let handled (m : M World unit) : M World unit :=
      do! m in do! emit StopPropagation in emit PreventDefault in
    if (code =? KeyCodes_ENTER)%Z || (code =? KeyCodes_SPACE)%Z then
      handled
        (let! h := gets (fun w => highlightedItem (menu w)) in
         match h with
         | Some h => item (MenuItem.performAction h)
         | None => ret tt
         end)
    else if (code =? KeyCodes_UP)%Z then handled highlightPrevious
    else if (code =? KeyCodes_DOWN)%Z then handled highlightNext
    else if (code =? KeyCodes_PAGE_UP)%Z || (code =? KeyCodes_HOME)%Z
    then handled highlightFirst
    else if (code =? KeyCodes_PAGE_DOWN)%Z || (code =? KeyCodes_END)%Z
    then handled highlightLast
    else ret tt.

End Handlers.

(** The operations on the highlight, as calls or events that arrive one after
    the other; an exception ends the call it was thrown in, and the next
    call sees the world as the throw left it. *)
Inductive Op : Type :=
| OpSetHighlighted (item : option ItemRef)
| OpHighlightNext
| OpHighlightPrevious
| OpHighlightFirst
| OpHighlightLast
| OpPointerOver (event : PointerEvent).

Definition step (op : Op) : M World unit :=
  match op with
  | OpSetHighlighted i => setHighlighted i
  | OpHighlightNext => highlightNext
  | OpHighlightPrevious => highlightPrevious
  | OpHighlightFirst => highlightFirst
  | OpHighlightLast => highlightLast
  | OpPointerOver e => handleMouseOver e
  end.

Definition run (ops : list Op) (w : World) : World :=
  fold_left (fun w op => exec (step op) w) ops w.

(** *** Vocabulary for the statements *)

Definition flag (w : World) (r : ItemRef) : bool :=
  MenuItem.highlight (MenuItem.items (store w) r).

Definition enabled (w : World) (r : ItemRef) : bool :=
  MenuItem.enabled (MenuItem.items (store w) r).

(** A MenuItem's flag is set exactly when it is the Menu's
    [highlightedItem]. *)
Definition consistent (w : World) : Prop :=
  forall r, flag w r = true <-> highlightedItem (menu w) = Some r.

(** A Menu that was just built: nothing is highlighted yet. *)
Definition fresh (w : World) : Prop :=
  highlightedItem (menu w) = None /\ forall r, flag w r = false.

(** The store after the two flag writes of [Menu.setHighlighted]. *)
Definition rehighlighted (i : option ItemRef) (w : World) : MenuItem.World :=
  let s1 :=
    match highlightedItem (menu w) with
    | Some old => MenuItem.highlighted_world old false (store w)
    | None => store w
    end in
  match i with
  | Some it => MenuItem.highlighted_world it true s1
  | None => s1
  end.

(** Where [highlightPrevious] starts from: the highlighted item, or the
    position just after the last item when nothing in the array is
    highlighted. *)
Definition previousStart (w : World) : Z :=
  if (currentIndex w <? 0)%Z then Z.of_nat (List.length (menuItems (menu w)))
  else currentIndex w.

End Menu.

(** ** MarkerManager *)

Module MarkerManager.

(** An SVG node, a Marker object (a Cursor is one) and a drawer, each known by
    its identity.  A drawer is numbered like the root node its [createDom]
    makes. *)
Definition Node : Type := nat.
Definition MarkerRef : Type := nat.
Definition Drawer : Type := nat.

(** Calls into the renderer, the drawers and the markers. *)
Inductive Call : Type :=
| MakeMarkerDrawer (marker : MarkerRef) (drawer : Drawer)
| CreateDom (drawer : Drawer) (dom : Node)
| DrawerDispose (drawer : Drawer)
| MarkerDispose (marker : MarkerRef).

(** The fields of the manager, and what it reaches through the workspace:
    the children of the block canvas ([None] when [getBlockCanvas] returns
    null), the drawer each Marker object holds, and the next unused number
    for drawers. *)
Record World : Type := mkWorld {
  cursor_ : option MarkerRef;
  markerSvg_ : option Node;
  cursorSvg_ : option Node;
  markers : gmap string MarkerRef;
  blockCanvas : option (list Node);
  drawerOf : MarkerRef -> option Drawer;
  nextDrawer : Drawer;
  calls : list Call
}.

(** [new MarkerManager(workspace)] over a workspace whose block canvas has the
    given children. *)
Definition new (canvas : option (list Node)) : World :=
  {| cursor_ := None; markerSvg_ := None; cursorSvg_ := None; markers := ∅;
     blockCanvas := canvas; drawerOf := fun _ => None;
     nextDrawer := S (list_max (default [] canvas)); calls := [] |}.

Definition with_cursor_ (c : option MarkerRef) (w : World) : World :=
  {| cursor_ := c; markerSvg_ := markerSvg_ w; cursorSvg_ := cursorSvg_ w;
     markers := markers w; blockCanvas := blockCanvas w;
     drawerOf := drawerOf w; nextDrawer := nextDrawer w; calls := calls w |}.

Definition with_markerSvg_ (n : option Node) (w : World) : World :=
  {| cursor_ := cursor_ w; markerSvg_ := n; cursorSvg_ := cursorSvg_ w;
     markers := markers w; blockCanvas := blockCanvas w;
     drawerOf := drawerOf w; nextDrawer := nextDrawer w; calls := calls w |}.

Definition with_cursorSvg_ (n : option Node) (w : World) : World :=
  {| cursor_ := cursor_ w; markerSvg_ := markerSvg_ w; cursorSvg_ := n;
     markers := markers w; blockCanvas := blockCanvas w;
     drawerOf := drawerOf w; nextDrawer := nextDrawer w; calls := calls w |}.

Definition with_markers (m : gmap string MarkerRef) (w : World) : World :=
  {| cursor_ := cursor_ w; markerSvg_ := markerSvg_ w; cursorSvg_ := cursorSvg_ w;
     markers := m; blockCanvas := blockCanvas w;
     drawerOf := drawerOf w; nextDrawer := nextDrawer w; calls := calls w |}.

Definition with_blockCanvas (c : option (list Node)) (w : World) : World :=
  {| cursor_ := cursor_ w; markerSvg_ := markerSvg_ w; cursorSvg_ := cursorSvg_ w;
     markers := markers w; blockCanvas := c;
     drawerOf := drawerOf w; nextDrawer := nextDrawer w; calls := calls w |}.

Definition with_drawerOf (f : MarkerRef -> option Drawer) (w : World) : World :=
  {| cursor_ := cursor_ w; markerSvg_ := markerSvg_ w; cursorSvg_ := cursorSvg_ w;
     markers := markers w; blockCanvas := blockCanvas w;
     drawerOf := f; nextDrawer := nextDrawer w; calls := calls w |}.

Definition call (c : Call) : M World unit :=
  modify (fun w =>
    {| cursor_ := cursor_ w; markerSvg_ := markerSvg_ w; cursorSvg_ := cursorSvg_ w;
       markers := markers w; blockCanvas := blockCanvas w;
       drawerOf := drawerOf w; nextDrawer := nextDrawer w;
       calls := calls w ++ [c] |}).

(** *** The DOM methods of the canvas *)

Definition without (node : Node) (children : list Node) : list Node :=
  filter (fun c => c ≠ node) children.

(** [parent.appendChild(node)]: the node becomes the last child; a node that
    was a child already is moved. *)
Definition appendChild (node : Node) (children : list Node) : list Node :=
  without node children ++ [node].

Fixpoint insert_before (node ref : Node) (children : list Node) : list Node :=
  match children with
  | [] => []
  | c :: rest =>
      if Nat.eqb c ref then node :: c :: rest
      else c :: insert_before node ref rest
  end.

(** [parent.insertBefore(node, ref)]: a DOMException when [ref] is no child of
    the parent; otherwise the node is put right before [ref]. *)
Definition insertBefore (node ref : Node) (children : list Node)
  : Exn + list Node :=
  if negb (existsb (Nat.eqb ref) children)
  then inl (NotFoundError "The node before which the new node is to be inserted is not a child of this node.")
  else if Nat.eqb node ref then inr children
  else inr (insert_before node ref (without node children)).

(** *** Collaborators *)

(** Modelled from the spec: the renderer's [makeMarkerDrawer] gives a new
    drawer, a Marker keeps the drawer handed to [setDrawer] and returns it
    from [getDrawer], a drawer's [createDom] gives its SVG node; what
    [dispose] of a drawer or of a marker does is theirs, and only the call is
    recorded (renderer, Marker, Cursor and drawer are not among the
    repository files). *)

Definition makeMarkerDrawer (marker : MarkerRef) : M World Drawer :=
  let! d := gets nextDrawer in
  do! modify (fun w =>
    {| cursor_ := cursor_ w; markerSvg_ := markerSvg_ w; cursorSvg_ := cursorSvg_ w;
       markers := markers w; blockCanvas := blockCanvas w;
       drawerOf := drawerOf w; nextDrawer := S d; calls := calls w |}) in
  do! call (MakeMarkerDrawer marker d) in
  ret d.

Definition setDrawer (marker : MarkerRef) (drawer : Drawer) : M World unit :=
  modify (fun w => with_drawerOf (upd (drawerOf w) marker (Some drawer)) w).

Definition getDrawer (marker : MarkerRef) : M World (option Drawer) :=
  gets (fun w => drawerOf w marker).

Definition createDom (drawer : option Drawer) : M World Node :=
  match drawer with
  | Some d => do! call (CreateDom d d) in ret d
  | None => throw (TypeError "Cannot read properties of undefined (reading 'createDom')")
  end.

(** *** The methods of the class *)

Definition nl : string := String (ascii_of_nat 10) EmptyString.

Definition not_registered (id : string) : string :=
  ("Marker with ID " ++ id ++ " does not exist." ++ nl
   ++ "                 Can only unregister markers that exist.")%string.

Definition unregisterMarker (id : string) : M World unit :=
  let! marker := gets (fun w => markers w !! id) in
  match marker with
  | None => throw (Error (not_registered id))
  | Some marker =>
      do! call (MarkerDispose marker) in
      modify (fun w => with_markers (delete id (markers w)) w)
  end.

Definition getCursor : M World (option MarkerRef) := gets cursor_.

Definition getMarker (id : string) : M World (option MarkerRef) :=
  gets (fun w => markers w !! id).

Definition setCursorSvg (cursor : option Node) : M World unit :=
  do! match cursor with
      | Some c =>
          modify (fun w => with_blockCanvas (appendChild c <$> blockCanvas w) w)
      | None => ret tt
      end in
  modify (with_cursorSvg_ cursor).

Definition setMarkerSvg (marker : option Node) : M World unit :=
  match marker with
  | None => modify (with_markerSvg_ None)
  | Some marker =>
      let! canvas := gets blockCanvas in
      match canvas with
      | None => ret tt
      | Some children =>
          let! cursorSvg := gets cursorSvg_ in
          match cursorSvg with
          | Some cursorSvg =>
              match insertBefore marker cursorSvg children with
              | inl e => throw e
              | inr children' => modify (with_blockCanvas (Some children'))
              end
          | None => modify (with_blockCanvas (Some (appendChild marker children)))
          end
      end
  end.

Definition registerMarker (id : string) (marker : MarkerRef) : M World unit :=
  let! has := gets (fun w => bool_decide (is_Some (markers w !! id))) in
  do! (if has then unregisterMarker id else ret tt) in
  let! drawer := makeMarkerDrawer marker in
  do! setDrawer marker drawer in
  let! d := getDrawer marker in
  let! dom := createDom d in
  do! setMarkerSvg (Some dom) in
  modify (fun w => with_markers (<[id := marker]> (markers w)) w).

(** [setCursor]; the parameter may be null at run time, which the method
    checks for after it has stored it. *)
Definition setCursor (cursor : option MarkerRef) : M World unit :=
  let! old := gets cursor_ in
  do! match old with
      | Some old =>
          let! d := getDrawer old in
          match d with
          | Some d => call (DrawerDispose d)
          | None => ret tt
          end
      | None => ret tt
      end in
  do! modify (with_cursor_ cursor) in
  match cursor with
  | None => ret tt
  | Some cursor =>
      let! drawer := makeMarkerDrawer cursor in
      do! setDrawer cursor drawer in
      let! d := getDrawer cursor in
      let! dom := createDom d in
      setCursorSvg (Some dom)
  end.

Inductive Op : Type :=
| OpRegisterMarker (id : string) (marker : MarkerRef)
| OpSetCursor (cursor : MarkerRef).

Definition step (op : Op) : M World unit :=
  match op with
  | OpRegisterMarker id marker => registerMarker id marker
  | OpSetCursor cursor => setCursor (Some cursor)
  end.

Definition run (ops : list Op) (w : World) : World :=
  fold_left (fun w op => exec (step op) w) ops w.

(** *** Vocabulary for the statements *)

(** The state of the canvas that every call keeps: its children are
    distinct, they were all made before the next drawer, and the cursor's
    node, when there is one, is the last of them. *)
Definition tidy (w : World) : Prop :=
  match blockCanvas w with
  | None => True
  | Some children =>
      NoDup children
      /\ (forall n, n ∈ children -> n < nextDrawer w)
      /\ (forall c, cursorSvg_ w = Some c -> exists pre, children = pre ++ [c])
  end.

(** The world of [registerMarker] at the point where it calls
    [setMarkerSvg]. *)
Definition drawn (id : string) (marker : MarkerRef) (w : World) : World :=
  let d := nextDrawer w in
  {| cursor_ := cursor_ w; markerSvg_ := markerSvg_ w; cursorSvg_ := cursorSvg_ w;
     markers := match markers w !! id with
                | Some _ => delete id (markers w)
                | None => markers w
                end;
     blockCanvas := blockCanvas w;
     drawerOf := upd (drawerOf w) marker (Some d);
     nextDrawer := S d;
     calls := (calls w
               ++ match markers w !! id with
                  | Some old => [MarkerDispose old]
                  | None => []
                  end)
              ++ [MakeMarkerDrawer marker d; CreateDom d d] |}.

End MarkerManager.

(** ** Default keyboard shortcuts

    The module exists in two variants; each is embedded on its own, from its
    own text, over the same collaborators. *)

Module KeyCodes.

(** The key codes the module reads off [KeyCodes] (utils/keycodes.js is not
    among the repository files). *)
Record t : Type := mk {
  ESC : BinNums.Z;
  DELETE : BinNums.Z;
  BACKSPACE : BinNums.Z;
  C : BinNums.Z;
  X : BinNums.Z;
  V : BinNums.Z;
  Z : BinNums.Z;
  Y : BinNums.Z;
  CTRL : BinNums.Z;
  ALT : BinNums.Z;
  META : BinNums.Z;
  SHIFT : BinNums.Z
}.

End KeyCodes.

Module Shortcuts.

(** What [common.getSelected()] returns, with the answers of its capability
    checks. *)
Record Selected : Type := mkSelected {
  ident : nat;
  isDeletable : bool;
  isMovable : bool;
  instanceofBlockSvg : bool;
  workspace_isFlyout : bool
}.

Record WorkspaceSvg : Type := mkWorkspace {
  workspaceId : nat;
  options_readOnly : bool
}.

Definition KeyEvent : Type := nat.

(** Calls into the workspace, the clipboard, the selection and the event. *)
Inductive Call : Type :=
| EventPreventDefault (event : KeyEvent)
| HideChaff (workspace : WorkspaceSvg)
| CheckAndDelete (selected : Selected)
| ClipboardCopy (selected : option Selected)
| ClipboardPaste
| WorkspaceUndo (workspace : WorkspaceSvg) (redo : bool).

(** An entry of [keyCodes]: a bare key code or a serialized chord. *)
Inductive KeyCode : Type :=
| Plain (code : Z)
| Chord (serialized : string).

(** Everything outside the module: the state of the collaborators ([Ext]),
    how each call changes it, what the queries of the module read from it,
    [ShortcutRegistry.registry.createSerializedKey] and the key codes. *)
Record Collaborators : Type := mkCollaborators {
  Ext : Type;
  react : Call -> Ext -> Ext;
  getSelected : Ext -> option Selected;
  inProgress : Ext -> bool;
  pasted : Ext -> bool;
  createSerializedKey : Z -> option (list Z) -> string;
  codes : KeyCodes.t
}.

Record World (c : Collaborators) : Type := mkWorld {
  ext : Ext c;
  calls : list Call
}.

Arguments mkWorld {c} ext calls.
Arguments ext {c} w.
Arguments calls {c} w.

Record KeyboardShortcut (c : Collaborators) : Type := mkShortcut {
  keyCodes : list KeyCode;
  name : string;
  preconditionFn : WorkspaceSvg -> Ext c -> bool;
  callback : WorkspaceSvg -> KeyEvent -> M (World c) bool
}.

Arguments mkShortcut {c} keyCodes name preconditionFn callback.
Arguments keyCodes {c} k.
Arguments name {c} k.
Arguments preconditionFn {c} k.
Arguments callback {c} k.

Definition call {c} (x : Call) : M (World c) unit :=
  modify (fun w => {| ext := react c x (ext w); calls := calls w ++ [x] |}).

Definition query {c A} (f : Ext c -> A) : M (World c) A :=
  gets (fun w => f (ext w)).

(** [ShortcutRegistry.registry.register]: the records, in registration
    order. *)
Definition register {c} (shortcut : KeyboardShortcut c)
  : M (list (KeyboardShortcut c)) unit :=
  modify (fun registry => registry ++ [shortcut]).

Definition lookup {c} (n : string) (registry : list (KeyboardShortcut c))
  : option (KeyboardShortcut c) :=
  List.find (fun s => String.eqb (name s) n) registry.

(** A method call on what [common.getSelected()] returns: on null it
    throws. *)
Definition on_selected {c} (method : string) (f : Selected -> M (World c) unit)
  : M (World c) unit :=
  let! selected := query (getSelected c) in
  match selected with
  | Some s => f s
  | None =>
      throw (TypeError ("Cannot read properties of null (reading '" ++ method ++ "')"))
  end.

Definition Names_Escape : string := "escape".
Definition Names_Delete : string := "delete".
Definition Names_Paste : string := "paste".
Definition Names_Copy : string := "copy".
Definition Names_Undo : string := "undo".
Definition Names_Redo : string := "redo".
Definition Names_Cut : string := "cut".

(** The preconditions and callbacks are written once per variant, as the
    source has them. *)

(** *** The variant that spells every chord out *)

Module V0.
Section Variant.
Context (c : Collaborators).

Definition escape : KeyboardShortcut c :=
  {| keyCodes := [Plain (KeyCodes.ESC (codes c))];
     name := Names_Escape;
     preconditionFn := fun workspace _ => negb (options_readOnly workspace);
     callback := fun workspace _ => do! call (HideChaff workspace) in ret true |}.

Definition registerEscape : M (list (KeyboardShortcut c)) unit := register escape.

Definition delete : KeyboardShortcut c :=
  {| keyCodes :=
       [Plain (KeyCodes.DELETE (codes c)); Plain (KeyCodes.BACKSPACE (codes c))];
     name := Names_Delete;
     preconditionFn := fun workspace e =>
       let selected := getSelected c e in
       negb (options_readOnly workspace)
       && match selected with
          | Some selected => isDeletable selected
          | None => false
          end;
     callback := fun _ event =>
       do! call (EventPreventDefault event) in
       let! dragging := query (inProgress c) in
       if dragging then ret false
       else
         do! on_selected "checkAndDelete" (fun s => call (CheckAndDelete s)) in
         ret true |}.

Definition registerDelete : M (list (KeyboardShortcut c)) unit := register delete.

Definition copy : KeyboardShortcut c :=
  let ctrlC :=
    createSerializedKey c (KeyCodes.C (codes c)) (Some [KeyCodes.CTRL (codes c)]) in
  let altC :=
    createSerializedKey c (KeyCodes.C (codes c)) (Some [KeyCodes.ALT (codes c)]) in
  let metaC :=
    createSerializedKey c (KeyCodes.C (codes c)) (Some [KeyCodes.META (codes c)]) in
  {| keyCodes := [Chord ctrlC; Chord altC; Chord metaC];
     name := Names_Copy;
     preconditionFn := fun workspace e =>
       let selected := getSelected c e in
       negb (options_readOnly workspace)
       && negb (inProgress c e)
       && match selected with
          | Some selected => isDeletable selected && isMovable selected
          | None => false
          end;
     callback := fun workspace event =>
       do! call (EventPreventDefault event) in
       do! call (HideChaff workspace) in
       let! selected := query (getSelected c) in
       do! call (ClipboardCopy selected) in
       ret true |}.

Definition registerCopy : M (list (KeyboardShortcut c)) unit := register copy.

Definition cut : KeyboardShortcut c :=
  let ctrlX :=
    createSerializedKey c (KeyCodes.X (codes c)) (Some [KeyCodes.CTRL (codes c)]) in
  let altX :=
    createSerializedKey c (KeyCodes.X (codes c)) (Some [KeyCodes.ALT (codes c)]) in
  let metaX :=
    createSerializedKey c (KeyCodes.X (codes c)) (Some [KeyCodes.META (codes c)]) in
  {| keyCodes := [Chord ctrlX; Chord altX; Chord metaX];
     name := Names_Cut;
     preconditionFn := fun workspace e =>
       let selected := getSelected c e in
       negb (options_readOnly workspace)
       && negb (inProgress c e)
       && match selected with
          | Some selected =>
              instanceofBlockSvg selected
              && isDeletable selected
              && isMovable selected
              && negb (workspace_isFlyout selected)
          | None => false
          end;
     callback := fun _ _ =>
       let! selected := query (getSelected c) in
       match selected with
       | None => ret false
       | Some selected =>
           do! call (ClipboardCopy (Some selected)) in
           do! call (CheckAndDelete selected) in
           ret true
       end |}.

Definition registerCut : M (list (KeyboardShortcut c)) unit := register cut.

Definition paste : KeyboardShortcut c :=
  let ctrlV :=
    createSerializedKey c (KeyCodes.V (codes c)) (Some [KeyCodes.CTRL (codes c)]) in
  let altV :=
    createSerializedKey c (KeyCodes.V (codes c)) (Some [KeyCodes.ALT (codes c)]) in
  let metaV :=
    createSerializedKey c (KeyCodes.V (codes c)) (Some [KeyCodes.META (codes c)]) in
  {| keyCodes := [Chord ctrlV; Chord altV; Chord metaV];
     name := Names_Paste;
     preconditionFn := fun workspace e =>
       negb (options_readOnly workspace) && negb (inProgress c e);
     callback := fun _ _ =>
       let! result := query (pasted c) in
       do! call ClipboardPaste in
       ret (negb (negb result)) |}.

Definition registerPaste : M (list (KeyboardShortcut c)) unit := register paste.

Definition undo : KeyboardShortcut c :=
  let ctrlZ :=
    createSerializedKey c (KeyCodes.Z (codes c)) (Some [KeyCodes.CTRL (codes c)]) in
  let altZ :=
    createSerializedKey c (KeyCodes.Z (codes c)) (Some [KeyCodes.ALT (codes c)]) in
  let metaZ :=
    createSerializedKey c (KeyCodes.Z (codes c)) (Some [KeyCodes.META (codes c)]) in
  {| keyCodes := [Chord ctrlZ; Chord altZ; Chord metaZ];
     name := Names_Undo;
     preconditionFn := fun workspace e =>
       negb (options_readOnly workspace) && negb (inProgress c e);
     callback := fun workspace _ =>
       do! call (HideChaff workspace) in
       do! call (WorkspaceUndo workspace false) in
       ret true |}.

Definition registerUndo : M (list (KeyboardShortcut c)) unit := register undo.

Definition redo : KeyboardShortcut c :=
  let ctrlShiftZ :=
    createSerializedKey c (KeyCodes.Z (codes c))
      (Some [KeyCodes.SHIFT (codes c); KeyCodes.CTRL (codes c)]) in
  let altShiftZ :=
    createSerializedKey c (KeyCodes.Z (codes c))
      (Some [KeyCodes.SHIFT (codes c); KeyCodes.ALT (codes c)]) in
  let metaShiftZ :=
    createSerializedKey c (KeyCodes.Z (codes c))
      (Some [KeyCodes.SHIFT (codes c); KeyCodes.META (codes c)]) in
  let ctrlY :=
    createSerializedKey c (KeyCodes.Y (codes c)) (Some [KeyCodes.CTRL (codes c)]) in
  {| keyCodes := [Chord ctrlShiftZ; Chord altShiftZ; Chord metaShiftZ; Chord ctrlY];
     name := Names_Redo;
     preconditionFn := fun workspace e =>
       negb (inProgress c e) && negb (options_readOnly workspace);
     callback := fun workspace _ =>
       do! call (HideChaff workspace) in
       do! call (WorkspaceUndo workspace true) in
       ret true |}.

Definition registerRedo : M (list (KeyboardShortcut c)) unit := register redo.

Definition registerDefaultShortcuts : M (list (KeyboardShortcut c)) unit :=
  do! registerEscape in
  do! registerDelete in
  do! registerCopy in
  do! registerCut in
  do! registerPaste in
  do! registerUndo in
  registerRedo.

End Variant.
End V0.

(** *** The variant that builds its chords with [Key] and [Variants] *)

Module V1.
Section Variant.
Context (c : Collaborators).

Record KeyProps : Type := mkKeyProps {
  modifiers : option (list Z);
  base : Z
}.

Definition Key (props : KeyProps) : string :=
  createSerializedKey c (base props) (modifiers props).

(** [Variants (base, modifiers = [])]; the optional parameter is the explicit
    list here. *)
Definition Variants (base : Z) (modifiers : list Z) : list string :=
  [ Key {| base := base; modifiers := Some (modifiers ++ [KeyCodes.CTRL (codes c)]) |};
    Key {| base := base; modifiers := Some (modifiers ++ [KeyCodes.ALT (codes c)]) |};
    Key {| base := base; modifiers := Some (modifiers ++ [KeyCodes.META (codes c)]) |} ].

Definition escape : KeyboardShortcut c :=
  {| keyCodes := [Plain (KeyCodes.ESC (codes c))];
     name := Names_Escape;
     preconditionFn := fun workspace _ => negb (options_readOnly workspace);
     callback := fun workspace _ => do! call (HideChaff workspace) in ret true |}.

Definition registerEscape : M (list (KeyboardShortcut c)) unit := register escape.

Definition delete : KeyboardShortcut c :=
  {| keyCodes :=
       [Plain (KeyCodes.DELETE (codes c)); Plain (KeyCodes.BACKSPACE (codes c))];
     name := Names_Delete;
     preconditionFn := fun workspace e =>
       let selected := getSelected c e in
       negb (options_readOnly workspace)
       && match selected with
          | Some selected => isDeletable selected
          | None => false
          end;
     callback := fun _ event =>
       do! call (EventPreventDefault event) in
       let! dragging := query (inProgress c) in
       if dragging then ret false
       else
         do! on_selected "checkAndDelete" (fun s => call (CheckAndDelete s)) in
         ret true |}.

Definition registerDelete : M (list (KeyboardShortcut c)) unit := register delete.

Definition copy : KeyboardShortcut c :=
  {| keyCodes := Chord <$> Variants (KeyCodes.C (codes c)) [];
     name := Names_Copy;
     preconditionFn := fun workspace e =>
       let selected := getSelected c e in
       negb (options_readOnly workspace)
       && negb (inProgress c e)
       && match selected with
          | Some selected => isDeletable selected && isMovable selected
          | None => false
          end;
     callback := fun workspace event =>
       do! call (EventPreventDefault event) in
       do! call (HideChaff workspace) in
       let! selected := query (getSelected c) in
       do! call (ClipboardCopy selected) in
       ret true |}.

Definition registerCopy : M (list (KeyboardShortcut c)) unit := register copy.

Definition cut : KeyboardShortcut c :=
  {| keyCodes := Chord <$> Variants (KeyCodes.X (codes c)) [];
     name := Names_Cut;
     preconditionFn := fun workspace e =>
       let selected := getSelected c e in
       negb (options_readOnly workspace)
       && negb (inProgress c e)
       && match selected with
          | Some selected =>
              instanceofBlockSvg selected
              && isDeletable selected
              && isMovable selected
              && negb (workspace_isFlyout selected)
          | None => false
          end;
     callback := fun _ _ =>
       let! selected := query (getSelected c) in
       match selected with
       | None => ret false
       | Some selected =>
           do! call (ClipboardCopy (Some selected)) in
           do! call (CheckAndDelete selected) in
           ret true
       end |}.

Definition registerCut : M (list (KeyboardShortcut c)) unit := register cut.

Definition paste : KeyboardShortcut c :=
  {| keyCodes := Chord <$> Variants (KeyCodes.V (codes c)) [];
     name := Names_Paste;
     preconditionFn := fun workspace e =>
       negb (options_readOnly workspace) && negb (inProgress c e);
     callback := fun _ _ =>
       let! result := query (pasted c) in
       do! call ClipboardPaste in
       ret (negb (negb result)) |}.

Definition registerPaste : M (list (KeyboardShortcut c)) unit := register paste.

Definition undo : KeyboardShortcut c :=
  {| keyCodes := Chord <$> Variants (KeyCodes.Z (codes c)) [];
     name := Names_Undo;
     preconditionFn := fun workspace e =>
       negb (options_readOnly workspace) && negb (inProgress c e);
     callback := fun workspace _ =>
       do! call (HideChaff workspace) in
       do! call (WorkspaceUndo workspace false) in
       ret true |}.

Definition registerUndo : M (list (KeyboardShortcut c)) unit := register undo.

Definition redo : KeyboardShortcut c :=
  let ctrl_alt_meta :=
    Variants (KeyCodes.Z (codes c)) [KeyCodes.SHIFT (codes c)] in
  let ctrlY :=
    Key {| modifiers := Some [KeyCodes.CTRL (codes c)];
           base := KeyCodes.Y (codes c) |} in
  {| keyCodes :=
       match ctrl_alt_meta with
       | ctrl :: alt :: meta :: _ => [Chord ctrl; Chord alt; Chord meta; Chord ctrlY]
       | _ => [Chord ctrlY]
       end;
     name := Names_Redo;
     preconditionFn := fun workspace e =>
       negb (inProgress c e) && negb (options_readOnly workspace);
     callback := fun workspace _ =>
       do! call (HideChaff workspace) in
       do! call (WorkspaceUndo workspace true) in
       ret true |}.

Definition registerRedo : M (list (KeyboardShortcut c)) unit := register redo.

Definition registerDefaultShortcuts : M (list (KeyboardShortcut c)) unit :=
  do! registerEscape in
  do! registerDelete in
  do! registerCopy in
  do! registerCut in
  do! registerPaste in
  do! registerUndo in
  registerRedo.

End Variant.
End V1.

(** *** Vocabulary for the statements *)

(** Two shortcut records do the same: same name, same chords in the same
    order, preconditions with the same answer on every workspace and every
    state of the collaborators, callbacks with the same calls, the same
    world afterwards and the same outcome. *)
Definition equivalent {c} (s0 s1 : KeyboardShortcut c) : Prop :=
  name s0 = name s1
  /\ keyCodes s0 = keyCodes s1
  /\ (forall workspace e, preconditionFn s0 workspace e = preconditionFn s1 workspace e)
  /\ (forall workspace event w,
        callback s0 workspace event w = callback s1 workspace event w).

Definition Names : list string :=
  [Names_Escape; Names_Delete; Names_Copy; Names_Cut; Names_Paste; Names_Undo;
   Names_Redo].

End Shortcuts.

(** ** ToolboxCategory: the colour of a category *)

Module ToolboxCategory.

(** The three properties of a category definition that [getColour_] reads. *)
Record CategoryInfo : Type := mkCategoryInfo {
  categorystyle : option string;
  categoryStyle : option string;
  colour : option string
}.

Record CategoryStyle : Type := mkCategoryStyle {
  style_colour : option string
}.

Record Theme : Type := mkTheme {
  categoryStyles : gmap string CategoryStyle
}.

(** The fields of the category, the theme of its workspace ([None] when
    [getTheme] returns nothing) and what [console.warn] has printed. *)
Record World : Type := mkWorld {
  name_ : string;
  theme : option Theme;
  warnings : list string
}.

Definition warn (msg : string) : M World unit :=
  modify (fun w =>
    {| name_ := name_ w; theme := theme w; warnings := warnings w ++ [msg] |}).

(** Truthiness of a value that is a string or missing. *)
Definition truthy (v : option string) : bool :=
  match v with
  | Some s => negb (String.eqb s "")
  | None => false
  end.

(** [a ?? b]. *)
Definition nullish (a b : option string) : option string :=
  match a with
  | Some _ => a
  | None => b
  end.

Definition nl : string := String (ascii_of_nat 10) EmptyString.

Definition both_style_and_colour (name : string) : string :=
  ("Toolbox category '" ++ name ++ "' must" ++ nl
   ++ "                 not have both a style and a colour")%string.

Definition style_missing (name : string) : string :=
  ("Style '" ++ name ++ "' must exist" ++ nl
   ++ "             and contain a colour value")%string.

Definition unrecognized_colour (name color : string) : string :=
  ("Toolbox category '" ++ name ++ "' has an" ++ nl
   ++ "             unrecognized color attribute: " ++ color)%string.

Section Colour.

(** [parsing.replaceMessageReferences], the conversion [Number] of a string
    ([None] for NaN), [colourUtils.hueToHex] and [colourUtils.parse] are not
    among the repository files. *)
Variable replaceMessageReferences : string -> option string.
Variable Number : string -> option Q.
Variable hueToHex : Q -> string.
Variable parse : string -> option string.

Definition parseColour_ (value : string) : M World string :=
  let color := replaceMessageReferences value in
  match color with
  | None => ret ""
  | Some color =>
      if String.eqb color "" then ret ""
      else
        match Number color with
        | Some hue => ret (hueToHex hue)
        | None =>
            let hex := parse color in
            if truthy hex then ret (default "" hex)
            else
              let! name := gets name_ in
              do! warn (unrecognized_colour name color) in
              ret ""
        end
  end.

Definition getColourfromStyle_ (name : string) : M World string :=
  if String.eqb name "" then ret ""
  else
    let! theme := gets theme in
    match theme with
    | None => ret ""
    | Some theme =>
        let colour :=
          match categoryStyles theme !! name with
          | Some style => style_colour style
          | None => None
          end in
        if truthy colour then parseColour_ (default "" colour)
        else
          do! warn (style_missing name) in
          ret ""
    end.

Definition getColour_ (category : CategoryInfo) : M World string :=
  let styleName := nullish (categorystyle category) (categoryStyle category) in
  let colour := colour category in
  if truthy colour && truthy styleName then
    let! name := gets name_ in
    do! warn (both_style_and_colour name) in
    ret ""
  else if truthy styleName then getColourfromStyle_ (default "" styleName)
  else if truthy colour then parseColour_ (default "" colour)
  else ret "".

(** *** Vocabulary for the statements *)

(** A colour value that is not recognized: after its message references are
    replaced it is a non-empty string that is no number and that
    [colourUtils.parse] does not know. *)
Definition unrecognized (value color : string) : Prop :=
  replaceMessageReferences value = Some color
  /\ color <> ""
  /\ Number color = None
  /\ truthy (parse color) = false.

End Colour.

(** A call warned once with [msg], gave the empty string and left the rest
    of the world alone. *)
Definition warned (msg : string) (w : World) (r : World * Outcome string) : Prop :=
  r = ({| name_ := name_ w; theme := theme w; warnings := warnings w ++ [msg] |},
       Ret "").

End ToolboxCategory.

(** ** Sample worlds

    Small worlds built with the operations above, on which the statements
    below are run. *)

Module Sample.

Definition empty_store : MenuItem.World :=
  {| MenuItem.items := fun _ => MenuItem.new;
     MenuItem.classList := fun _ => [];
     MenuItem.elemId := fun _ => "";
     MenuItem.nextElem := 0;
     MenuItem.log := [] |}.

(** Three items, the middle one disabled and the last one with an action
    handler; none has an element yet. *)
Definition items3 : MenuItem.World :=
  exec (do! MenuItem.setEnabled 1 false in MenuItem.onAction 2 7) empty_store.

Definition id_of (child : ItemRef) : string := "blockly-" ++ pretty child.

(** The menu rendered over them: its root is element 0, the items have the
    elements 1, 2 and 3. *)
Definition menu3 : Menu.World :=
  exec
    (do! Menu.addChild 0 in
     do! Menu.addChild 1 in
     do! Menu.addChild 2 in
     Menu.render id_of)
    {| Menu.menu := Menu.new; Menu.store := items3 |}.

Definition store3 : MenuItem.World := Menu.store menu3.

(** The same menu, opened by a pointer-down at (10, 20). *)
Definition menu3_opened : Menu.World :=
  Menu.set_menu
    (Menu.with_openingCoords (Some (Menu.mkCoordinate (10 # 1) (20 # 1)))) menu3.

(** A menu without items. *)
Definition menu0 : Menu.World :=
  {| Menu.menu := Menu.new; Menu.store := empty_store |}.

(** The distance of two points on one horizontal or vertical line. *)
Definition axis_distance (a b : Menu.Coordinate) : Q :=
  Qabs (Menu.x a - Menu.x b) + Qabs (Menu.y a - Menu.y b).

(** A pointer event on the element of item 2, half a pixel away from where
    the menu was opened, and one three pixels away. *)
Definition click_near : Menu.PointerEvent :=
  {| Menu.target := [3; 0]; Menu.clientX := Some (21 # 2); Menu.clientY := 20 # 1 |}.

Definition click_far : Menu.PointerEvent :=
  {| Menu.target := [3; 0]; Menu.clientX := Some (13 # 1); Menu.clientY := 20 # 1 |}.

Definition key (code : Z) (shift : bool) : Menu.KeyboardEvent :=
  {| Menu.shiftKey := shift; Menu.ctrlKey := false; Menu.metaKey := false;
     Menu.altKey := false; Menu.keyCode := code |}.

(** A canvas that holds two block nodes, and calls that register markers
    and set cursors over it. *)
Definition canvas2 : option (list MarkerManager.Node) := Some [1; 2].

Definition marker_calls : list MarkerManager.Op :=
  [ MarkerManager.OpRegisterMarker "m1" 10;
    MarkerManager.OpSetCursor 20;
    MarkerManager.OpRegisterMarker "local_marker_1" 11;
    MarkerManager.OpSetCursor 21;
    MarkerManager.OpRegisterMarker "m1" 12 ].

(** Collaborators for the shortcuts: the outside world is whether a drag is
    in progress and what is selected; deleting the selection clears it.  A
    chord is serialized as its modifiers and its key joined by [+]. *)
Definition block : Shortcuts.Selected :=
  {| Shortcuts.ident := 1; Shortcuts.isDeletable := true;
     Shortcuts.isMovable := true; Shortcuts.instanceofBlockSvg := true;
     Shortcuts.workspace_isFlyout := false |}.

Definition collaborators : Shortcuts.Collaborators :=
  {| Shortcuts.Ext := bool * option Shortcuts.Selected;
     Shortcuts.react := fun call e =>
       match call with
       | Shortcuts.CheckAndDelete _ => (fst e, None)
       | _ => e
       end;
     Shortcuts.getSelected := snd;
     Shortcuts.inProgress := fst;
     Shortcuts.pasted := fun _ => true;
     Shortcuts.createSerializedKey := fun base modifiers =>
       String.concat "+" (map pretty (default [] modifiers ++ [base]));
     Shortcuts.codes :=
       {| KeyCodes.ESC := 27; KeyCodes.DELETE := 46; KeyCodes.BACKSPACE := 8;
          KeyCodes.C := 67; KeyCodes.X := 88; KeyCodes.V := 86;
          KeyCodes.Z := 90; KeyCodes.Y := 89; KeyCodes.CTRL := 17;
          KeyCodes.ALT := 18; KeyCodes.META := 91; KeyCodes.SHIFT := 16 |} |}.

Definition workspace : Shortcuts.WorkspaceSvg :=
  {| Shortcuts.workspaceId := 0; Shortcuts.options_readOnly := false |}.

Definition idle : Shortcuts.World collaborators :=
  @Shortcuts.mkWorld collaborators (false, Some block) [].

Definition dragging : Shortcuts.World collaborators :=
  @Shortcuts.mkWorld collaborators (true, Some block) [].

(** A category world with a theme of one style, and collaborators that know
    hues written as digits and the colour name [red]. *)
Definition theme1 : ToolboxCategory.Theme :=
  {| ToolboxCategory.categoryStyles :=
       {[ "logic_category" := {| ToolboxCategory.style_colour := Some "210" |} ]} |}.

Definition category_world : ToolboxCategory.World :=
  {| ToolboxCategory.name_ := "Logic"; ToolboxCategory.theme := Some theme1;
     ToolboxCategory.warnings := [] |}.

Definition number_of (s : string) : option Q :=
  if String.eqb s "210" then Some (210 # 1) else None.

Definition hex_of_hue (h : Q) : string := "#5b80a5".

Definition parse_colour (s : string) : option string :=
  if String.eqb s "red" then Some "#ff0000" else None.

Definition sample_resolve :=
  ToolboxCategory.getColour_ Some number_of hex_of_hue parse_colour.

End Sample.

(** ** Menu: focus and the handlers bound in [render] *)

Module MenuPage.

(** The Menu in its document; [activeElement] is the element that has the
    focus, if any. *)
Record World : Type := mkWorld {
  page : Menu.World;
  activeElement : option Elem
}.

Definition set_page (p : Menu.World) (w : World) : World :=
  {| page := p; activeElement := activeElement w |}.

Definition set_activeElement (e : option Elem) (w : World) : World :=
  {| page := page w; activeElement := e |}.

Definition menu {A} (m : M Menu.World A) : M World A := lift page set_page m.

Definition set_class (e : Elem) (f : list string -> list string) : M World unit :=
  menu (Menu.item (modify (MenuItem.set_classList e f))).

(** [focus]: [element.focus ({ preventScroll : true })] makes the root the
    active element; then the class [blocklyFocused] is added. *)
Definition focus : M World unit :=
  let! element := menu Menu.getElement in
  match element with
  | None => ret tt
  | Some element =>
      do! modify (set_activeElement (Some element)) in
      set_class element (fun l => addClass l "blocklyFocused")
  end.

(** [blur]: [element.blur ()] takes the focus away from the root when it has
    it; then the class is removed. *)
Definition blur : M World unit :=
  let! element := menu Menu.getElement in
  match element with
  | None => ret tt
  | Some element =>
      do! modify (fun w =>
            if bool_decide (activeElement w = Some element)
            then set_activeElement None w else w) in
      set_class element (fun l => removeClass l "blocklyFocused")
  end.

Definition handleMouseEnter : M World unit := focus.

Definition handleMouseLeave : M World unit :=
  let! element := menu Menu.getElement in
  match element with
  | None => ret tt
  | Some _ =>
      do! blur in
      menu (Menu.setHighlighted None)
  end.

(** The events the five bindings of [render] deliver. *)
Inductive Input : Type :=
| PointerOver (event : Menu.PointerEvent)
| PointerDown (event : Menu.PointerEvent)
| PointerEnter
| PointerLeave
| KeyDown (event : Menu.KeyboardEvent).

Section Dispatch.

Variable distance : Menu.Coordinate -> Menu.Coordinate -> Q.
Variables KeyCodes_ENTER KeyCodes_SPACE KeyCodes_UP KeyCodes_DOWN : Z.
Variables KeyCodes_PAGE_UP KeyCodes_HOME KeyCodes_PAGE_DOWN KeyCodes_END : Z.

Definition handleKeyEvent : Menu.KeyboardEvent -> M Menu.World unit :=
  Menu.handleKeyEvent KeyCodes_ENTER KeyCodes_SPACE KeyCodes_UP KeyCodes_DOWN
    KeyCodes_PAGE_UP KeyCodes_HOME KeyCodes_PAGE_DOWN KeyCodes_END.

Definition dispatch (input : Input) : M World unit :=
  match input with
  | PointerOver event => menu (Menu.handleMouseOver event)
  | PointerDown event => menu (Menu.handleClick distance event)
  | PointerEnter => handleMouseEnter
  | PointerLeave => handleMouseLeave
  | KeyDown event => menu (handleKeyEvent event)
  end.

(** Events arrive one after the other; an exception ends the handler it was
    thrown in. *)
Definition deliver (inputs : list Input) (w : World) : World :=
  fold_left (fun w input => exec (dispatch input) w) inputs w.

End Dispatch.

(** *** Vocabulary for the statements *)

(** The enabled items of the menu, in the order of the array. *)
Definition enabledItems (w : Menu.World) : list ItemRef :=
  List.filter (Menu.enabled w) (Menu.menuItems (Menu.menu w)).

(** A call of an action handler is in order when its item is enabled and
    holds that handler. *)
Definition in_order (w : Menu.World) (x : Effect) : Prop :=
  match x with
  | CallActionHandler h r =>
      Menu.enabled w r = true
      /\ MenuItem.actionHandler (MenuItem.items (Menu.store w) r) = Some h
  | _ => True
  end.

(** From [w] to [w']: the items are enabled and hold handlers as before, and
    what was added to the log is in order. *)
Definition acts_in_order (w w' : Menu.World) : Prop :=
  (forall r, Menu.enabled w' r = Menu.enabled w r)
  /\ (forall r, MenuItem.actionHandler (MenuItem.items (Menu.store w') r)
                = MenuItem.actionHandler (MenuItem.items (Menu.store w) r))
  /\ exists added,
       MenuItem.log (Menu.store w') = MenuItem.log (Menu.store w) ++ added
       /\ Forall (in_order w) added.

(** From [w] to [w']: agreement of the flags with [highlightedItem] is
    kept. *)
Definition stays_consistent (w w' : Menu.World) : Prop :=
  Menu.consistent w -> Menu.consistent w'.

(** What one [performAction] writes to the log: the call itself, then the
    handler when the item is enabled and has one. *)
Definition calls_of (s : MenuItem.World) (r : ItemRef) : list Effect :=
  CallPerformAction r ::
  (if MenuItem.enabled (MenuItem.items s r)
   then match MenuItem.actionHandler (MenuItem.items s r) with
        | Some h => [CallActionHandler h r]
        | None => []
        end
   else []).

(** Every item of the menu has an element, as after [render]. *)
Definition rendered (w : Menu.World) : Prop :=
  forall r, In r (Menu.menuItems (Menu.menu w)) ->
    MenuItem.element (MenuItem.items (Menu.store w) r) <> None.

End MenuPage.

(** A method keeps a relation between the world before and the world it
    leaves, whether it returns or throws. *)
Definition keeps {W A} (R : W -> W -> Prop) (m : M W A) : Prop :=
  forall w, R w (exec m w).

(** A method returns from every world in [P], and leaves a world in [P]. *)
Definition returns {W A} (P : W -> Prop) (m : M W A) : Prop :=
  forall w, P w -> P (exec m w) /\ exists a, snd (m w) = Ret a.

(** ** MarkerManager: [dispose] *)

Module MarkerDisposal.
Import MarkerManager.

(** [dispose].  A JavaScript Map is gone through in the order in which its
    keys were first set, which the finite map does not keep: [keys] is what
    [this.markers.keys ()] yields.  The cursor is a Marker, so its [dispose]
    is recorded like that of a marker. *)
Definition dispose (keys : list string) : M World unit :=
  do! for_each keys (fun marker => unregisterMarker marker) in
  do! modify (with_markers ∅) in
  let! cursor := gets cursor_ in
  match cursor with
  | None => ret tt
  | Some cursor =>
      do! call (MarkerDispose cursor) in
      modify (with_cursor_ None)
  end.

(** *** Vocabulary for the statements *)

(** [keys] lists the keys of the map, each once. *)
Definition keys_of (keys : list string) (w : World) : Prop :=
  NoDup keys /\ forall id, id ∈ keys <-> is_Some (markers w !! id).

(** The [dispose] calls on the markers registered under [keys], in that
    order. *)
Definition disposals (keys : list string) (w : World) : list Call :=
  omap (fun id => MarkerDispose <$> markers w !! id) keys.

End MarkerDisposal.

(** ** Default shortcuts: collaborators that keep the selection

    Vocabulary for the statements on the callbacks. *)

Module ShortcutGuard.
Import Shortcuts.

(** [event.preventDefault ()] and [workspace.hideChaff ()] change neither
    what is selected nor whether a gesture is in progress. *)
Definition quiet (c : Collaborators) : Prop :=
  forall x e,
    (exists event, x = EventPreventDefault event) \/ (exists ws, x = HideChaff ws) ->
    getSelected c (react c x e) = getSelected c e
    /\ inProgress c (react c x e) = inProgress c e.

End ShortcutGuard.

(** ** ToolboxCategory: the contents of the flyout *)

Module ToolboxFlyout.
Import ToolboxCategory.

(** An entry of a flyout, known by its identity. *)
Definition FlyoutItemInfo : Type := nat.

Definition CssConfig : Type := gmap string string.

(** A category definition ([toolboxItemDef_]).  [None] stands for a key the
    object does not have; the three keys [getColour_] reads are kept as the
    record it takes. *)
Record CategoryDef : Type := mkCategoryDef {
  kind : string;
  name : option string;
  contents : option (list FlyoutItemInfo);
  custom : option string;
  id : option string;
  colours : CategoryInfo;
  cssconfig : option CssConfig;
  cssConfig : option CssConfig;
  hidden : option string
}.

(** [flyoutItems_]: the name of a dynamic category, or an array. *)
Inductive FlyoutItems : Type :=
| Custom (custom : string)
| Items (items : list FlyoutItemInfo).

Record World : Type := mkWorld {
  toolboxItemDef_ : CategoryDef;
  flyoutItems_ : FlyoutItems
}.

Definition with_flyoutItems_ (f : FlyoutItems) (w : World) : World :=
  {| toolboxItemDef_ := toolboxItemDef_ w; flyoutItems_ := f |}.

Definition with_toolboxItemDef_ (d : CategoryDef) (w : World) : World :=
  {| toolboxItemDef_ := d; flyoutItems_ := flyoutItems_ w |}.

Definition parseContents_ (category : CategoryDef) : M World unit :=
  match custom category with
  | Some custom => modify (with_flyoutItems_ (Custom custom))
  | None =>
      match contents category with
      | None => ret tt
      | Some contents =>
          let! flyoutItems_ := gets flyoutItems_ in
          match flyoutItems_ with
          | Custom _ => ret tt
          | Items items => modify (with_flyoutItems_ (Items (items ++ contents)))
          end
      end
  end.

Definition getContents : M World FlyoutItems := gets flyoutItems_.

Section Update.

(** [toolbox.convertFlyoutDefToJsonArray] of utils/toolbox.js is not among
    the repository files. *)
Variable FlyoutDefinition : Type.
Variable convertFlyoutDefToJsonArray : FlyoutDefinition -> list FlyoutItemInfo.

(** [updateFlyoutContents]; the argument is a string or a flyout
    definition.  The two object literals name their keys one by one: what
    they do not name is not in the new definition. *)
Definition updateFlyoutContents (contents' : string + FlyoutDefinition)
  : M World unit :=
  do! modify (with_flyoutItems_ (Items [])) in
  let! def := gets toolboxItemDef_ in
  let copied :=
    {| categorystyle := categorystyle (colours def);
       categoryStyle := None;
       colour := colour (colours def) |} in
  let newDefinition :=
    match contents' with
    | inl contents' =>
        {| kind := kind def;
           name := None;
           contents := None;
           custom := Some contents';
           id := id def;
           colours := copied;
           cssconfig := cssconfig def;
           cssConfig := None;
           hidden := hidden def |}
    | inr contents' =>
        {| kind := kind def;
           name := Some (match name def with Some n => n | None => "" end);
           contents := Some (convertFlyoutDefToJsonArray contents');
           custom := None;
           id := id def;
           colours := copied;
           cssconfig := cssconfig def;
           cssConfig := None;
           hidden := hidden def |}
    end in
  do! modify (with_toolboxItemDef_ newDefinition) in
  let! def := gets toolboxItemDef_ in
  parseContents_ def.

(** *** Vocabulary for the statements *)

(** What [getContents] gives after [updateFlyoutContents (contents)]. *)
Definition shown (contents' : string + FlyoutDefinition) : FlyoutItems :=
  match contents' with
  | inl custom => Custom custom
  | inr definition => Items (convertFlyoutDefToJsonArray definition)
  end.

End Update.

End ToolboxFlyout.

(** ** ToolboxCategory: the colour border of the row *)

Module ToolboxBorder.
Import ToolboxCategory.

(** The two properties of [rowDiv_.style] that the border is written to. *)
Record RowStyle : Type := mkRowStyle {
  borderLeft : string;
  borderRight : string
}.

(** The category with its row: [console] holds the name, the theme and the
    warnings, as [getColour_] sees them; [RTL] is [workspace_.RTL]. *)
Record World : Type := mkWorld {
  console : ToolboxCategory.World;
  toolboxItemDef_ : CategoryInfo;
  colour_ : string;
  rowDiv_ : option RowStyle;
  RTL : bool
}.

Definition set_console (c : ToolboxCategory.World) (w : World) : World :=
  {| console := c; toolboxItemDef_ := toolboxItemDef_ w; colour_ := colour_ w;
     rowDiv_ := rowDiv_ w; RTL := RTL w |}.

Definition with_colour_ (c : string) (w : World) : World :=
  {| console := console w; toolboxItemDef_ := toolboxItemDef_ w; colour_ := c;
     rowDiv_ := rowDiv_ w; RTL := RTL w |}.

Definition with_rowDiv_ (r : option RowStyle) (w : World) : World :=
  {| console := console w; toolboxItemDef_ := toolboxItemDef_ w;
     colour_ := colour_ w; rowDiv_ := r; RTL := RTL w |}.

Definition borderWidth : string := "8".

(** [addColourBorder_]; the assignment [color ||= '#DDD'] comes after the
    return on an empty colour and never changes [color]. *)
Definition addColourBorder_ (color : string) : M World unit :=
  if String.eqb color "" then ret tt
  else
    let color := if String.eqb color "" then "#DDD" else color in
    let border := (borderWidth ++ "px solid " ++ color)%string in
    let! rowDiv := gets rowDiv_ in
    match rowDiv with
    | None =>
        throw (TypeError "Cannot destructure property 'style' of 'this.rowDiv_' as it is null.")
    | Some style =>
        let! rtl := gets RTL in
        if rtl
        then modify (with_rowDiv_
                       (Some {| borderLeft := borderLeft style; borderRight := border |}))
        else modify (with_rowDiv_
                       (Some {| borderLeft := border; borderRight := borderRight style |}))
    end.

Section Refresh.

Variable replaceMessageReferences : string -> option string.
Variable Number : string -> option Q.
Variable hueToHex : Q -> string.
Variable parse : string -> option string.

Definition refreshTheme : M World unit :=
  let! def := gets toolboxItemDef_ in
  let! colour :=
    lift console set_console
      (getColour_ replaceMessageReferences Number hueToHex parse def) in
  do! modify (with_colour_ colour) in
  let! colour := gets colour_ in
  addColourBorder_ colour.

End Refresh.

End ToolboxBorder.

(** ** ZoomControls

    Numbers are rationals, on which the sums of the source are exact.  The
    value of a [transform] attribute is kept as the two numbers of its
    [translate]. *)

Module ZoomControls.

Local Open Scope Q_scope.

Definition Node : Type := nat.

Inductive Transform : Type :=
| translate (x y : Q).

Record Rect : Type := mkRect { top : Q; bottom : Q; left : Q; right : Q }.

Record Size : Type := mkSize { width : Q; height : Q }.

Inductive verticalPosition : Type := TOP | BOTTOM.
Inductive horizontalPosition : Type := LEFT | RIGHT.
Inductive bumpDirection : Type := UP | DOWN.

Record Position : Type := mkPosition {
  vertical : verticalPosition;
  horizontal : horizontalPosition
}.

(** The fields of the class, the [transform] attribute of the groups it
    made, and the workspace's answer to [isMovable].  The bind handles are
    not tracked. *)
Record World : Type := mkWorld {
  zoomResetGroup : option Node;
  zoomOutGroup : option Node;
  zoomInGroup : option Node;
  svgGroup : option Node;
  left_ : Q;
  top_ : Q;
  initialized : bool;
  transform : Node -> option Transform;
  nextNode : Node;
  isMovable : bool
}.

(** [new ZoomControls (workspace)]. *)
Definition new (movable : bool) : World :=
  {| zoomResetGroup := None; zoomOutGroup := None; zoomInGroup := None;
     svgGroup := None; left_ := 0; top_ := 0; initialized := false;
     transform := fun _ => None; nextNode := 0%nat; isMovable := movable |}.

Definition MARGIN_HORIZONTAL : Q := 20.
Definition MARGIN_VERTICAL : Q := 20.
Definition LARGE_SPACING : Q := 11.
Definition SMALL_SPACING : Q := 2.
Definition HEIGHT : Q := 32.
Definition WIDTH : Q := 32.

(** [dom.createSvgElement (Svg.G, ...)]: a new group, without a
    [transform]. *)
Definition createSvgElement : M World Node :=
  fun w =>
    let n := nextNode w in
    ({| zoomResetGroup := zoomResetGroup w; zoomOutGroup := zoomOutGroup w;
        zoomInGroup := zoomInGroup w; svgGroup := svgGroup w;
        left_ := left_ w; top_ := top_ w; initialized := initialized w;
        transform := upd (transform w) n None; nextNode := S n;
        isMovable := isMovable w |}, Ret n).

Definition with_groups (reset out in' svg : option Node) (w : World) : World :=
  {| zoomResetGroup := reset; zoomOutGroup := out; zoomInGroup := in';
     svgGroup := svg; left_ := left_ w; top_ := top_ w;
     initialized := initialized w; transform := transform w;
     nextNode := nextNode w; isMovable := isMovable w |}.

(** The three [createZoom...Svg]: the group of the button; its clip path,
    its image and its listener are not tracked. *)
Definition createZoomOutSvg : M World unit :=
  let! g := createSvgElement in
  modify (fun w =>
    with_groups (zoomResetGroup w) (Some g) (zoomInGroup w) (svgGroup w) w).

Definition createZoomInSvg : M World unit :=
  let! g := createSvgElement in
  modify (fun w =>
    with_groups (zoomResetGroup w) (zoomOutGroup w) (Some g) (svgGroup w) w).

Definition createZoomResetSvg : M World unit :=
  let! g := createSvgElement in
  modify (fun w =>
    with_groups (Some g) (zoomOutGroup w) (zoomInGroup w) (svgGroup w) w).

Definition createDom : M World (option Node) :=
  let! g := createSvgElement in
  do! modify (fun w =>
        with_groups (zoomResetGroup w) (zoomOutGroup w) (zoomInGroup w) (Some g) w) in
  do! createZoomOutSvg in
  do! createZoomInSvg in
  let! movable := gets isMovable in
  do! (if movable then createZoomResetSvg else ret tt) in
  gets svgGroup.

(** [init], without the registration with the component manager. *)
Definition init : M World unit :=
  modify (fun w =>
    {| zoomResetGroup := zoomResetGroup w; zoomOutGroup := zoomOutGroup w;
       zoomInGroup := zoomInGroup w; svgGroup := svgGroup w;
       left_ := left_ w; top_ := top_ w; initialized := true;
       transform := transform w; nextNode := nextNode w;
       isMovable := isMovable w |}).

(** [group?.setAttribute ('transform', ...)]. *)
Definition setTransform (group : option Node) (t : Transform) : M World unit :=
  match group with
  | None => ret tt
  | Some g =>
      modify (fun w =>
        {| zoomResetGroup := zoomResetGroup w; zoomOutGroup := zoomOutGroup w;
           zoomInGroup := zoomInGroup w; svgGroup := svgGroup w;
           left_ := left_ w; top_ := top_ w; initialized := initialized w;
           transform := upd (transform w) g (Some t); nextNode := nextNode w;
           isMovable := isMovable w |})
  end.

Definition with_position (l t : Q) (w : World) : World :=
  {| zoomResetGroup := zoomResetGroup w; zoomOutGroup := zoomOutGroup w;
     zoomInGroup := zoomInGroup w; svgGroup := svgGroup w;
     left_ := l; top_ := t; initialized := initialized w;
     transform := transform w; nextNode := nextNode w;
     isMovable := isMovable w |}.

(** The height of the controls: two buttons, a third when there is a reset
    button. *)
Definition controlsHeight (w : World) : Q :=
  let height := SMALL_SPACING + 2 * HEIGHT in
  match zoomResetGroup w with
  | Some _ => height + (LARGE_SPACING + HEIGHT)
  | None => height
  end.

Definition getBoundingRectangle : M World Rect :=
  let! height := gets controlsHeight in
  let! top := gets top_ in
  let! left := gets left_ in
  let bottom := top + height in
  let right := left + WIDTH in
  ret {| top := top; bottom := bottom; left := left; right := right |}.

Section Position.

(** [uiPosition.getCornerOppositeToolbox], [getStartPositionRect] and
    [bumpPositionRect] of positionable_helpers.js are not among the
    repository files; the workspace they are given is the same at every
    call. *)
Variable UiMetrics : Type.
Variable getCornerOppositeToolbox : UiMetrics -> Position.
Variable getStartPositionRect :
  Position -> Size -> Q -> Q -> UiMetrics -> Rect.
Variable bumpPositionRect : Rect -> Q -> bumpDirection -> list Rect -> Rect.

Definition position (metrics : UiMetrics) (savedPositions : list Rect)
  : M World unit :=
  let! initialized := gets initialized in
  if negb initialized then ret tt
  else
    let cornerPosition := getCornerOppositeToolbox metrics in
    let! height := gets controlsHeight in
    let startRect :=
      getStartPositionRect cornerPosition {| width := WIDTH; height := height |}
        MARGIN_HORIZONTAL MARGIN_VERTICAL metrics in
    let verticalPosition := vertical cornerPosition in
    let bumpDirection :=
      match verticalPosition with
      | TOP => DOWN
      | BOTTOM => UP
      end in
    let positionRect :=
      bumpPositionRect startRect MARGIN_VERTICAL bumpDirection savedPositions in
    let! zoomResetGroup := gets zoomResetGroup in
    do! match verticalPosition with
        | TOP =>
            let zoomInTranslateY := SMALL_SPACING + HEIGHT in
            let! zoomInGroup := gets zoomInGroup in
            do! setTransform zoomInGroup (translate 0 zoomInTranslateY) in
            match zoomResetGroup with
            | Some _ =>
                let zoomResetTranslateY :=
                  zoomInTranslateY + LARGE_SPACING + HEIGHT in
                setTransform zoomResetGroup (translate 0 zoomResetTranslateY)
            | None => ret tt
            end
        | BOTTOM =>
            let zoomInTranslateY :=
              match zoomResetGroup with
              | Some _ => LARGE_SPACING + HEIGHT
              | None => 0
              end in
            let! zoomInGroup := gets zoomInGroup in
            do! setTransform zoomInGroup (translate 0 zoomInTranslateY) in
            let zoomOutTranslateY := zoomInTranslateY + SMALL_SPACING + HEIGHT in
            let! zoomOutGroup := gets zoomOutGroup in
            setTransform zoomOutGroup (translate 0 zoomOutTranslateY)
        end in
    do! modify (with_position (left positionRect) (top positionRect)) in
    let! left := gets left_ in
    let! top := gets top_ in
    let! svgGroup := gets svgGroup in
    setTransform svgGroup (translate left top).

End Position.

(** *** Vocabulary for the statements *)

(** Where a button is drawn inside the controls: the [y] of its
    [translate], or 0 when the group has no [transform]. *)
Definition offset (w : World) (group : option Node) : option Q :=
  match group with
  | Some g =>
      Some match transform w g with
           | Some (translate _ y) => y
           | None => 0
           end
  | None => None
  end.

(** The controls as [createDom] and [init] leave them. *)
Definition ready (movable : bool) : World :=
  exec (do! createDom in init) (new movable).

End ZoomControls.

(** ** ZoomControls: vocabulary for the layout *)

Module ZoomLayout.
Import ZoomControls.

(** Two buttons of the controls do not overlap: one ends where or before the
    other begins.  A button that was not made overlaps nothing. *)
Definition apart (a b : option Q) : Prop :=
  match a, b with
  | Some a, Some b => (a + HEIGHT <= b)%Q \/ (b + HEIGHT <= a)%Q
  | _, _ => True
  end.

(** A button lies inside the height of the controls. *)
Definition inside (w : World) (a : option Q) : Prop :=
  match a with
  | Some a => (0 <= a)%Q /\ (a + HEIGHT <= controlsHeight w)%Q
  | None => True
  end.

(** The controls were made and initialized: [createDom] gave the controls
    their group and the two buttons theirs (and the reset button its own,
    when there is one), all different nodes, and [init] was called. *)
Definition made (w : World) : Prop :=
  initialized w = true
  /\ exists s o i,
       svgGroup w = Some s /\ zoomOutGroup w = Some o /\ zoomInGroup w = Some i
       /\ s <> o /\ s <> i /\ o <> i
       /\ match zoomResetGroup w with
          | Some r => r <> s /\ r <> o /\ r <> i
          | None => True
          end.

(** The button that [position] does not write for a corner on the given
    side (the zoom-out button at the top, the reset button at the bottom) is
    where [createDom] drew it, at offset 0. *)
Definition rests (side : verticalPosition) (w : World) : Prop :=
  match side with
  | TOP => offset w (zoomOutGroup w) = Some 0%Q
  | BOTTOM =>
      match zoomResetGroup w with
      | Some _ => offset w (zoomResetGroup w) = Some 0%Q
      | None => True
      end
  end.

End ZoomLayout.

(** ** Icon

    The abstract class: [drawIcon_], [updateEditable] and [setVisible] have
    empty bodies here; their calls are written to the log. *)

Module Icon.

Definition Node : Type := nat.

Inductive Call : Type :=
| DrawIcon_ (group : Node)
| ConditionalBind (group : Node)
| UpdateEditable
| SetVisible (visible : bool).

(** The block of the icon: whether it is in a flyout, and the children of
    its SVG root. *)
Record BlockSvg : Type := mkBlockSvg {
  isInFlyout : bool;
  svgRoot : list Node
}.

Record World : Type := mkWorld {
  block_ : option BlockSvg;
  iconGroup_ : option Node;
  hasBubble : bool;
  classList : Node -> list string;
  nextNode : Node;
  calls : list Call
}.

Definition with_iconGroup_ (g : option Node) (w : World) : World :=
  {| block_ := block_ w; iconGroup_ := g; hasBubble := hasBubble w;
     classList := classList w; nextNode := nextNode w; calls := calls w |}.

Definition with_svgRoot (f : list Node -> list Node) (w : World) : World :=
  {| block_ :=
       match block_ w with
       | Some b => Some {| isInFlyout := isInFlyout b; svgRoot := f (svgRoot b) |}
       | None => None
       end;
     iconGroup_ := iconGroup_ w; hasBubble := hasBubble w;
     classList := classList w; nextNode := nextNode w; calls := calls w |}.

Definition call (c : Call) : M World unit :=
  modify (fun w =>
    {| block_ := block_ w; iconGroup_ := iconGroup_ w; hasBubble := hasBubble w;
       classList := classList w; nextNode := nextNode w;
       calls := calls w ++ [c] |}).

(** [dom.createSvgElement (Svg.G, { class : 'blocklyIconGroup' })]. *)
Definition createSvgElement : M World Node :=
  fun w =>
    let n := nextNode w in
    ({| block_ := block_ w; iconGroup_ := iconGroup_ w; hasBubble := hasBubble w;
        classList := upd (classList w) n ["blocklyIconGroup"];
        nextNode := S n; calls := calls w |}, Ret n).

Definition getBlock : M World BlockSvg :=
  let! block_ := gets block_ in
  match block_ with
  | Some block_ => ret block_
  | None => throw (Error "Block is not set for this icon.")
  end.

Definition drawIcon_ (group : Node) : M World unit := call (DrawIcon_ group).

Definition updateEditable : M World unit := call UpdateEditable.

Definition setVisible (visible : bool) : M World unit := call (SetVisible visible).

Definition isVisible : M World bool := gets hasBubble.

Definition createIcon : M World unit :=
  let! iconGroup_ := gets iconGroup_ in
  match iconGroup_ with
  | Some _ => ret tt
  | None =>
      let! group := createSvgElement in
      do! modify (with_iconGroup_ (Some group)) in
      let! block := getBlock in
      do! (if isInFlyout block
           then modify (fun w =>
                  {| block_ := block_ w; iconGroup_ := Icon.iconGroup_ w;
                     hasBubble := hasBubble w;
                     classList :=
                       upd (classList w) group
                         (addClass (classList w group) "blocklyIconGroupReadonly");
                     nextNode := nextNode w; calls := calls w |})
           else ret tt) in
      do! drawIcon_ group in
      do! modify (with_svgRoot (MarkerManager.appendChild group)) in
      do! call (ConditionalBind group) in
      updateEditable
  end.

(** Modelled from the spec: [dom.removeNode] of utils/dom.js takes the node
    out of its parent, when it has one. *)
Definition removeNode (node : option Node) : M World unit :=
  match node with
  | Some n => modify (with_svgRoot (MarkerManager.without n))
  | None => ret tt
  end.

Definition dispose : M World unit :=
  let! iconGroup_ := gets iconGroup_ in
  do! removeNode iconGroup_ in
  setVisible false.

(** *** Vocabulary for the statements *)

(** The children of the SVG root of the block, none without a block. *)
Definition children (w : World) : list Node :=
  match block_ w with
  | Some b => svgRoot b
  | None => []
  end.

(** An icon that was never created, on a block whose nodes were all made
    before. *)
Definition fresh (w : World) : Prop :=
  iconGroup_ w = None /\ forall n, n ∈ children w -> n < nextNode w.

End Icon.

(** ** More sample worlds *)

Module SampleMore.

(** The rendered sample menu in its document, nothing focused. *)
Definition page3 : MenuPage.World :=
  {| MenuPage.page := Sample.menu3; MenuPage.activeElement := None |}.

(** The same three items in a menu that was not rendered yet. *)
Definition menu3_unrendered : Menu.World :=
  exec
    (do! Menu.addChild 0 in
     do! Menu.addChild 1 in
     Menu.addChild 2)
    {| Menu.menu := Menu.new; Menu.store := Sample.items3 |}.

(** Key codes as utils/keycodes.js has them. *)
Definition deliver : list MenuPage.Input -> MenuPage.World -> MenuPage.World :=
  MenuPage.deliver Sample.axis_distance 13 32 38 40 33 36 34 35.

Definition dispatch : MenuPage.Input -> M MenuPage.World unit :=
  MenuPage.dispatch Sample.axis_distance 13 32 38 40 33 36 34 35.

(** Down, over the disabled item, down twice, a click on the last item,
    enter, and the pointer leaves. *)
Definition events : list MenuPage.Input :=
  [ MenuPage.KeyDown (Sample.key 40 false);
    MenuPage.PointerOver
      {| Menu.target := [2; 0]; Menu.clientX := Some (1 # 1); Menu.clientY := 1 # 1 |};
    MenuPage.KeyDown (Sample.key 40 false);
    MenuPage.KeyDown (Sample.key 40 false);
    MenuPage.PointerDown Sample.click_far;
    MenuPage.KeyDown (Sample.key 13 false);
    MenuPage.PointerLeave ].

(** A manager that remembers a cursor node which is not on the canvas. *)
Definition lost_cursor : MarkerManager.World :=
  MarkerManager.with_cursorSvg_ (Some 9) (MarkerManager.new Sample.canvas2).

(** A manager with one marker and a cursor. *)
Definition one_marker : MarkerManager.World :=
  MarkerManager.with_cursor_ (Some 5)
    (MarkerManager.with_markers {[ "m1" := 10 ]} (MarkerManager.new Sample.canvas2)).

(** Helpers for the place of the zoom controls: the metrics are the side
    of the corner; the start rectangle has the size asked for and nothing
    bumps it. *)
Definition corner_of (side : ZoomControls.verticalPosition) : ZoomControls.Position :=
  {| ZoomControls.vertical := side; ZoomControls.horizontal := ZoomControls.RIGHT |}.

Definition start_rect (corner : ZoomControls.Position) (size : ZoomControls.Size)
  (horizontal vertical : Q) (side : ZoomControls.verticalPosition)
  : ZoomControls.Rect :=
  {| ZoomControls.top := vertical;
     ZoomControls.bottom := (vertical + ZoomControls.height size)%Q;
     ZoomControls.left := horizontal;
     ZoomControls.right := (horizontal + ZoomControls.width size)%Q |}.

Definition no_bump (rect : ZoomControls.Rect) (margin : Q)
  (direction : ZoomControls.bumpDirection) (saved : list ZoomControls.Rect)
  : ZoomControls.Rect := rect.

Definition place :=
  ZoomControls.position ZoomControls.verticalPosition corner_of start_rect no_bump.

End SampleMore.

(** ** MarkerManager: every call a client can make *)

Module MarkerCalls.
Import MarkerManager.

(** The calls that change the manager; [setCursor] may be given null. *)
Inductive Op : Type :=
| OpRegisterMarker (id : string) (marker : MarkerRef)
| OpUnregisterMarker (id : string)
| OpSetCursor (cursor : option MarkerRef).

Definition step (op : Op) : M World unit :=
  match op with
  | OpRegisterMarker id marker => registerMarker id marker
  | OpUnregisterMarker id => unregisterMarker id
  | OpSetCursor cursor => setCursor cursor
  end.

(** What happens to the manager and its canvas, one thing after the other:
    a call of the manager, or a node leaving the canvas.  [dispose] of a
    drawer or of a marker is not among the repository files; where it takes
    the node it drew off the canvas, that is a [Removed] here. *)
Inductive Event : Type :=
| Call (op : Op)
| Removed (node : Node).

Definition happen (event : Event) : M World unit :=
  match event with
  | Call op => step op
  | Removed node =>
      modify (fun w => with_blockCanvas (without node <$> blockCanvas w) w)
  end.

Definition history (events : list Event) (w : World) : World :=
  fold_left (fun w event => exec (happen event) w) events w.

(** *** Vocabulary for the statements *)

(** In a history from [w] on, [setCursor] is never given null and the node
    that leaves the canvas is never the cursor node the manager remembers
    at that moment. *)
Fixpoint cursor_node_stays (events : list Event) (w : World) : Prop :=
  match events with
  | [] => True
  | event :: rest =>
      match event with
      | Call op => op <> OpSetCursor None
      | Removed node => cursorSvg_ w <> Some node
      end
      /\ cursor_node_stays rest (exec (happen event) w)
  end.

End MarkerCalls.

(** * Properties *)

(** ** The object store *)

Lemma upd_same {A} (f : nat -> A) k v : upd f k v k = v.
Proof. unfold upd. now rewrite Nat.eqb_refl. Qed.

Lemma upd_other {A} (f : nat -> A) k k' v : k' <> k -> upd f k v k' = f k'.
Proof.
  intros Hne. unfold upd.
  destruct (Nat.eqb_spec k' k); [contradiction | reflexivity].
Qed.

Lemma contains_addClass l name : contains (addClass l name) name = true.
Proof.
  unfold addClass. destruct (contains l name) eqn:E; [exact E |].
  unfold contains. rewrite existsb_app. simpl.
  rewrite String.eqb_refl. now rewrite orb_true_r.
Qed.

Lemma contains_removeClass l name : contains (removeClass l name) name = false.
Proof.
  unfold contains, removeClass.
  induction l as [| c l IH]; [reflexivity |].
  rewrite filter_cons. destruct (decide (c ≠ name)) as [Hne | Heq].
  - simpl. rewrite IH, orb_false_r.
    apply String.eqb_neq. congruence.
  - exact IH.
Qed.

Lemma contains_addClass_other l name other :
  other <> name -> contains (addClass l name) other = contains l other.
Proof.
  intros Hne. unfold addClass. destruct (contains l name); [reflexivity |].
  unfold contains. rewrite existsb_app. simpl.
  apply String.eqb_neq in Hne. now rewrite Hne, !orb_false_r.
Qed.

Lemma contains_removeClass_other l name other :
  other <> name -> contains (removeClass l name) other = contains l other.
Proof.
  intros Hne. unfold contains, removeClass.
  induction l as [| c l IH]; [reflexivity |].
  rewrite filter_cons. destruct (decide (c ≠ name)) as [Hc | Hc].
  - simpl. now rewrite IH.
  - simpl. rewrite IH.
    assert (c = name) as -> by (destruct (decide (c = name)); tauto).
    apply String.eqb_neq in Hne. now rewrite Hne.
Qed.

(** ** MenuItem.setHighlighted *)

Module MenuItemFacts.
Import MenuItem.

Lemma setHighlighted_eq this b w :
  setHighlighted this b w = (highlighted_world this b w, Ret tt).
Proof.
  unfold setHighlighted, highlighted_world, getElement, isEnabled,
    bind, gets, modify, ret.
  simpl. rewrite !upd_same. simpl.
  destruct (element (items w this)); [| reflexivity].
  destruct (enabled (items w this)); simpl; [| reflexivity].
  destruct b; reflexivity.
Qed.

Lemma highlighted_world_items this b w :
  items (highlighted_world this b w)
  = upd (items w) this (with_highlight b (items w this)).
Proof.
  unfold highlighted_world.
  destruct (element (items w this)); [| reflexivity].
  destruct (negb (enabled (items w this))); [reflexivity |].
  destruct b; reflexivity.
Qed.

Lemma highlighted_world_log this b w :
  log (highlighted_world this b w) = log w.
Proof.
  unfold highlighted_world.
  destruct (element (items w this)); [| reflexivity].
  destruct (negb (enabled (items w this))); [reflexivity |].
  destruct b; reflexivity.
Qed.

Lemma highlighted_world_flag this b w r :
  highlight (items (highlighted_world this b w) r)
  = if Nat.eqb r this then b else highlight (items w r).
Proof.
  rewrite highlighted_world_items. unfold upd.
  destruct (Nat.eqb r this); reflexivity.
Qed.

Lemma highlighted_world_enabled this b w r :
  enabled (items (highlighted_world this b w) r) = enabled (items w r).
Proof.
  rewrite highlighted_world_items. unfold upd.
  destruct (Nat.eqb_spec r this) as [-> |]; reflexivity.
Qed.

Lemma highlighted_world_element this b w r :
  element (items (highlighted_world this b w) r) = element (items w r).
Proof.
  rewrite highlighted_world_items. unfold upd.
  destruct (Nat.eqb_spec r this) as [-> |]; reflexivity.
Qed.

End MenuItemFacts.

(** ** Menu: the highlight *)

Module MenuFacts.
Import Menu.

Lemma setHighlighted_None w :
  setHighlighted None w
  = ({| menu := with_highlightedItem None (menu w);
        store := rehighlighted None w |}, Ret tt).
Proof.
  unfold setHighlighted, rehighlighted, item, lift, bind, gets, modify, ret,
    set_menu, set_store.
  simpl. destruct (highlightedItem (menu w)) as [old |]; simpl.
  - rewrite MenuItemFacts.setHighlighted_eq. reflexivity.
  - reflexivity.
Qed.

(** What [Menu.setHighlighted (Some it)] leaves behind: the two flag writes
    and the field come first, then the calls that scroll and tell ARIA, of
    which [getId] throws on an item without element. *)
Lemma setHighlighted_Some it w :
  let s := rehighlighted (Some it) w in
  let m := with_highlightedItem (Some it) (menu w) in
  let s1 :=
    MenuItem.emit
      (ScrollIntoContainerView (MenuItem.element (MenuItem.items s it)) (element m)) s in
  setHighlighted (Some it) w
  = match MenuItem.element (MenuItem.items s it) with
    | Some e =>
        ({| menu := m;
            store := MenuItem.emit
                       (AriaSetActiveDescendant (element m) (MenuItem.elemId s e)) s1 |},
         Ret tt)
    | None =>
        ({| menu := m; store := s1 |},
         Throw (TypeError "Cannot read properties of null (reading 'id')"))
    end.
Proof.
  unfold setHighlighted, rehighlighted, item, emit, getElement, lift, bind, gets,
    modify, ret, set_menu, set_store, MenuItem.getId, MenuItem.getElement, throw.
  simpl. destruct (highlightedItem (menu w)) as [old |]; simpl.
  - repeat (rewrite MenuItemFacts.setHighlighted_eq; simpl).
    unfold bind, gets, throw. simpl.
    destruct (MenuItem.element _); reflexivity.
  - repeat (rewrite MenuItemFacts.setHighlighted_eq; simpl).
    unfold bind, gets, throw. simpl.
    destruct (MenuItem.element _); reflexivity.
Qed.

Lemma rehighlighted_flag i w r :
  MenuItem.highlight (MenuItem.items (rehighlighted i w) r)
  = match i with
    | Some it =>
        if Nat.eqb r it then true
        else match highlightedItem (menu w) with
             | Some old => if Nat.eqb r old then false else flag w r
             | None => flag w r
             end
    | None =>
        match highlightedItem (menu w) with
        | Some old => if Nat.eqb r old then false else flag w r
        | None => flag w r
        end
    end.
Proof.
  unfold rehighlighted, flag.
  destruct i as [it |], (highlightedItem (menu w)) as [old |];
    rewrite ?MenuItemFacts.highlighted_world_flag; reflexivity.
Qed.

Lemma rehighlighted_enabled i w r :
  MenuItem.enabled (MenuItem.items (rehighlighted i w) r) = enabled w r.
Proof.
  unfold rehighlighted, enabled.
  destruct i as [it |], (highlightedItem (menu w)) as [old |];
    rewrite ?MenuItemFacts.highlighted_world_enabled; reflexivity.
Qed.

(** The fields after [Menu.setHighlighted], whether it returned or threw. *)
Lemma setHighlighted_menu i w :
  menu (exec (setHighlighted i) w) = with_highlightedItem i (menu w).
Proof.
  unfold exec. destruct i as [it |].
  - pose proof (setHighlighted_Some it w) as H. simpl in H. rewrite H.
    destruct (MenuItem.element _); reflexivity.
  - rewrite setHighlighted_None. reflexivity.
Qed.

Lemma setHighlighted_flag i w r :
  flag (exec (setHighlighted i) w) r
  = MenuItem.highlight (MenuItem.items (rehighlighted i w) r).
Proof.
  unfold exec, flag. destruct i as [it |].
  - pose proof (setHighlighted_Some it w) as H. simpl in H. rewrite H.
    destruct (MenuItem.element _); reflexivity.
  - rewrite setHighlighted_None. reflexivity.
Qed.

Lemma setHighlighted_never_out_of_fuel i w :
  snd (setHighlighted i w) <> OutOfFuel.
Proof.
  destruct i as [it |].
  - pose proof (setHighlighted_Some it w) as H. simpl in H. rewrite H.
    destruct (MenuItem.element _); simpl; discriminate.
  - rewrite setHighlighted_None. simpl. discriminate.
Qed.

(** [Menu.setHighlighted] makes the flags agree with [highlightedItem], from
    any world in which they agreed. *)
Lemma setHighlighted_consistent i w :
  consistent w -> consistent (exec (setHighlighted i) w).
Proof.
  intros Hc r. rewrite setHighlighted_flag, setHighlighted_menu, rehighlighted_flag.
  simpl. pose proof (Hc r) as Hr.
  destruct i as [it |].
  - destruct (Nat.eqb_spec r it) as [-> | Hne].
    + tauto.
    + split; [| intros [= ?]; congruence].
      destruct (highlightedItem (menu w)) as [old |] eqn:Eo.
      * destruct (Nat.eqb_spec r old) as [-> | Hne']; [discriminate |].
        intros Hf. apply Hr in Hf. congruence.
      * intros Hf. apply Hr in Hf. discriminate.
  - split; [| discriminate].
    destruct (highlightedItem (menu w)) as [old |] eqn:Eo.
    + destruct (Nat.eqb_spec r old) as [-> | Hne']; [discriminate |].
      intros Hf. apply Hr in Hf. congruence.
    + intros Hf. apply Hr in Hf. discriminate.
Qed.

Lemma fresh_consistent w : fresh w -> consistent w.
Proof.
  intros [Hn Hf] r. rewrite Hf, Hn. split; discriminate.
Qed.

(** One turn of the loop of [highlightHelper]. *)
Lemma highlightLoop_S fuel index delta w :
  highlightLoop (S fuel) index delta w
  = match at_index (menuItems (menu w)) index with
    | None => (w, Ret tt)
    | Some r =>
        if enabled w r then setHighlighted (Some r) w
        else highlightLoop fuel (index + delta) delta w
    end.
Proof.
  cbn [highlightLoop]. unfold bind at 1. unfold gets at 1. cbv beta.
  destruct (at_index (menuItems (menu w)) index) as [r |]; [| reflexivity].
  unfold bind, item, lift, MenuItem.isEnabled, gets, set_store, enabled.
  destruct w as [m s]; simpl.
  destruct (MenuItem.enabled (MenuItem.items s r)); reflexivity.
Qed.

(** The loop only reads the world until it finds its item: it ends without
    a change, or in one call of [setHighlighted]. *)
Lemma highlightLoop_cases fuel : forall index delta w,
  highlightLoop fuel index delta w = (w, Ret tt)
  \/ highlightLoop fuel index delta w = (w, OutOfFuel)
  \/ exists r, highlightLoop fuel index delta w = setHighlighted (Some r) w.
Proof.
  induction fuel as [| fuel IH]; intros index delta w.
  - right. left. reflexivity.
  - rewrite highlightLoop_S.
    destruct (at_index (menuItems (menu w)) index) as [r |]; [| left; reflexivity].
    destruct (enabled w r).
    + right. right. exists r. reflexivity.
    + apply IH.
Qed.

Lemma highlightLoop_consistent fuel index delta w :
  consistent w -> consistent (exec (highlightLoop fuel index delta) w).
Proof.
  intros Hc. unfold exec.
  destruct (highlightLoop_cases fuel index delta w) as [H | [H | [r H]]];
    rewrite H; [exact Hc | exact Hc |].
  now apply setHighlighted_consistent.
Qed.

Lemma handleMouseOver_eq event w :
  handleMouseOver event w
  = match getMenuItem w (target event) with
    | None => (w, Ret tt)
    | Some r =>
        if enabled w r then
          if bool_decide (highlightedItem (menu w) = Some r) then (w, Ret tt)
          else setHighlighted (Some r) w
        else setHighlighted None w
    end.
Proof.
  unfold handleMouseOver. unfold bind at 1. unfold gets at 1. cbv beta.
  destruct (getMenuItem w (target event)) as [r |]; [| reflexivity].
  unfold bind at 1. unfold item, lift, MenuItem.isEnabled, gets, set_store, enabled.
  destruct w as [m s]; simpl.
  destruct (MenuItem.enabled (MenuItem.items s r)); [| reflexivity].
  unfold bind. simpl.
  destruct (bool_decide (highlightedItem m = Some r)); reflexivity.
Qed.

Lemma handleMouseOver_cases event w :
  handleMouseOver event w = (w, Ret tt)
  \/ exists i, handleMouseOver event w = setHighlighted i w.
Proof.
  rewrite handleMouseOver_eq.
  destruct (getMenuItem w (target event)) as [r |]; [| left; reflexivity].
  destruct (enabled w r).
  - destruct (bool_decide (highlightedItem (menu w) = Some r)).
    + left. reflexivity.
    + right. exists (Some r). reflexivity.
  - right. exists None. reflexivity.
Qed.

Lemma step_consistent op w : consistent w -> consistent (exec (step op) w).
Proof.
  intros Hc. destruct op as [i | | | | | event]; simpl.
  - now apply setHighlighted_consistent.
  - now apply highlightLoop_consistent.
  - now apply highlightLoop_consistent.
  - now apply highlightLoop_consistent.
  - now apply highlightLoop_consistent.
  - unfold exec.
    destruct (handleMouseOver_cases event w) as [H | [i H]]; rewrite H;
      [exact Hc |].
    now apply setHighlighted_consistent.
Qed.

Lemma run_consistent ops : forall w, consistent w -> consistent (run ops w).
Proof.
  induction ops as [| op ops IH]; intros w Hc; [exact Hc |].
  simpl. apply IH. now apply step_consistent.
Qed.

Lemma consistent_at_most_one w r1 r2 :
  consistent w -> flag w r1 = true -> flag w r2 = true -> r1 = r2.
Proof.
  intros Hc H1 H2. apply Hc in H1. apply Hc in H2. congruence.
Qed.

(** *** Walking over the items *)

Lemma at_index_Some l i r :
  at_index l i = Some r -> (0 <= i < Z.of_nat (List.length l))%Z.
Proof.
  unfold at_index. destruct (Z.ltb_spec i 0) as [Hneg | Hpos]; [discriminate |].
  intros H. apply lookup_lt_Some in H. lia.
Qed.

Lemma at_index_in_range l i :
  (0 <= i < Z.of_nat (List.length l))%Z -> exists r, at_index l i = Some r.
Proof.
  intros [H0 H1]. unfold at_index.
  destruct (Z.ltb_spec i 0) as [Hneg | Hpos]; [lia |].
  destruct (l !! Z.to_nat i) as [r |] eqn:E; [now exists r |].
  apply lookup_ge_None in E. lia.
Qed.

Lemma at_index_outside l i :
  (i < 0 \/ Z.of_nat (List.length l) <= i)%Z -> at_index l i = None.
Proof.
  intros H. unfold at_index.
  destruct (Z.ltb_spec i 0) as [Hneg | Hpos]; [reflexivity |].
  apply lookup_ge_None. lia.
Qed.

Lemma indexOf_range l r :
  (-1 <= indexOf l r < Z.of_nat (List.length l))%Z.
Proof.
  induction l as [| a l IH]; simpl; [lia |].
  destruct (Nat.eqb a r); [lia |].
  destruct (Z.ltb_spec (indexOf l r) 0); lia.
Qed.

Lemma indexOf_In l r : In r l -> at_index l (indexOf l r) = Some r.
Proof.
  induction l as [| a l IH]; simpl; [tauto |].
  intros Hin. destruct (Nat.eqb_spec a r) as [-> | Hne]; [reflexivity |].
  destruct Hin as [-> | Hin]; [contradiction |].
  specialize (IH Hin). pose proof (at_index_Some _ _ _ IH) as Hr.
  destruct (Z.ltb_spec (indexOf l r) 0) as [Hneg | Hpos]; [lia |].
  unfold at_index in *.
  destruct (Z.ltb_spec (indexOf l r + 1) 0); [lia |].
  destruct (Z.ltb_spec (indexOf l r) 0); [lia |].
  replace (Z.to_nat (indexOf l r + 1)) with (S (Z.to_nat (indexOf l r))) by lia.
  exact IH.
Qed.

Lemma currentIndex_range w :
  (-1 <= currentIndex w < Z.of_nat (List.length (menuItems (menu w))))%Z.
Proof.
  unfold currentIndex. destruct (highlightedItem (menu w)).
  - apply indexOf_range.
  - lia.
Qed.

(** The loop passes over [steps] disabled items and highlights the enabled
    item it meets then. *)
Lemma highlightLoop_found delta steps : forall fuel index w r,
  steps < fuel ->
  (forall k, k < steps -> exists r',
     at_index (menuItems (menu w)) (index + delta * Z.of_nat k) = Some r'
     /\ enabled w r' = false) ->
  at_index (menuItems (menu w)) (index + delta * Z.of_nat steps) = Some r ->
  enabled w r = true ->
  highlightLoop fuel index delta w = setHighlighted (Some r) w.
Proof.
  induction steps as [| steps IH]; intros fuel index w r Hfuel Hskip Hat Hen.
  - destruct fuel as [| fuel]; [lia |].
    rewrite highlightLoop_S.
    replace (index + delta * Z.of_nat 0)%Z with index in Hat by lia.
    now rewrite Hat, Hen.
  - destruct fuel as [| fuel]; [lia |].
    rewrite highlightLoop_S.
    destruct (Hskip 0) as [r0 [Hat0 Hen0]]; [lia |].
    replace (index + delta * Z.of_nat 0)%Z with index in Hat0 by lia.
    rewrite Hat0, Hen0.
    apply IH; [lia | | | exact Hen].
    + intros k Hk. destruct (Hskip (S k)) as [r' [Ha He]]; [lia |].
      exists r'. split; [| exact He].
      replace (index + delta + delta * Z.of_nat k)%Z
        with (index + delta * Z.of_nat (S k))%Z by lia.
      exact Ha.
    + replace (index + delta + delta * Z.of_nat steps)%Z
        with (index + delta * Z.of_nat (S steps))%Z by lia.
      exact Hat.
Qed.

(** The loop passes over [steps] disabled items and leaves the array: the
    world is as it was. *)
Lemma highlightLoop_boundary delta steps : forall fuel index w,
  steps < fuel ->
  (forall k, k < steps -> exists r',
     at_index (menuItems (menu w)) (index + delta * Z.of_nat k) = Some r'
     /\ enabled w r' = false) ->
  at_index (menuItems (menu w)) (index + delta * Z.of_nat steps) = None ->
  highlightLoop fuel index delta w = (w, Ret tt).
Proof.
  induction steps as [| steps IH]; intros fuel index w Hfuel Hskip Hat.
  - destruct fuel as [| fuel]; [lia |].
    rewrite highlightLoop_S.
    replace (index + delta * Z.of_nat 0)%Z with index in Hat by lia.
    now rewrite Hat.
  - destruct fuel as [| fuel]; [lia |].
    rewrite highlightLoop_S.
    destruct (Hskip 0) as [r0 [Hat0 Hen0]]; [lia |].
    replace (index + delta * Z.of_nat 0)%Z with index in Hat0 by lia.
    rewrite Hat0, Hen0.
    apply IH; [lia | |].
    + intros k Hk. destruct (Hskip (S k)) as [r' [Ha He]]; [lia |].
      exists r'. split; [| exact He].
      replace (index + delta + delta * Z.of_nat k)%Z
        with (index + delta * Z.of_nat (S k))%Z by lia.
      exact Ha.
    + replace (index + delta + delta * Z.of_nat steps)%Z
        with (index + delta * Z.of_nat (S steps))%Z by lia.
      exact Hat.
Qed.

Lemma previousStart_range w :
  (0 <= previousStart w <= Z.of_nat (List.length (menuItems (menu w))))%Z.
Proof.
  unfold previousStart. pose proof (currentIndex_range w).
  destruct (Z.ltb_spec (currentIndex w) 0); lia.
Qed.

(** Walking up from [start]: the items after [start] up to [j] are disabled
    and [j] holds an enabled item. *)
Lemma walk_up_found fuel start j r w :
  (-1 <= start)%Z -> List.length (menuItems (menu w)) < fuel ->
  (start < j)%Z ->
  at_index (menuItems (menu w)) j = Some r -> enabled w r = true ->
  (forall k r', (start < k < j)%Z ->
     at_index (menuItems (menu w)) k = Some r' -> enabled w r' = false) ->
  highlightHelper fuel start 1 w = setHighlighted (Some r) w.
Proof.
  intros Hs Hfuel Hj Hat Hen Hbetween. unfold highlightHelper.
  pose proof (at_index_Some _ _ _ Hat) as Hr.
  apply (highlightLoop_found 1 (Z.to_nat (j - (start + 1)))); [lia | | | exact Hen].
  - intros k Hk.
    destruct (at_index_in_range (menuItems (menu w)) (start + 1 + 1 * Z.of_nat k))
      as [r' Hr']; [lia |].
    exists r'. split; [exact Hr' |].
    apply (Hbetween (start + 1 + 1 * Z.of_nat k)%Z); [lia | exact Hr'].
  - replace (start + 1 + 1 * Z.of_nat (Z.to_nat (j - (start + 1))))%Z with j by lia.
    exact Hat.
Qed.

Lemma walk_up_boundary fuel start w :
  (-1 <= start < Z.of_nat (List.length (menuItems (menu w))))%Z ->
  List.length (menuItems (menu w)) < fuel ->
  (forall j r, (start < j)%Z ->
     at_index (menuItems (menu w)) j = Some r -> enabled w r = false) ->
  highlightHelper fuel start 1 w = (w, Ret tt).
Proof.
  intros Hs Hfuel Hall. unfold highlightHelper.
  set (len := Z.of_nat (List.length (menuItems (menu w)))) in *.
  apply (highlightLoop_boundary 1 (Z.to_nat (len - (start + 1)))); [lia | |].
  - intros k Hk.
    destruct (at_index_in_range (menuItems (menu w)) (start + 1 + 1 * Z.of_nat k))
      as [r' Hr']; [fold len; lia |].
    exists r'. split; [exact Hr' |].
    apply (Hall (start + 1 + 1 * Z.of_nat k)%Z); [lia | exact Hr'].
  - apply at_index_outside. fold len. lia.
Qed.

Lemma walk_down_found fuel start j r w :
  (start <= Z.of_nat (List.length (menuItems (menu w))))%Z ->
  List.length (menuItems (menu w)) < fuel ->
  (j < start)%Z ->
  at_index (menuItems (menu w)) j = Some r -> enabled w r = true ->
  (forall k r', (j < k < start)%Z ->
     at_index (menuItems (menu w)) k = Some r' -> enabled w r' = false) ->
  highlightHelper fuel start (-1) w = setHighlighted (Some r) w.
Proof.
  intros Hs Hfuel Hj Hat Hen Hbetween. unfold highlightHelper.
  pose proof (at_index_Some _ _ _ Hat) as Hr.
  apply (highlightLoop_found (-1) (Z.to_nat (start - 1 - j))); [lia | | | exact Hen].
  - intros k Hk.
    destruct (at_index_in_range (menuItems (menu w)) (start + -1 + -1 * Z.of_nat k))
      as [r' Hr']; [lia |].
    exists r'. split; [exact Hr' |].
    apply (Hbetween (start + -1 + -1 * Z.of_nat k)%Z); [lia | exact Hr'].
  - replace (start + -1 + -1 * Z.of_nat (Z.to_nat (start - 1 - j)))%Z with j by lia.
    exact Hat.
Qed.

Lemma walk_down_boundary fuel start w :
  (0 <= start <= Z.of_nat (List.length (menuItems (menu w))))%Z ->
  List.length (menuItems (menu w)) < fuel ->
  (forall j r, (j < start)%Z ->
     at_index (menuItems (menu w)) j = Some r -> enabled w r = false) ->
  highlightHelper fuel start (-1) w = (w, Ret tt).
Proof.
  intros Hs Hfuel Hall. unfold highlightHelper.
  apply (highlightLoop_boundary (-1) (Z.to_nat start)); [lia | |].
  - intros k Hk.
    destruct (at_index_in_range (menuItems (menu w)) (start + -1 + -1 * Z.of_nat k))
      as [r' Hr']; [lia |].
    exists r'. split; [exact Hr' |].
    apply (Hall (start + -1 + -1 * Z.of_nat k)%Z); [lia | exact Hr'].
  - apply at_index_outside. lia.
Qed.

Lemma enough_fuel w :
  List.length (menuItems (menu w)) < enough w.
Proof. unfold enough. lia. Qed.

End MenuFacts.

(** ** Menu and MenuItem: what the specification states *)

Section MenuStatements.
Import Menu MenuFacts.

(** C1.  From a Menu in which nothing is highlighted yet, after any sequence
    of [setHighlighted], [highlightNext], [highlightPrevious],
    [highlightFirst], [highlightLast] and pointer-over events (calls that
    throw included), a MenuItem's flag is set exactly when the item is the
    Menu's [highlightedItem], so at most one flag is set; and
    [setHighlighted (A)] followed by [setHighlighted (B)] leaves B as the one
    highlighted item, with A's flag false when A is another item. *)
Theorem highlight_at_most_one (ops : list Op) (w : World) :
  fresh w ->
  let w' := run ops w in
  (forall r, flag w' r = true <-> highlightedItem (menu w') = Some r)
  /\ (forall r1 r2, flag w' r1 = true -> flag w' r2 = true -> r1 = r2)
  /\ (forall A B,
        let w2 := run [OpSetHighlighted (Some A); OpSetHighlighted (Some B)] w' in
        highlightedItem (menu w2) = Some B
        /\ (forall r, flag w2 r = true <-> r = B)
        /\ (A <> B -> flag w2 A = false)).
Proof.
  intros Hfresh w'.
  assert (Hc : consistent w')
    by (apply run_consistent, fresh_consistent, Hfresh).
  split; [exact Hc |].
  split; [intros r1 r2; now apply consistent_at_most_one |].
  intros A B w2.
  assert (Hc2 : consistent w2) by (now apply run_consistent).
  assert (HB : highlightedItem (menu w2) = Some B).
  { unfold w2. simpl. now rewrite setHighlighted_menu. }
  split; [exact HB |].
  split.
  - intros r. rewrite (Hc2 r), HB. split; congruence.
  - intros Hne. destruct (flag w2 A) eqn:E; [| reflexivity].
    apply Hc2 in E. congruence.
Qed.

Lemma sample_menu_fresh : fresh Sample.menu3.
Proof.
  split; [reflexivity |].
  intros r. unfold flag. simpl.
  do 3 (destruct r as [| r]; [reflexivity |]). reflexivity.
Qed.

Lemma highlight_at_most_one_witness :
  fresh Sample.menu3
  /\ flag (run [OpHighlightNext; OpSetHighlighted (Some 1); OpHighlightLast]
             Sample.menu3) 2 = true
  /\ flag (run [OpHighlightNext; OpSetHighlighted (Some 1); OpHighlightLast]
             Sample.menu3) 1 = false.
Proof.
  split; [exact sample_menu_fresh |].
  destruct (highlight_at_most_one
              [OpHighlightNext; OpSetHighlighted (Some 1); OpHighlightLast]
              Sample.menu3 sample_menu_fresh) as [Hiff _].
  split.
  - apply Hiff. vm_compute. reflexivity.
  - destruct (flag _ 1) eqn:E; [| reflexivity].
    apply Hiff in E. vm_compute in E. discriminate.
Defined.

(** C4.  [highlightNext] highlights the first enabled item after the
    highlighted one and [highlightPrevious] the last enabled item before it,
    in the order of the array, passing over disabled items; when no enabled
    item is left in that direction the world stays as it is (no wraparound).
    With nothing highlighted, [highlightNext] looks at every item from the
    first on and [highlightPrevious] at every item from the last back.  The
    walk never runs out of the fuel the model gives it. *)
Theorem highlight_moves_to_enabled_neighbour (w : World) :
  let l := menuItems (menu w) in
  let here := currentIndex w in
  (forall j r,
     (here < j)%Z -> at_index l j = Some r -> enabled w r = true ->
     (forall k r', (here < k < j)%Z -> at_index l k = Some r' -> enabled w r' = false) ->
     highlightNext w = setHighlighted (Some r) w
     /\ highlightedItem (menu (exec highlightNext w)) = Some r)
  /\ ((forall j r, (here < j)%Z -> at_index l j = Some r -> enabled w r = false) ->
      highlightNext w = (w, Ret tt))
  /\ (forall j r,
        (j < previousStart w)%Z -> at_index l j = Some r -> enabled w r = true ->
        (forall k r', (j < k < previousStart w)%Z ->
           at_index l k = Some r' -> enabled w r' = false) ->
        highlightPrevious w = setHighlighted (Some r) w
        /\ highlightedItem (menu (exec highlightPrevious w)) = Some r)
  /\ ((forall j r, (j < previousStart w)%Z -> at_index l j = Some r ->
         enabled w r = false) ->
      highlightPrevious w = (w, Ret tt))
  /\ (forall h, highlightedItem (menu w) = Some h -> In h l ->
        at_index l here = Some h /\ previousStart w = here)
  /\ (highlightedItem (menu w) = None ->
        here = (-1)%Z /\ previousStart w = Z.of_nat (List.length l)
        /\ highlightNext w = highlightFirst w
        /\ highlightPrevious w = highlightLast w).
Proof.
  intros l here. subst l here.
  pose proof (currentIndex_range w) as Hrange.
  pose proof (previousStart_range w) as Hprev.
  pose proof (enough_fuel w) as Hfuel.
  repeat split.
  - unfold highlightNext. eapply walk_up_found; eauto. lia.
  - unfold exec. unfold highlightNext at 1.
    erewrite walk_up_found; eauto; [| lia].
    fold (exec (setHighlighted (Some r)) w). now rewrite setHighlighted_menu.
  - intros Hall. unfold highlightNext. apply walk_up_boundary; auto.
  - unfold highlightPrevious. fold (previousStart w).
    eapply walk_down_found; eauto. lia.
  - unfold exec. unfold highlightPrevious at 1. fold (previousStart w).
    erewrite walk_down_found; eauto; [| lia].
    fold (exec (setHighlighted (Some r)) w). now rewrite setHighlighted_menu.
  - intros Hall. unfold highlightPrevious. fold (previousStart w).
    apply walk_down_boundary; auto.
  - unfold currentIndex. rewrite H. now apply indexOf_In.
  - pose proof (indexOf_In _ h H0) as Hh. apply at_index_Some in Hh.
    unfold previousStart, currentIndex. rewrite H.
    destruct (Z.ltb_spec (indexOf (menuItems (menu w)) h) 0); [lia | reflexivity].
  - unfold currentIndex. now rewrite H.
  - unfold previousStart, currentIndex. now rewrite H.
  - unfold highlightNext, highlightFirst, currentIndex. now rewrite H.
  - unfold highlightPrevious, highlightLast, currentIndex. now rewrite H.
Qed.

Lemma highlight_moves_to_enabled_neighbour_witness :
  highlightedItem (menu (exec highlightNext (run [OpHighlightNext] Sample.menu3)))
  = Some 2
  /\ highlightNext (run [OpHighlightLast] Sample.menu3)
     = (run [OpHighlightLast] Sample.menu3, Ret tt).
Proof.
  destruct (highlight_moves_to_enabled_neighbour (run [OpHighlightNext] Sample.menu3))
    as [Hnext _].
  destruct (highlight_moves_to_enabled_neighbour (run [OpHighlightLast] Sample.menu3))
    as [_ [Hstay _]].
  split.
  - apply (Hnext 2%Z 2).
    + vm_compute. reflexivity.
    + reflexivity.
    + reflexivity.
    + intros k r' [Hlo Hhi] Hat.
      change (currentIndex (run [OpHighlightNext] Sample.menu3)) with 0%Z in Hlo.
      assert (k = 1%Z) as -> by lia.
      vm_compute in Hat. injection Hat as <-. reflexivity.
  - apply Hstay. intros j r Hj Hat.
    apply at_index_Some in Hat.
    change (currentIndex (run [OpHighlightLast] Sample.menu3)) with 2%Z in Hj.
    change (menuItems (menu (run [OpHighlightLast] Sample.menu3))) with [0; 1; 2] in Hat.
    simpl in Hat. lia.
Defined.

Lemma getMenuItem_cleared w child :
  getMenuItem (set_menu (with_openingCoords None) w) child = getMenuItem w child.
Proof.
  induction child as [| current parents IH]; [reflexivity |].
  simpl. unfold ownerOf. simpl. now rewrite IH.
Qed.

Lemma below_one_true q : below_one q = true <-> (q < 1)%Q.
Proof.
  unfold below_one. rewrite negb_true_iff.
  destruct (Qle_bool 1 q) eqn:E.
  - apply Qle_bool_iff in E. split; [discriminate |].
    intros Hlt. exfalso. now apply (Qlt_not_le q 1).
  - split; [| reflexivity]. intros _.
    apply Qnot_le_lt. intros Hle. apply Qle_bool_iff in Hle. congruence.
Qed.

Lemma performAction_log r s :
  exists rest,
    MenuItem.log (exec (MenuItem.performAction r) s)
    = (MenuItem.log s ++ CallPerformAction r :: rest)%list
    /\ snd (MenuItem.performAction r s) = Ret tt.
Proof.
  unfold exec, MenuItem.performAction, MenuItem.isEnabled, bind, gets, modify, ret.
  simpl. destruct (MenuItem.enabled (MenuItem.items s r)); simpl.
  - destruct (MenuItem.actionHandler (MenuItem.items s r)) as [h |]; simpl.
    + exists [CallActionHandler h r]. now rewrite <- app_assoc.
    + exists []. split; reflexivity.
  - exists []. split; reflexivity.
Qed.

(** C3.  A pointer-down that comes with recorded opening coordinates and lies
    less than one pixel from them calls [performAction] on no item; any
    other pointer-down calls [performAction] on the MenuItem its target
    resolves to (on none when it resolves to none); either way
    [openingCoords] is null when the handler returns, and nothing else of
    the Menu has changed.  [distance] stands for [Coordinate.distance]. *)
Theorem handleClick_consumes_opening_coords
  (distance : Coordinate -> Coordinate -> Q) (event : PointerEvent) (w : World) :
  let w' := exec (handleClick distance event) w in
  let cleared := set_menu (with_openingCoords None) w in
  let log := fun v => MenuItem.log (store v) in
  openingCoords (menu w') = None
  /\ snd (handleClick distance event w) = Ret tt
  /\ (forall oc cx,
        openingCoords (menu w) = Some oc -> clientX event = Some cx ->
        (distance oc (mkCoordinate cx (clientY event)) < 1)%Q ->
        w' = cleared /\ log w' = log w)
  /\ (openingCoords (menu w) = None
      \/ clientX event = None
      \/ (exists oc cx,
            openingCoords (menu w) = Some oc /\ clientX event = Some cx
            /\ (1 <= distance oc (mkCoordinate cx (clientY event)))%Q) ->
      match getMenuItem w (target event) with
      | Some r =>
          handleClick distance event w = item (MenuItem.performAction r) cleared
          /\ exists rest, log w' = (log w ++ CallPerformAction r :: rest)%list
      | None => w' = cleared /\ log w' = log w
      end).
Proof.
  intros w' cleared log.
  assert (Heq : handleClick distance event w
    = if match openingCoords (menu w), clientX event with
         | Some oc, Some cx => below_one (distance oc (mkCoordinate cx (clientY event)))
         | _, _ => false
         end
      then (cleared, Ret tt)
      else match getMenuItem w (target event) with
           | Some r => item (MenuItem.performAction r) cleared
           | None => (cleared, Ret tt)
           end).
  { unfold handleClick, bind, gets, modify, ret. cbv beta.
    fold cleared.
    destruct (match openingCoords (menu w), clientX event with
              | Some oc, Some cx => _ | _, _ => _ end); [reflexivity |].
    unfold cleared. rewrite getMenuItem_cleared.
    destruct (getMenuItem w (target event)); reflexivity. }
  assert (Hitem : forall r,
    menu (exec (item (MenuItem.performAction r)) cleared) = menu cleared
    /\ snd (item (MenuItem.performAction r) cleared) = Ret tt
    /\ exists rest,
         log (exec (item (MenuItem.performAction r)) cleared)
         = (log w ++ CallPerformAction r :: rest)%list).
  { intros r. destruct (performAction_log r (store cleared)) as [rest [Hl Hr]].
    unfold exec, item, lift, set_store, log in *.
    destruct (MenuItem.performAction r (store cleared)) as [s' o]; simpl in *.
    repeat split; [exact Hr |]. exists rest. exact Hl. }
  unfold w' in *. unfold exec in *. rewrite Heq.
  repeat split.
  - destruct (match openingCoords (menu w), clientX event with
              | Some oc, Some cx => _ | _, _ => _ end); [reflexivity |].
    destruct (getMenuItem w (target event)) as [r |]; [| reflexivity].
    destruct (Hitem r) as [Hm _]. unfold exec in Hm. now rewrite Hm.
  - destruct (match openingCoords (menu w), clientX event with
              | Some oc, Some cx => _ | _, _ => _ end); [reflexivity |].
    destruct (getMenuItem w (target event)) as [r |]; [| reflexivity].
    now destruct (Hitem r) as [_ [Hr _]].
  - rewrite H, H0. apply below_one_true in H1. now rewrite H1.
  - rewrite H, H0. apply below_one_true in H1. now rewrite H1.
  - intros Hother.
    assert (Hfalse : match openingCoords (menu w), clientX event with
              | Some oc, Some cx =>
                  below_one (distance oc (mkCoordinate cx (clientY event)))
              | _, _ => false end = false).
    { destruct Hother as [Hn | [Hn | [oc [cx [Ho [Hc Hd]]]]]].
      - now rewrite Hn.
      - rewrite Hn. now destruct (openingCoords (menu w)).
      - rewrite Ho, Hc. destruct (below_one _) eqn:E; [| reflexivity].
        apply below_one_true in E. exfalso. now apply (Qlt_not_le _ _ E). }
    rewrite Hfalse.
    destruct (getMenuItem w (target event)) as [r |].
    + split; [reflexivity |]. now destruct (Hitem r) as [_ [_ Hl]].
    + split; reflexivity.
Qed.

Lemma handleClick_consumes_opening_coords_witness :
  MenuItem.log (store (exec (handleClick Sample.axis_distance Sample.click_near)
                         Sample.menu3_opened))
  = MenuItem.log (store Sample.menu3_opened)
  /\ (exists rest,
        MenuItem.log (store (exec (handleClick Sample.axis_distance Sample.click_far)
                               Sample.menu3_opened))
        = (MenuItem.log (store Sample.menu3_opened) ++ CallPerformAction 2 :: rest)%list).
Proof.
  destruct (handleClick_consumes_opening_coords
              Sample.axis_distance Sample.click_near Sample.menu3_opened)
    as [_ [_ [Hnear _]]].
  destruct (handleClick_consumes_opening_coords
              Sample.axis_distance Sample.click_far Sample.menu3_opened)
    as [_ [_ [_ Hfar]]].
  split.
  - apply (Hnear (mkCoordinate (10 # 1) (20 # 1)) (21 # 2));
      [reflexivity | reflexivity | vm_compute; reflexivity].
  - change (getMenuItem Sample.menu3_opened (target Sample.click_far))
      with (Some 2) in Hfar.
    apply Hfar. right. right.
    exists (mkCoordinate (10 # 1) (20 # 1)), (13 # 1).
    repeat split; vm_compute; discriminate.
Defined.

(** C7.  A key event with shift, ctrl, meta or alt held, and any key event on
    a Menu without items, leaves the world as it is: the highlight is not
    moved and neither [stopPropagation] nor [preventDefault] is called.  The
    same holds for a key that is none of the eight the handler knows. *)
Theorem handleKeyEvent_ignores
  (ENTER SPACE UP DOWN PAGE_UP HOME PAGE_DOWN END_ : Z)
  (event : KeyboardEvent) (w : World) :
  let handle := handleKeyEvent ENTER SPACE UP DOWN PAGE_UP HOME PAGE_DOWN END_ in
  (isEmpty w = true \/ shiftKey event = true \/ ctrlKey event = true
   \/ metaKey event = true \/ altKey event = true ->
   handle event w = (w, Ret tt)
   /\ highlightedItem (menu (exec (handle event) w)) = highlightedItem (menu w)
   /\ (forall r, flag (exec (handle event) w) r = flag w r)
   /\ MenuItem.log (store (exec (handle event) w)) = MenuItem.log (store w))
  /\ (~ In (keyCode event) [ENTER; SPACE; UP; DOWN; PAGE_UP; HOME; PAGE_DOWN; END_] ->
      handle event w = (w, Ret tt)).
Proof.
  intros handle.
  assert (Hignored :
    isEmpty w = true \/ shiftKey event = true \/ ctrlKey event = true
    \/ metaKey event = true \/ altKey event = true ->
    handle event w = (w, Ret tt)).
  { intros H. unfold handle, handleKeyEvent. unfold bind at 1. unfold gets at 1.
    cbv beta.
    destruct (isEmpty w); [reflexivity |].
    destruct (shiftKey event); [reflexivity |].
    destruct (ctrlKey event); [reflexivity |].
    destruct (metaKey event); [reflexivity |].
    destruct (altKey event); [reflexivity |].
    destruct H as [H | [H | [H | [H | H]]]]; discriminate. }
  split.
  - intros H. unfold exec. rewrite (Hignored H). repeat split.
  - intros Hnot. unfold handle, handleKeyEvent. unfold bind at 1. unfold gets at 1.
    cbv beta.
    destruct (isEmpty w); [reflexivity |].
    destruct (shiftKey event); [reflexivity |].
    destruct (ctrlKey event); [reflexivity |].
    destruct (metaKey event); [reflexivity |].
    destruct (altKey event); [reflexivity |].
    cbv zeta.
    repeat match goal with
    | |- context [Z.eqb (keyCode event) ?k] =>
        destruct (Z.eqb_spec (keyCode event) k) as [Heq | Hne];
          [exfalso; apply Hnot; rewrite Heq; simpl; tauto | clear Hne]
    end.
    reflexivity.
Qed.

Lemma handleKeyEvent_ignores_witness :
  handleKeyEvent 13 32 38 40 33 36 34 35 (Sample.key 40 true) Sample.menu3
  = (Sample.menu3, Ret tt)
  /\ handleKeyEvent 13 32 38 40 33 36 34 35 (Sample.key 40 false) Sample.menu0
     = (Sample.menu0, Ret tt)
  /\ handleKeyEvent 13 32 38 40 33 36 34 35 (Sample.key 65 false) Sample.menu3
     = (Sample.menu3, Ret tt).
Proof.
  destruct (handleKeyEvent_ignores 13 32 38 40 33 36 34 35
              (Sample.key 40 true) Sample.menu3) as [Hshift _].
  destruct (handleKeyEvent_ignores 13 32 38 40 33 36 34 35
              (Sample.key 40 false) Sample.menu0) as [Hempty _].
  destruct (handleKeyEvent_ignores 13 32 38 40 33 36 34 35
              (Sample.key 65 false) Sample.menu3) as [_ Hother].
  split; [| split].
  - apply Hshift. right. left. reflexivity.
  - apply Hempty. left. reflexivity.
  - apply Hother. simpl. intros H.
    repeat destruct H as [H | H]; try discriminate H. exact H.
Defined.

(** C6, as the code has it.  [MenuItem.setHighlighted (b)] always returns
    and always stores [b] in the item's flag, and touches no other item and
    no other field.  On a disabled item the class lists of all elements stay
    as they are; on an enabled item with an element the class
    [blocklyMenuItemHighlight] is on the element afterwards exactly when [b]
    is true, and every other class and element is as before. *)
Theorem setHighlighted_flag_and_class (this : ItemRef) (b : bool) (s : MenuItem.World) :
  let s' := exec (MenuItem.setHighlighted this b) s in
  let it := MenuItem.items s this in
  snd (MenuItem.setHighlighted this b s) = Ret tt
  /\ MenuItem.items s' this = MenuItem.with_highlight b it
  /\ (forall r, r <> this -> MenuItem.items s' r = MenuItem.items s r)
  /\ MenuItem.log s' = MenuItem.log s
  /\ (MenuItem.enabled it = false -> MenuItem.classList s' = MenuItem.classList s)
  /\ (MenuItem.element it = None -> MenuItem.classList s' = MenuItem.classList s)
  /\ (forall e,
        MenuItem.enabled it = true -> MenuItem.element it = Some e ->
        contains (MenuItem.classList s' e) "blocklyMenuItemHighlight" = b
        /\ (forall other, other <> "blocklyMenuItemHighlight" ->
              contains (MenuItem.classList s' e) other
              = contains (MenuItem.classList s e) other)
        /\ (forall e', e' <> e -> MenuItem.classList s' e' = MenuItem.classList s e')).
Proof.
  intros s' it. unfold s', exec. rewrite MenuItemFacts.setHighlighted_eq. simpl.
  split; [reflexivity |].
  split; [rewrite MenuItemFacts.highlighted_world_items; apply upd_same |].
  split; [intros r Hr; rewrite MenuItemFacts.highlighted_world_items;
          now apply upd_other |].
  split; [apply MenuItemFacts.highlighted_world_log |].
  unfold MenuItem.highlighted_world. fold it.
  split; [intros Hd; destruct (MenuItem.element it); [rewrite Hd |]; reflexivity |].
  split; [intros Hn; rewrite Hn; reflexivity |].
  intros e Hen He. rewrite He, Hen. simpl.
  destruct b; simpl; rewrite ?upd_same.
  - split; [apply contains_addClass |].
    split; [intros other Ho; now apply contains_addClass_other |].
    intros e' Hne. now apply upd_other.
  - split; [apply contains_removeClass |].
    split; [intros other Ho; now apply contains_removeClass_other |].
    intros e' Hne. now apply upd_other.
Qed.

Lemma setHighlighted_flag_and_class_witness :
  MenuItem.classList (exec (MenuItem.setHighlighted 1 true) Sample.store3)
  = MenuItem.classList Sample.store3
  /\ contains (MenuItem.classList (exec (MenuItem.setHighlighted 0 true) Sample.store3) 1)
       "blocklyMenuItemHighlight" = true.
Proof.
  destruct (setHighlighted_flag_and_class 1 true Sample.store3)
    as [_ [_ [_ [_ [Hdisabled _]]]]].
  destruct (setHighlighted_flag_and_class 0 true Sample.store3)
    as [_ [_ [_ [_ [_ [_ Henabled]]]]]].
  split.
  - apply Hdisabled. reflexivity.
  - apply (Henabled 1); reflexivity.
Defined.

(** C6, as the specification has it, fails: on a disabled item whose flag is false,
    [setHighlighted (true)] sets the flag, and a later [createDom] shows it
    as the highlight class. *)
Lemma setHighlighted_disabled_is_not_a_noop :
  MenuItem.enabled (MenuItem.items Sample.store3 1) = false
  /\ MenuItem.highlight (MenuItem.items Sample.store3 1) = false
  /\ MenuItem.highlight
       (MenuItem.items (exec (MenuItem.setHighlighted 1 true) Sample.store3) 1) = true
  /\ contains
       (MenuItem.classList
          (exec (MenuItem.createDom 1 "again") Sample.store3) 4)
       "blocklyMenuItemHighlight" = false
  /\ contains
       (MenuItem.classList
          (exec (MenuItem.createDom 1 "again")
             (exec (MenuItem.setHighlighted 1 true) Sample.store3)) 4)
       "blocklyMenuItemHighlight" = true.
Proof. repeat split. Qed.

End MenuStatements.

(** ** MarkerManager: the order of the nodes on the block canvas *)

Module MarkerFacts.
Import MarkerManager.

Lemma without_absent node (children : list Node) :
  node ∉ children -> without node children = children.
Proof.
  unfold without. induction children as [| c rest IH]; intros Hn; [reflexivity |].
  apply not_elem_of_cons in Hn as [Hne Hn].
  rewrite filter_cons. destruct (decide (c ≠ node)) as [_ | Heq].
  - now rewrite IH.
  - exfalso. apply Heq. congruence.
Qed.

Lemma appendChild_new node (children : list Node) :
  node ∉ children -> appendChild node children = children ++ [node].
Proof. intros Hn. unfold appendChild. now rewrite without_absent. Qed.

Lemma insert_before_last node ref (pre : list Node) :
  ref ∉ pre -> insert_before node ref (pre ++ [ref]) = pre ++ [node; ref].
Proof.
  induction pre as [| c rest IH]; intros Hn; simpl.
  - now rewrite Nat.eqb_refl.
  - apply not_elem_of_cons in Hn as [Hne Hn].
    destruct (Nat.eqb_spec c ref) as [-> | _]; [contradiction |].
    now rewrite IH.
Qed.

Lemma is_child_spec ref (children : list Node) :
  existsb (Nat.eqb ref) children = true <-> ref ∈ children.
Proof.
  rewrite existsb_exists. split.
  - intros [x [Hin Heq]]. apply Nat.eqb_eq in Heq. subst.
    now apply list_elem_of_In.
  - intros Hin. exists ref. split; [now apply list_elem_of_In | apply Nat.eqb_refl].
Qed.

(** [insertBefore] of a new node before the last child. *)
Lemma insertBefore_last node ref (pre : list Node) :
  NoDup (pre ++ [ref]) -> node ∉ pre ++ [ref] ->
  insertBefore node ref (pre ++ [ref]) = inr (pre ++ [node; ref]).
Proof.
  intros Hnd Hnew. unfold insertBefore.
  assert (Hchild : existsb (Nat.eqb ref) (pre ++ [ref]) = true).
  { apply is_child_spec. apply elem_of_app. right. now apply list_elem_of_singleton. }
  rewrite Hchild. simpl.
  destruct (Nat.eqb_spec node ref) as [-> | Hne].
  - exfalso. apply Hnew. apply elem_of_app. right. now apply list_elem_of_singleton.
  - rewrite without_absent by exact Hnew.
    rewrite insert_before_last; [reflexivity |].
    apply NoDup_app in Hnd as [_ [Hdisj _]].
    intros Hin. apply (Hdisj ref Hin). now apply list_elem_of_singleton.
Qed.

Lemma registerMarker_eq id marker w :
  registerMarker id marker w
  = let w4 := drawn id marker w in
    let d := nextDrawer w in
    let registered children :=
      (with_markers (<[id := marker]> (markers w4)) (with_blockCanvas children w4),
       Ret tt) in
    match blockCanvas w with
    | None => registered None
    | Some children =>
        match cursorSvg_ w with
        | Some c =>
            match insertBefore d c children with
            | inl e => (w4, Throw e)
            | inr children' => registered (Some children')
            end
        | None => registered (Some (appendChild d children))
        end
    end.
Proof.
  unfold registerMarker, drawn, unregisterMarker, makeMarkerDrawer, setDrawer,
    getDrawer, createDom, setMarkerSvg, call, bind, gets, modify, ret, throw,
    with_markers, with_blockCanvas, with_drawerOf.
  destruct w as [cur msvg csvg mk canvas dof next cl]; simpl.
  destruct (mk !! id) as [old |] eqn:E; simpl.
  - rewrite E. simpl. rewrite upd_same. simpl.
    rewrite <- !app_assoc. simpl.
    destruct canvas as [children |]; simpl; [| reflexivity].
    destruct csvg as [c |]; simpl; [| reflexivity].
    destruct (insertBefore next c children); reflexivity.
  - rewrite upd_same. simpl. rewrite app_nil_r. rewrite <- ?app_assoc. simpl.
    destruct canvas as [children |]; simpl; [| reflexivity].
    destruct csvg as [c |]; simpl; [| reflexivity].
    destruct (insertBefore next c children); reflexivity.
Qed.

Lemma setCursor_eq cursor w :
  setCursor (Some cursor) w
  = let d := nextDrawer w in
    ({| cursor_ := Some cursor; markerSvg_ := markerSvg_ w; cursorSvg_ := Some d;
        markers := markers w;
        blockCanvas := appendChild d <$> blockCanvas w;
        drawerOf := upd (drawerOf w) cursor (Some d);
        nextDrawer := S d;
        calls := (calls w
                  ++ match cursor_ w with
                     | Some old =>
                         match drawerOf w old with
                         | Some od => [DrawerDispose od]
                         | None => []
                         end
                     | None => []
                     end)
                 ++ [MakeMarkerDrawer cursor d; CreateDom d d] |}, Ret tt).
Proof.
  unfold setCursor, makeMarkerDrawer, setDrawer, getDrawer, createDom,
    setCursorSvg, call, bind, gets, modify, ret, throw,
    with_cursor_, with_cursorSvg_, with_blockCanvas, with_drawerOf.
  destruct w as [cur msvg csvg mk canvas dof next cl]; simpl.
  destruct cur as [old |]; simpl.
  - destruct (dof old) as [od |]; simpl; rewrite upd_same; simpl;
      rewrite ?app_nil_r, <- ?app_assoc; reflexivity.
  - rewrite upd_same. simpl. rewrite ?app_nil_r, <- ?app_assoc. reflexivity.
Qed.

Lemma new_tidy canvas : NoDup (default [] canvas) -> tidy (new canvas).
Proof.
  intros Hnd. unfold tidy, new. simpl.
  destruct canvas as [children |]; [| exact I]. simpl in *.
  split; [exact Hnd |]. split; [| discriminate].
  intros n Hn.
  assert (Hle : list_max children <= list_max children) by lia.
  apply list_max_le in Hle. rewrite List.Forall_forall in Hle.
  apply list_elem_of_In in Hn. specialize (Hle n Hn). lia.
Qed.

(** What [registerMarker] does to a tidy world. *)
Lemma registerMarker_tidy id marker w :
  tidy w ->
  let d := nextDrawer w in
  let w' := exec (registerMarker id marker) w in
  snd (registerMarker id marker w) = Ret tt
  /\ tidy w'
  /\ cursorSvg_ w' = cursorSvg_ w
  /\ markers w' = <[id := marker]> (markers w)
  /\ (exists before,
        calls w' = before ++ [MakeMarkerDrawer marker d; CreateDom d d])
  /\ match blockCanvas w with
     | None => blockCanvas w' = None
     | Some children =>
         match cursorSvg_ w with
         | Some c =>
             exists pre,
               children = pre ++ [c] /\ blockCanvas w' = Some (pre ++ [d; c])
         | None => blockCanvas w' = Some (children ++ [d])
         end
     end.
Proof.
  intros Ht d w'. unfold w', exec. rewrite registerMarker_eq. cbv zeta.
  fold d. unfold tidy in Ht.
  assert (Hmarkers : <[id := marker]> (markers (drawn id marker w))
                     = <[id := marker]> (markers w)).
  { unfold drawn. simpl. destruct (markers w !! id) eqn:E; [| reflexivity].
    apply insert_delete_eq. }
  assert (Hcalls : exists before,
    calls (drawn id marker w) = before ++ [MakeMarkerDrawer marker d; CreateDom d d]).
  { unfold drawn. simpl. eexists. reflexivity. }
  destruct (blockCanvas w) as [children |] eqn:Ec.
  - destruct Ht as [Hnd [Hold Hlast]].
    assert (Hnew : d ∉ children).
    { intros Hin. apply Hold in Hin. unfold d in Hin. lia. }
    destruct (cursorSvg_ w) as [c |] eqn:Ecs.
    + destruct (Hlast c eq_refl) as [pre Hpre]. subst children.
      rewrite insertBefore_last by assumption. simpl.
      split; [reflexivity |]. split; [| split; [exact Ecs |]].
      * unfold tidy. simpl. rewrite Ecs.
        split; [| split].
        -- apply NoDup_app in Hnd as [Hpre [Hdisj _]].
           apply NoDup_app. split; [exact Hpre |]. split.
           ++ intros x Hx Hin. apply elem_of_cons in Hin as [-> | Hin].
              ** apply Hnew. apply elem_of_app. now left.
              ** apply (Hdisj x Hx Hin).
           ++ apply NoDup_cons. split; [| apply NoDup_singleton].
              intros Hin. apply list_elem_of_singleton in Hin. subst c.
              apply Hnew. apply elem_of_app. right.
              now apply list_elem_of_singleton.
        -- intros n Hn. apply elem_of_app in Hn as [Hn | Hn].
           ++ assert (n < d); [| unfold d in *; lia].
              apply Hold. apply elem_of_app. now left.
           ++ apply elem_of_cons in Hn as [-> | Hn]; [unfold d; lia |].
              assert (n < d); [| unfold d in *; lia].
              apply Hold. apply elem_of_app. now right.
        -- intros c' [= <-]. exists (pre ++ [d]). now rewrite <- app_assoc.
      * split; [exact Hmarkers |]. split; [exact Hcalls |].
        exists pre. split; reflexivity.
    + rewrite appendChild_new by assumption. simpl.
      split; [reflexivity |]. split; [| split; [exact Ecs |]].
      * unfold tidy. simpl. rewrite Ecs.
        split; [| split; [| discriminate]].
        -- apply NoDup_app. split; [exact Hnd |]. split; [| apply NoDup_singleton].
           intros x Hx Hin. apply list_elem_of_singleton in Hin. subst x.
           now apply Hnew.
        -- intros n Hn. apply elem_of_app in Hn as [Hn | Hn].
           ++ assert (n < d); [| unfold d in *; lia]. now apply Hold.
           ++ apply list_elem_of_singleton in Hn. subst n. unfold d. lia.
      * split; [exact Hmarkers |]. split; [exact Hcalls | reflexivity].
  - simpl. split; [reflexivity |]. split; [| split; [reflexivity |]].
    + unfold tidy. simpl. exact I.
    + split; [exact Hmarkers |]. split; [exact Hcalls | reflexivity].
Qed.

(** What [setCursor] does to a tidy world. *)
Lemma setCursor_tidy cursor w :
  tidy w ->
  let d := nextDrawer w in
  let w' := exec (setCursor (Some cursor)) w in
  snd (setCursor (Some cursor) w) = Ret tt
  /\ tidy w'
  /\ cursorSvg_ w' = Some d
  /\ markers w' = markers w
  /\ (exists before,
        calls w' = before ++ [MakeMarkerDrawer cursor d; CreateDom d d])
  /\ match blockCanvas w with
     | None => blockCanvas w' = None
     | Some children => blockCanvas w' = Some (children ++ [d])
     end.
Proof.
  intros Ht d w'. unfold w', exec. rewrite setCursor_eq. cbv zeta. simpl.
  fold d. unfold tidy in *. simpl.
  split; [reflexivity |].
  destruct (blockCanvas w) as [children |] eqn:Ec; simpl.
  - destruct Ht as [Hnd [Hold Hlast]].
    assert (Hnew : d ∉ children).
    { intros Hin. apply Hold in Hin. unfold d in Hin. lia. }
    rewrite appendChild_new by assumption.
    split; [split; [| split] |].
    + apply NoDup_app. split; [exact Hnd |]. split; [| apply NoDup_singleton].
      intros x Hx Hin. apply list_elem_of_singleton in Hin. subst x. now apply Hnew.
    + intros n Hn. apply elem_of_app in Hn as [Hn | Hn].
      * assert (n < d); [| unfold d in *; lia]. now apply Hold.
      * apply list_elem_of_singleton in Hn. subst n. unfold d. lia.
    + intros c [= <-]. now exists children.
    + split; [reflexivity |]. split; [reflexivity |].
      split; [eexists; reflexivity | reflexivity].
  - split; [exact I |]. split; [reflexivity |]. split; [reflexivity |].
    split; [eexists; reflexivity | reflexivity].
Qed.

Lemma step_tidy op w :
  tidy w -> snd (step op w) = Ret tt /\ tidy (exec (step op) w).
Proof.
  intros Ht. destruct op as [id marker | cursor]; simpl.
  - destruct (registerMarker_tidy id marker w Ht) as [Hr [Ht' _]]. now split.
  - destruct (setCursor_tidy cursor w Ht) as [Hr [Ht' _]]. now split.
Qed.

Lemma run_tidy ops : forall w, tidy w -> tidy (run ops w).
Proof.
  induction ops as [| op ops IH]; intros w Ht; [exact Ht |].
  simpl. apply IH. now apply step_tidy.
Qed.

(** An id that no call registers is not in the map. *)
Lemma run_not_registered id ops : forall w,
  tidy w -> markers w !! id = None ->
  (forall marker, ~ In (OpRegisterMarker id marker) ops) ->
  markers (run ops w) !! id = None.
Proof.
  induction ops as [| op ops IH]; intros w Ht Hnone Hnot; [exact Hnone |].
  simpl. apply IH.
  - now apply step_tidy.
  - destruct op as [id' marker | cursor]; simpl.
    + destruct (registerMarker_tidy id' marker w Ht) as [_ [_ [_ [Hm _]]]].
      rewrite Hm. rewrite lookup_insert_ne; [exact Hnone |].
      intros ->. apply (Hnot marker). now left.
    + destruct (setCursor_tidy cursor w Ht) as [_ [_ [_ [Hm _]]]].
      now rewrite Hm.
  - intros marker Hin. apply (Hnot marker). now right.
Qed.

End MarkerFacts.

(** ** MarkerManager: what the specification states *)

Section MarkerStatements.
Import MarkerManager MarkerFacts.

(** C2.  In every world reached from a new manager by calls of
    [registerMarker] and [setCursor], over a canvas whose children are
    distinct nodes: the cursor's node, when one is set, is the last child of
    the block canvas; [registerMarker] returns, and puts the node of the new
    marker right before the cursor's node when one is set and at the end
    otherwise; [setCursor] returns, and puts the node of the new cursor at
    the end and keeps it as the cursor's node.  Without a block canvas there
    is nothing to insert into, and the calls return all the same. *)
Theorem cursor_node_stays_last (canvas : option (list Node)) (ops : list Op) :
  NoDup (default [] canvas) ->
  let w := run ops (new canvas) in
  (forall c children,
     cursorSvg_ w = Some c -> blockCanvas w = Some children ->
     exists pre, children = pre ++ [c])
  /\ (forall id marker,
        let dom := nextDrawer w in
        let w' := exec (registerMarker id marker) w in
        snd (registerMarker id marker w) = Ret tt
        /\ (exists before,
              calls w' = before ++ [MakeMarkerDrawer marker dom; CreateDom dom dom])
        /\ match blockCanvas w with
           | None => blockCanvas w' = None
           | Some children =>
               match cursorSvg_ w with
               | Some c =>
                   exists pre,
                     children = pre ++ [c]
                     /\ blockCanvas w' = Some (pre ++ [dom; c])
               | None => blockCanvas w' = Some (children ++ [dom])
               end
           end)
  /\ (forall cursor,
        let dom := nextDrawer w in
        let w' := exec (setCursor (Some cursor)) w in
        snd (setCursor (Some cursor) w) = Ret tt
        /\ (exists before,
              calls w' = before ++ [MakeMarkerDrawer cursor dom; CreateDom dom dom])
        /\ cursorSvg_ w' = Some dom
        /\ match blockCanvas w with
           | None => blockCanvas w' = None
           | Some children => blockCanvas w' = Some (children ++ [dom])
           end).
Proof.
  intros Hnd w.
  assert (Ht : tidy w) by (apply run_tidy, new_tidy, Hnd).
  split; [| split].
  - intros c children Hc Hch. unfold tidy in Ht. rewrite Hch in Ht.
    destruct Ht as [_ [_ Hlast]]. now apply Hlast.
  - intros id marker dom w'.
    destruct (registerMarker_tidy id marker w Ht) as [Hr [_ [_ [_ [Hcalls Hcanvas]]]]].
    split; [exact Hr |]. split; [exact Hcalls | exact Hcanvas].
  - intros cursor dom w'.
    destruct (setCursor_tidy cursor w Ht) as [Hr [_ [Hcs [_ [Hcalls Hcanvas]]]]].
    split; [exact Hr |]. split; [exact Hcalls |]. split; [exact Hcs | exact Hcanvas].
Qed.

Lemma cursor_node_stays_last_witness :
  NoDup (default [] Sample.canvas2)
  /\ blockCanvas (run Sample.marker_calls (new Sample.canvas2))
     = Some [1; 2; 3; 5; 4; 7; 6]
  /\ cursorSvg_ (run Sample.marker_calls (new Sample.canvas2)) = Some 6
  /\ exists pre,
       [1; 2; 3; 5; 4; 7; 6] = pre ++ [6].
Proof.
  assert (Hnd : NoDup (default [] Sample.canvas2)).
  { simpl. apply NoDup_cons. split; [| apply NoDup_singleton].
    intros Hin. apply list_elem_of_singleton in Hin. discriminate. }
  split; [exact Hnd |].
  split; [reflexivity |]. split; [reflexivity |].
  destruct (cursor_node_stays_last Sample.canvas2 Sample.marker_calls Hnd)
    as [Hlast _].
  apply (Hlast 6 [1; 2; 3; 5; 4; 7; 6]); reflexivity.
Defined.

(** C5.  [unregisterMarker (id)] on an id that is not in the map throws an
    Error whose message names the id, and changes nothing; an id that no
    call has registered is not in the map.  On an id that is in the map it
    returns, calls [dispose] on the marker and removes the entry, so that
    [getMarker (id)] gives null afterwards; the other entries stay. *)
Theorem unregisterMarker_throws_or_removes (id : string) (w : World) :
  (markers w !! id = None ->
   unregisterMarker id w
   = (w, Throw (Error ("Marker with ID " ++ id ++ " does not exist." ++ nl
          ++ "                 Can only unregister markers that exist."))))
  /\ (forall canvas ops,
        NoDup (default [] canvas) ->
        (forall marker, ~ In (OpRegisterMarker id marker) ops) ->
        exists msg,
          snd (unregisterMarker id (run ops (new canvas))) = Throw (Error msg))
  /\ (forall marker,
        markers w !! id = Some marker ->
        let w' := exec (unregisterMarker id) w in
        snd (unregisterMarker id w) = Ret tt
        /\ calls w' = calls w ++ [MarkerDispose marker]
        /\ markers w' = delete id (markers w)
        /\ getMarker id w' = (w', Ret None)
        /\ (forall id', id' <> id -> markers w' !! id' = markers w !! id')).
Proof.
  split; [| split].
  - intros Hnone. unfold unregisterMarker, bind, gets, throw. now rewrite Hnone.
  - intros canvas ops Hnd Hnot.
    assert (Hnone : markers (run ops (new canvas)) !! id = None).
    { apply run_not_registered; [now apply new_tidy | apply lookup_empty | exact Hnot]. }
    unfold unregisterMarker, bind, gets, throw. rewrite Hnone. simpl.
    eexists. reflexivity.
  - intros marker Hsome w'. unfold w', exec, getMarker, gets.
    unfold unregisterMarker, bind, gets, call, modify. rewrite Hsome. simpl.
    split; [reflexivity |]. split; [reflexivity |]. split; [reflexivity |].
    split; [now rewrite lookup_delete_eq |].
    intros id' Hne. now rewrite lookup_delete_ne.
Qed.

Lemma unregisterMarker_throws_or_removes_witness :
  (exists msg,
     snd (unregisterMarker "m3" (run Sample.marker_calls (new Sample.canvas2)))
     = Throw (Error msg))
  /\ getMarker "m1" (exec (unregisterMarker "m1")
                       (run Sample.marker_calls (new Sample.canvas2)))
     = (exec (unregisterMarker "m1") (run Sample.marker_calls (new Sample.canvas2)),
        Ret None).
Proof.
  destruct (unregisterMarker_throws_or_removes "m3"
              (run Sample.marker_calls (new Sample.canvas2))) as [_ [Hnever _]].
  destruct (unregisterMarker_throws_or_removes "m1"
              (run Sample.marker_calls (new Sample.canvas2))) as [_ [_ Hknown]].
  split.
  - apply (Hnever Sample.canvas2 Sample.marker_calls).
    + simpl. apply NoDup_cons. split; [| apply NoDup_singleton].
      intros Hin. apply list_elem_of_singleton in Hin. discriminate.
    + intros marker Hin. simpl in Hin.
      repeat destruct Hin as [Hin | Hin]; try discriminate Hin. exact Hin.
  - apply (Hknown 12). vm_compute. reflexivity.
Defined.

End MarkerStatements.

(** ** Default shortcuts: what the specification states *)

Section ShortcutStatements.
Import Shortcuts.

Lemma delete_callback_eq (c : Collaborators) workspace event (w : World c) :
  callback (V0.delete c) workspace event w
  = let w1 := exec (call (EventPreventDefault event)) w in
    if inProgress c (ext w1) then (w1, Ret false)
    else match getSelected c (ext w1) with
         | Some s => (exec (call (CheckAndDelete s)) w1, Ret true)
         | None =>
             (w1, Throw (TypeError
                "Cannot read properties of null (reading 'checkAndDelete')"))
         end.
Proof.
  cbv [V0.delete callback bind call query on_selected gets modify ret throw exec fst].
  simpl.
  destruct (inProgress c (react c (EventPreventDefault event) (ext w)));
    [reflexivity |].
  simpl.
  destruct (getSelected c (react c (EventPreventDefault event) (ext w)));
    reflexivity.
Qed.

(** C8.  In both variants the callback of the delete shortcut calls
    [event.preventDefault ()] before anything else, whatever the state; the
    drag gesture is looked at in the world after that call: when one is in
    progress the callback returns false and has made no other call; when
    none is, it calls [checkAndDelete] on the selection and returns true.
    (With no gesture and nothing selected the method call on null throws,
    after [preventDefault] as well.) *)
Theorem delete_prevents_default_first
  (c : Collaborators) (workspace : WorkspaceSvg) (event : KeyEvent) (w : World c) :
  let run0 := callback (V0.delete c) workspace event in
  let run1 := callback (V1.delete c) workspace event in
  let w1 := exec (call (EventPreventDefault event)) w in
  run1 w = run0 w
  /\ (exists rest,
        calls (exec run0 w) = calls w ++ EventPreventDefault event :: rest)
  /\ (inProgress c (ext w1) = true ->
      run0 w = (w1, Ret false)
      /\ calls w1 = calls w ++ [EventPreventDefault event])
  /\ (forall selected,
        inProgress c (ext w1) = false -> getSelected c (ext w1) = Some selected ->
        run0 w = (exec (call (CheckAndDelete selected)) w1, Ret true)
        /\ calls (exec run0 w)
           = calls w ++ [EventPreventDefault event; CheckAndDelete selected])
  /\ (inProgress c (ext w1) = false -> getSelected c (ext w1) = None ->
      exists msg,
        run0 w = (w1, Throw (TypeError msg))).
Proof.
  intros run0 run1 w1.
  split; [reflexivity |].
  unfold run0, exec at 1 3. rewrite delete_callback_eq. cbv zeta. fold w1.
  assert (Hcalls : calls w1 = calls w ++ [EventPreventDefault event]) by reflexivity.
  destruct (inProgress c (ext w1)) eqn:Ed.
  - split; [exists []; exact Hcalls |].
    split; [intros _; split; [reflexivity | exact Hcalls] |].
    split; [intros selected Hf; discriminate |]. intros Hf. discriminate.
  - destruct (getSelected c (ext w1)) as [s |] eqn:Es.
    + assert (Hdel : calls (exec (call (CheckAndDelete s)) w1)
                     = calls w ++ [EventPreventDefault event; CheckAndDelete s]).
      { unfold exec, call, modify. simpl. now rewrite <- app_assoc. }
      split; [exists [CheckAndDelete s]; exact Hdel |].
      split; [intros Hf; discriminate |].
      split.
      * intros selected _ [= <-]. split; [reflexivity | exact Hdel].
      * intros _ Hn. discriminate.
    + split; [exists []; exact Hcalls |].
      split; [intros Hf; discriminate |].
      split; [intros selected _ Hs; discriminate |].
      intros _ _. eexists. reflexivity.
Qed.

Lemma delete_prevents_default_first_witness :
  callback (V0.delete Sample.collaborators) Sample.workspace 5 Sample.dragging
  = (exec (call (EventPreventDefault 5)) Sample.dragging, Ret false)
  /\ calls (exec (callback (V1.delete Sample.collaborators) Sample.workspace 5)
              Sample.idle)
     = [EventPreventDefault 5; CheckAndDelete Sample.block].
Proof.
  destruct (delete_prevents_default_first
              Sample.collaborators Sample.workspace 5 Sample.dragging)
    as [_ [_ [Hdrag _]]].
  destruct (delete_prevents_default_first
              Sample.collaborators Sample.workspace 5 Sample.idle)
    as [Hsame [_ [_ [Hidle _]]]].
  split.
  - apply Hdrag. reflexivity.
  - unfold exec. rewrite Hsame.
    apply (Hidle Sample.block); reflexivity.
Defined.

(** C10.  Both variants register seven shortcuts under the same seven names
    in the same order, and under each name the two records are equivalent:
    the same chords in the same order, preconditions with the same truth
    value on every state, callbacks with the same calls and the same
    result.  This holds for every [createSerializedKey] and every table of
    key codes. *)
Theorem variants_register_equivalent_shortcuts (c : Collaborators) :
  let registry0 := exec (V0.registerDefaultShortcuts c) [] in
  let registry1 := exec (V1.registerDefaultShortcuts c) [] in
  map name registry0 = Names
  /\ map name registry1 = Names
  /\ (forall n, In n Names ->
        exists s0 s1,
          lookup n registry0 = Some s0 /\ lookup n registry1 = Some s1
          /\ name s0 = n /\ equivalent s0 s1).
Proof.
  intros registry0 registry1.
  split; [reflexivity |]. split; [reflexivity |].
  intros n Hin. unfold Names in Hin. simpl in Hin.
  destruct Hin as [<- | [<- | [<- | [<- | [<- | [<- | [<- | []]]]]]]].
  - exists (V0.escape c), (V1.escape c). repeat split.
  - exists (V0.delete c), (V1.delete c). repeat split.
  - exists (V0.copy c), (V1.copy c). repeat split.
  - exists (V0.cut c), (V1.cut c). repeat split.
  - exists (V0.paste c), (V1.paste c). repeat split.
  - exists (V0.undo c), (V1.undo c). repeat split.
  - exists (V0.redo c), (V1.redo c). repeat split.
Qed.

Lemma variants_register_equivalent_shortcuts_witness :
  exists s0 s1,
    lookup "redo" (exec (V0.registerDefaultShortcuts Sample.collaborators) [])
    = Some s0
    /\ lookup "redo" (exec (V1.registerDefaultShortcuts Sample.collaborators) [])
       = Some s1
    /\ keyCodes s0 = [Chord "16+17+90"; Chord "16+18+90"; Chord "16+91+90";
                      Chord "17+89"]
    /\ keyCodes s1 = keyCodes s0.
Proof.
  destruct (variants_register_equivalent_shortcuts Sample.collaborators)
    as [_ [_ Hall]].
  destruct (Hall "redo") as [s0 [s1 [H0 [H1 [_ [_ [Hkeys _]]]]]]].
  - unfold Names. simpl. tauto.
  - exists s0, s1. split; [exact H0 |]. split; [exact H1 |].
    split; [| now symmetry].
    change (lookup "redo" (exec (V0.registerDefaultShortcuts Sample.collaborators) []))
      with (Some (V0.redo Sample.collaborators)) in H0.
    injection H0 as <-. vm_compute. reflexivity.
Defined.

End ShortcutStatements.

(** ** ToolboxCategory: what the specification states *)

Section ToolboxStatements.
Import ToolboxCategory.

Variable replaceMessageReferences : string -> option string.
Variable Number : string -> option Q.
Variable hueToHex : Q -> string.
Variable parse : string -> option string.


Lemma truthy_Some v : truthy v = true -> exists s, v = Some s /\ s <> "".
Proof.
  destruct v as [s |]; simpl; [| discriminate].
  intros H. exists s. split; [reflexivity |].
  intros ->. discriminate.
Qed.

Lemma truthy_default v : truthy v = true -> v = Some (default "" v).
Proof. destruct v; simpl; [reflexivity | discriminate]. Qed.

Lemma parseColour_returns value w :
  exists s,
    snd (parseColour_ replaceMessageReferences Number hueToHex parse value w) = Ret s.
Proof.
  unfold parseColour_.
  destruct (replaceMessageReferences value) as [color |]; [| now eexists].
  destruct (String.eqb color ""); [now eexists |].
  destruct (Number color); [now eexists |].
  destruct (truthy (parse color)); now eexists.
Qed.

Lemma parseColour_unrecognized value color w :
  unrecognized replaceMessageReferences Number parse value color ->
  warned (unrecognized_colour (name_ w) color) w
    (parseColour_ replaceMessageReferences Number hueToHex parse value w).
Proof.
  intros [Hr [Hne [Hn Hp]]]. unfold warned, parseColour_.
  rewrite Hr. apply String.eqb_neq in Hne. rewrite Hne, Hn, Hp.
  reflexivity.
Qed.

Lemma colourFromStyle_returns name w :
  exists s,
    snd (getColourfromStyle_ replaceMessageReferences Number hueToHex parse name w)
    = Ret s.
Proof.
  unfold getColourfromStyle_.
  destruct (String.eqb name ""); [now eexists |].
  unfold bind, gets. destruct (theme w) as [th |]; [| now eexists].
  destruct (truthy _); [apply parseColour_returns | now eexists].
Qed.

(** C9.  Colour resolution never throws.  When the category names both a
    colour and a style, when its style is not among the category styles of
    the workspace's theme or has no colour there, and when its colour (or
    the colour of its style) is not recognized, it prints one warning and
    gives the empty string.  A style is looked up in the theme of the
    workspace: on a workspace that has no theme every style name, existing
    or not, gives the empty string and nothing is printed. *)
Theorem malformed_colour_warns_and_falls_back (category : CategoryInfo) (w : World) :
  let resolve := getColour_ replaceMessageReferences Number hueToHex parse in
  let styleName := nullish (categorystyle category) (categoryStyle category) in
  (exists s, snd (resolve category w) = Ret s)
  /\ (truthy (colour category) = true -> truthy styleName = true ->
      warned (both_style_and_colour (name_ w)) w (resolve category w))
  /\ (forall name th,
        truthy (colour category) = false ->
        styleName = Some name -> name <> "" -> theme w = Some th ->
        (categoryStyles th !! name = None
         \/ exists style,
              categoryStyles th !! name = Some style
              /\ truthy (style_colour style) = false) ->
        warned (style_missing name) w (resolve category w))
  /\ (forall value color,
        truthy styleName = false ->
        colour category = Some value -> value <> "" ->
        unrecognized replaceMessageReferences Number parse value color ->
        warned (unrecognized_colour (name_ w) color) w (resolve category w))
  /\ (forall name th style value color,
        truthy (colour category) = false ->
        styleName = Some name -> name <> "" -> theme w = Some th ->
        categoryStyles th !! name = Some style ->
        style_colour style = Some value -> value <> "" ->
        unrecognized replaceMessageReferences Number parse value color ->
        warned (unrecognized_colour (name_ w) color) w (resolve category w))
  /\ (truthy (colour category) = false -> truthy styleName = true ->
      theme w = None ->
      resolve category w = (w, Ret "")).
Proof.
  intros resolve styleName. unfold resolve.
  split; [| split; [| split; [| split; [| split]]]].
  - unfold getColour_. fold styleName.
    destruct (truthy (colour category) && truthy styleName); [now eexists |].
    destruct (truthy styleName); [apply colourFromStyle_returns |].
    destruct (truthy (colour category)); [apply parseColour_returns | now eexists].
  - intros Hc Hs. unfold getColour_. fold styleName. rewrite Hc, Hs.
    reflexivity.
  - intros name th Hc Hs Hne Hth Hmissing.
    unfold getColour_. fold styleName. rewrite Hc, Hs. simpl.
    apply String.eqb_neq in Hne. rewrite Hne. simpl.
    unfold getColourfromStyle_. rewrite Hne.
    unfold bind, gets. rewrite Hth.
    destruct Hmissing as [Hnone | [style [Hsome Hcol]]].
    + rewrite Hnone. reflexivity.
    + rewrite Hsome, Hcol. reflexivity.
  - intros value color Hs Hc Hne Hun.
    unfold getColour_. fold styleName. rewrite Hs, Hc. simpl.
    apply String.eqb_neq in Hne. rewrite Hne. simpl.
    now apply parseColour_unrecognized.
  - intros name th style value color Hc Hs Hne Hth Hstyle Hvalue Hvne Hun.
    unfold getColour_. fold styleName. rewrite Hc, Hs. simpl.
    apply String.eqb_neq in Hne. rewrite Hne. simpl.
    unfold getColourfromStyle_. rewrite Hne.
    unfold bind, gets. rewrite Hth, Hstyle, Hvalue. simpl.
    apply String.eqb_neq in Hvne. rewrite Hvne. simpl.
    now apply parseColour_unrecognized.
  - intros Hc Hs Hth.
    unfold getColour_. fold styleName. rewrite Hc, Hs. simpl.
    unfold getColourfromStyle_.
    destruct (String.eqb (default "" styleName) ""); [reflexivity |].
    unfold bind, gets. now rewrite Hth.
Qed.

End ToolboxStatements.

Section ToolboxSample.
Import ToolboxCategory.

Lemma malformed_colour_warns_and_falls_back_witness :
  Sample.sample_resolve
    {| categorystyle := Some "logic_category"; categoryStyle := None;
       colour := Some "210" |} Sample.category_world
  = ({| name_ := "Logic"; theme := Some Sample.theme1;
        warnings := [both_style_and_colour "Logic"] |}, Ret "")
  /\ Sample.sample_resolve
       {| categorystyle := None; categoryStyle := Some "no_such_style";
          colour := None |} Sample.category_world
     = ({| name_ := "Logic"; theme := Some Sample.theme1;
           warnings := [style_missing "no_such_style"] |}, Ret "")
  /\ Sample.sample_resolve
       {| categorystyle := None; categoryStyle := None;
          colour := Some "reddish" |} Sample.category_world
     = ({| name_ := "Logic"; theme := Some Sample.theme1;
           warnings := [unrecognized_colour "Logic" "reddish"] |}, Ret "").
Proof.
  split; [| split].
  - destruct (malformed_colour_warns_and_falls_back
                Some Sample.number_of Sample.hex_of_hue Sample.parse_colour
                {| categorystyle := Some "logic_category"; categoryStyle := None;
                   colour := Some "210" |} Sample.category_world)
      as [_ [Hboth _]].
    apply Hboth; reflexivity.
  - destruct (malformed_colour_warns_and_falls_back
                Some Sample.number_of Sample.hex_of_hue Sample.parse_colour
                {| categorystyle := None; categoryStyle := Some "no_such_style";
                   colour := None |} Sample.category_world)
      as [_ [_ [Hstyle _]]].
    apply (Hstyle "no_such_style" Sample.theme1);
      [reflexivity | reflexivity | discriminate | reflexivity |].
    left. vm_compute. reflexivity.
  - destruct (malformed_colour_warns_and_falls_back
                Some Sample.number_of Sample.hex_of_hue Sample.parse_colour
                {| categorystyle := None; categoryStyle := None;
                   colour := Some "reddish" |} Sample.category_world)
      as [_ [_ [_ [Hcolour _]]]].
    apply (Hcolour "reddish" "reddish");
      [reflexivity | reflexivity | discriminate |].
    repeat split. discriminate.
Defined.

(** C9, as the specification has it, fails: on a workspace without a theme
    a category whose style does not exist gets the empty string and no
    warning is printed; the same category on a workspace with a theme is
    warned about. *)
Lemma missing_style_without_theme_is_silent :
  Sample.sample_resolve
    {| categorystyle := None; categoryStyle := Some "no_such_style";
       colour := None |}
    {| name_ := "Logic"; theme := None; warnings := [] |}
  = ({| name_ := "Logic"; theme := None; warnings := [] |}, Ret "")
  /\ warnings
       (exec (Sample.sample_resolve
                {| categorystyle := None; categoryStyle := Some "no_such_style";
                   colour := None |}) Sample.category_world)
     = [style_missing "no_such_style"].
Proof. split; reflexivity. Qed.

End ToolboxSample.

(** * More of the code *)

(** ** Relations that every step of a method keeps *)

Section Keeping.
Context {W : Type} (R : W -> W -> Prop).
Hypothesis R_refl : forall w, R w w.
Hypothesis R_trans : forall a b c, R a b -> R b c -> R a c.

Lemma keeps_ret {A} (a : A) : keeps R (ret a).
Proof. intros w. apply R_refl. Qed.

Lemma keeps_gets {A} (f : W -> A) : keeps R (gets f).
Proof. intros w. apply R_refl. Qed.

Lemma keeps_throw {A} (e : Exn) : keeps R (@throw W A e).
Proof. intros w. apply R_refl. Qed.

Lemma keeps_diverge {A} : keeps R (@diverge W A).
Proof. intros w. apply R_refl. Qed.

Lemma keeps_bind {A B} (m : M W A) (k : A -> M W B) :
  keeps R m -> (forall a, keeps R (k a)) -> keeps R (bind m k).
Proof.
  intros Hm Hk w. unfold exec, bind.
  pose proof (Hm w) as H1. unfold exec in H1.
  destruct (m w) as [w' [a | e |]]; simpl in *; try exact H1.
  apply (R_trans _ _ _ H1). apply Hk.
Qed.

Lemma keeps_for_each {A} (l : list A) (body : A -> M W unit) :
  (forall x, keeps R (body x)) -> keeps R (for_each l body).
Proof.
  intros Hb. induction l as [| x l IH]; simpl.
  - apply keeps_ret.
  - apply keeps_bind; [apply Hb | intros _; exact IH].
Qed.

Lemma keeps_fold {A} (step : A -> M W unit) (l : list A) : forall w,
  (forall x, keeps R (step x)) ->
  R w (fold_left (fun w x => exec (step x) w) l w).
Proof.
  induction l as [| x l IH]; intros w Hs; simpl; [apply R_refl |].
  eapply R_trans; [apply Hs |]. now apply IH.
Qed.

End Keeping.

(** A method of a component, run inside the larger world, keeps what it
    keeps on the component. *)
Lemma keeps_lift {W V A} (R : V -> V -> Prop) (get : W -> V) (set : V -> W -> W)
  (m : M V A) :
  (forall v w, get (set v w) = v) ->
  keeps R m -> keeps (fun w w' => R (get w) (get w')) (lift get set m).
Proof.
  intros Hgs Hm w. unfold exec, lift.
  pose proof (Hm (get w)) as H. unfold exec in H.
  destruct (m (get w)) as [v' o]. simpl in *. now rewrite Hgs.
Qed.

(** ** Menu: what every handler keeps *)

Section HandlersKeep.
Import Menu MenuFacts.

Variable R : World -> World -> Prop.
Hypothesis R_refl : forall w, R w w.
Hypothesis R_trans : forall a b c, R a b -> R b c -> R a c.
Hypothesis R_setHighlighted : forall i, keeps R (setHighlighted i).
Hypothesis R_performAction : forall r, keeps R (item (MenuItem.performAction r)).
Hypothesis R_openingCoords : forall c, keeps R (modify (set_menu (with_openingCoords c))).
Hypothesis R_emit : forall x,
  x = StopPropagation \/ x = PreventDefault -> keeps R (emit x).
Hypothesis R_class : forall e f,
  keeps R (item (modify (MenuItem.set_classList e f))).

Lemma keeps_item_read {A} (f : MenuItem.World -> A) : keeps R (item (gets f)).
Proof.
  intros [m s]. unfold exec, item, lift, gets, set_store. simpl. apply R_refl.
Qed.

Lemma keeps_highlightLoop fuel index delta : keeps R (highlightLoop fuel index delta).
Proof.
  intros w. unfold exec.
  destruct (highlightLoop_cases fuel index delta w) as [H | [H | [r H]]];
    rewrite H; simpl; try apply R_refl.
  apply (R_setHighlighted (Some r)).
Qed.

Lemma keeps_highlightNext : keeps R highlightNext.
Proof. intros w. apply (keeps_highlightLoop _ _ _ w). Qed.

Lemma keeps_highlightPrevious : keeps R highlightPrevious.
Proof. intros w. apply (keeps_highlightLoop _ _ _ w). Qed.

Lemma keeps_highlightFirst : keeps R highlightFirst.
Proof. intros w. apply (keeps_highlightLoop _ _ _ w). Qed.

Lemma keeps_highlightLast : keeps R highlightLast.
Proof. intros w. apply (keeps_highlightLoop _ _ _ w). Qed.

Lemma keeps_handleMouseOver event : keeps R (handleMouseOver event).
Proof.
  intros w. unfold exec.
  destruct (handleMouseOver_cases event w) as [H | [i H]]; rewrite H; simpl.
  - apply R_refl.
  - apply (R_setHighlighted i).
Qed.

Lemma keeps_handleClick distance event : keeps R (handleClick distance event).
Proof.
  unfold handleClick.
  apply keeps_bind; auto using keeps_gets. intros oc.
  apply keeps_bind; auto. intros _.
  destruct (match oc with Some _ => _ | None => _ end); [now apply keeps_ret |].
  apply keeps_bind; auto using keeps_gets. intros [r |]; [apply R_performAction |].
  now apply keeps_ret.
Qed.

Lemma keeps_handleKeyEvent k1 k2 k3 k4 k5 k6 k7 k8 event :
  keeps R (handleKeyEvent k1 k2 k3 k4 k5 k6 k7 k8 event).
Proof.
  unfold handleKeyEvent.
  assert (Hhandled : forall m : M World unit, keeps R m ->
    keeps R (do! m in do! emit StopPropagation in emit PreventDefault)).
  { intros m Hm. apply keeps_bind; auto. intros _.
    apply keeps_bind; auto. }
  apply keeps_bind; auto using keeps_gets. intros empty.
  destruct empty; [now apply keeps_ret |].
  destruct (shiftKey event); [now apply keeps_ret |].
  destruct (ctrlKey event); [now apply keeps_ret |].
  destruct (metaKey event); [now apply keeps_ret |].
  destruct (altKey event); [now apply keeps_ret |].
  cbv zeta.
  destruct (_ || _).
  { apply Hhandled. apply keeps_bind; auto using keeps_gets.
    intros [h |]; [apply R_performAction | now apply keeps_ret]. }
  destruct (_ =? _)%Z; [apply Hhandled, keeps_highlightPrevious |].
  destruct (_ =? _)%Z; [apply Hhandled, keeps_highlightNext |].
  destruct (_ || _); [apply Hhandled, keeps_highlightFirst |].
  destruct (_ || _); [apply Hhandled, keeps_highlightLast |].
  now apply keeps_ret.
Qed.

Lemma keeps_on_page {A} (m : M World A) :
  keeps R m ->
  keeps (fun w w' => R (MenuPage.page w) (MenuPage.page w')) (MenuPage.menu m).
Proof. intros Hm. apply keeps_lift; [reflexivity | exact Hm]. Qed.

Lemma keeps_focus :
  keeps (fun w w' => R (MenuPage.page w) (MenuPage.page w')) MenuPage.focus.
Proof.
  unfold MenuPage.focus.
  apply keeps_bind; eauto.
  { apply keeps_on_page. apply keeps_gets. exact R_refl. }
  intros [element |]; [| intros w; apply R_refl].
  apply keeps_bind; eauto.
  { intros w. apply R_refl. }
  intros _. apply keeps_on_page, R_class.
Qed.

Lemma keeps_blur :
  keeps (fun w w' => R (MenuPage.page w) (MenuPage.page w')) MenuPage.blur.
Proof.
  unfold MenuPage.blur.
  apply keeps_bind; eauto.
  { apply keeps_on_page. apply keeps_gets. exact R_refl. }
  intros [element |]; [| intros w; apply R_refl].
  apply keeps_bind; eauto.
  { intros w. unfold exec, modify. simpl.
    destruct (bool_decide _); apply R_refl. }
  intros _. apply keeps_on_page, R_class.
Qed.

Lemma keeps_handleMouseLeave :
  keeps (fun w w' => R (MenuPage.page w) (MenuPage.page w')) MenuPage.handleMouseLeave.
Proof.
  unfold MenuPage.handleMouseLeave.
  apply keeps_bind; eauto.
  { apply keeps_on_page. apply keeps_gets. exact R_refl. }
  intros [element |]; [| intros w; apply R_refl].
  apply keeps_bind; eauto using keeps_blur.
  intros _. apply keeps_on_page, R_setHighlighted.
Qed.

Lemma keeps_dispatch distance k1 k2 k3 k4 k5 k6 k7 k8 input :
  keeps (fun w w' => R (MenuPage.page w) (MenuPage.page w'))
    (MenuPage.dispatch distance k1 k2 k3 k4 k5 k6 k7 k8 input).
Proof.
  destruct input as [event | event | | | event]; simpl.
  - apply keeps_on_page, keeps_handleMouseOver.
  - apply keeps_on_page, keeps_handleClick.
  - apply keeps_focus.
  - apply keeps_handleMouseLeave.
  - apply keeps_on_page, keeps_handleKeyEvent.
Qed.

Lemma keeps_deliver distance k1 k2 k3 k4 k5 k6 k7 k8 inputs w :
  R (MenuPage.page w)
    (MenuPage.page (MenuPage.deliver distance k1 k2 k3 k4 k5 k6 k7 k8 inputs w)).
Proof.
  unfold MenuPage.deliver.
  apply (keeps_fold (fun w w' => R (MenuPage.page w) (MenuPage.page w'))); eauto.
  intros input. apply keeps_dispatch.
Qed.

End HandlersKeep.
(** ** Menu: the handlers bound in [render] *)

Module PageFacts.
Import Menu MenuFacts.

Lemma performAction_eq r s :
  MenuItem.performAction r s
  = ({| MenuItem.items := MenuItem.items s;
        MenuItem.classList := MenuItem.classList s;
        MenuItem.elemId := MenuItem.elemId s;
        MenuItem.nextElem := MenuItem.nextElem s;
        MenuItem.log := MenuItem.log s ++ MenuPage.calls_of s r |}, Ret tt).
Proof.
  unfold MenuItem.performAction, MenuPage.calls_of, MenuItem.isEnabled,
    bind, gets, modify, ret, MenuItem.emit.
  simpl.
  destruct (MenuItem.enabled (MenuItem.items s r)); simpl; [| reflexivity].
  destruct (MenuItem.actionHandler (MenuItem.items s r)) as [h |]; simpl.
  - now rewrite <- app_assoc.
  - reflexivity.
Qed.

Lemma rehighlighted_actionHandler i w r :
  MenuItem.actionHandler (MenuItem.items (rehighlighted i w) r)
  = MenuItem.actionHandler (MenuItem.items (store w) r).
Proof.
  unfold rehighlighted.
  destruct i as [it |], (highlightedItem (menu w)) as [old |];
    rewrite ?MenuItemFacts.highlighted_world_items; unfold upd;
    repeat match goal with
           | |- context [Nat.eqb ?a ?b] => destruct (Nat.eqb_spec a b); subst
           end; reflexivity.
Qed.

Lemma rehighlighted_element i w r :
  MenuItem.element (MenuItem.items (rehighlighted i w) r)
  = MenuItem.element (MenuItem.items (store w) r).
Proof.
  unfold rehighlighted.
  destruct i as [it |], (highlightedItem (menu w)) as [old |];
    rewrite ?MenuItemFacts.highlighted_world_element; reflexivity.
Qed.

Lemma rehighlighted_log i w :
  MenuItem.log (rehighlighted i w) = MenuItem.log (store w).
Proof.
  unfold rehighlighted.
  destruct i as [it |], (highlightedItem (menu w)) as [old |];
    rewrite ?MenuItemFacts.highlighted_world_log; reflexivity.
Qed.

(** What [Menu.setHighlighted] leaves in the store, whether it returned or
    threw: the items of [rehighlighted], and a log that grew by the calls to
    scroll and to ARIA only. *)
Lemma setHighlighted_store i w :
  MenuItem.items (store (exec (setHighlighted i) w))
  = MenuItem.items (rehighlighted i w)
  /\ exists added,
       MenuItem.log (store (exec (setHighlighted i) w))
       = MenuItem.log (store w) ++ added
       /\ Forall (fun x => forall h r, x <> CallActionHandler h r) added.
Proof.
  unfold exec. destruct i as [it |].
  - pose proof (setHighlighted_Some it w) as H. cbv zeta in H. rewrite H.
    destruct (MenuItem.element _) as [e |];
      cbn [fst store MenuItem.items MenuItem.log MenuItem.emit];
      (split; [reflexivity |]); rewrite rehighlighted_log.
    + eexists [_; _]. split; [now rewrite <- app_assoc |].
      repeat constructor; discriminate.
    + eexists [_]. split; [reflexivity |].
      repeat constructor; discriminate.
  - rewrite setHighlighted_None. cbn [fst store]. split; [reflexivity |].
    exists []. rewrite rehighlighted_log, app_nil_r. split; [reflexivity | constructor].
Qed.

Lemma stays_consistent_refl w : MenuPage.stays_consistent w w.
Proof. intros H. exact H. Qed.

Lemma stays_consistent_trans a b c :
  MenuPage.stays_consistent a b -> MenuPage.stays_consistent b c ->
  MenuPage.stays_consistent a c.
Proof. unfold MenuPage.stays_consistent. tauto. Qed.

(** A step that touches neither a flag nor [highlightedItem]. *)
Lemma stays_consistent_same w w' :
  (forall r, flag w' r = flag w r) ->
  highlightedItem (menu w') = highlightedItem (menu w) ->
  MenuPage.stays_consistent w w'.
Proof.
  intros Hf Hh Hc r. rewrite Hf, Hh. apply Hc.
Qed.

Lemma acts_in_order_refl w : MenuPage.acts_in_order w w.
Proof.
  split; [reflexivity |]. split; [reflexivity |].
  exists []. rewrite app_nil_r. split; [reflexivity | constructor].
Qed.

Lemma in_order_same w w' x :
  (forall r, enabled w' r = enabled w r) ->
  (forall r, MenuItem.actionHandler (MenuItem.items (store w') r)
             = MenuItem.actionHandler (MenuItem.items (store w) r)) ->
  MenuPage.in_order w' x -> MenuPage.in_order w x.
Proof.
  intros He Hh. destruct x; simpl; try tauto.
  rewrite He, Hh. tauto.
Qed.

Lemma acts_in_order_trans a b c :
  MenuPage.acts_in_order a b -> MenuPage.acts_in_order b c ->
  MenuPage.acts_in_order a c.
Proof.
  intros (He1 & Hh1 & l1 & Hl1 & Hf1) (He2 & Hh2 & l2 & Hl2 & Hf2).
  split; [intros r; now rewrite He2 |].
  split; [intros r; now rewrite Hh2 |].
  exists (l1 ++ l2). split.
  - now rewrite Hl2, Hl1, app_assoc.
  - apply Forall_app. split; [exact Hf1 |].
    eapply Forall_impl; [exact Hf2 |].
    intros x. now apply in_order_same.
Qed.

(** A step that leaves the items alone and logs nothing but [added]. *)
Lemma acts_in_order_log w w' added :
  MenuItem.items (store w') = MenuItem.items (store w) ->
  MenuItem.log (store w') = MenuItem.log (store w) ++ added ->
  Forall (MenuPage.in_order w) added ->
  MenuPage.acts_in_order w w'.
Proof.
  intros Hi Hl Hf. unfold MenuPage.acts_in_order, enabled. rewrite Hi.
  split; [reflexivity |]. split; [reflexivity |]. now exists added.
Qed.

Lemma calls_of_in_order w r :
  Forall (MenuPage.in_order w) (MenuPage.calls_of (store w) r).
Proof.
  unfold MenuPage.calls_of. constructor; [exact I |].
  destruct (MenuItem.enabled (MenuItem.items (store w) r)) eqn:Ee; [| constructor].
  destruct (MenuItem.actionHandler (MenuItem.items (store w) r)) as [h |] eqn:Eh;
    constructor; [| constructor].
  simpl. unfold enabled. now rewrite Ee, Eh.
Qed.

End PageFacts.
Section PageStatements.
Import Menu MenuFacts PageFacts.

Variable distance : Coordinate -> Coordinate -> Q.
Variables KeyCodes_ENTER KeyCodes_SPACE KeyCodes_UP KeyCodes_DOWN : Z.
Variables KeyCodes_PAGE_UP KeyCodes_HOME KeyCodes_PAGE_DOWN KeyCodes_END : Z.

Lemma performAction_items r w :
  store (exec (item (MenuItem.performAction r)) w)
  = {| MenuItem.items := MenuItem.items (store w);
       MenuItem.classList := MenuItem.classList (store w);
       MenuItem.elemId := MenuItem.elemId (store w);
       MenuItem.nextElem := MenuItem.nextElem (store w);
       MenuItem.log := MenuItem.log (store w) ++ MenuPage.calls_of (store w) r |}
  /\ menu (exec (item (MenuItem.performAction r)) w) = menu w.
Proof.
  unfold exec, item, lift. rewrite performAction_eq. simpl. tauto.
Qed.

Lemma handlers_stay_consistent inputs w :
  MenuPage.stays_consistent (MenuPage.page w)
    (MenuPage.page
       (MenuPage.deliver distance KeyCodes_ENTER KeyCodes_SPACE KeyCodes_UP
          KeyCodes_DOWN KeyCodes_PAGE_UP KeyCodes_HOME KeyCodes_PAGE_DOWN
          KeyCodes_END inputs w)).
Proof.
  apply keeps_deliver.
  - exact stays_consistent_refl.
  - exact stays_consistent_trans.
  - intros i v. exact (setHighlighted_consistent i v).
  - intros r v. destruct (performAction_items r v) as [Hs Hm].
    apply stays_consistent_same; [| now rewrite Hm].
    intros r'. unfold flag. now rewrite Hs.
  - intros c v. now apply stays_consistent_same.
  - intros x _ v. now apply stays_consistent_same.
  - intros e f v. now apply stays_consistent_same.
Qed.

Lemma handlers_act_in_order inputs w :
  MenuPage.acts_in_order (MenuPage.page w)
    (MenuPage.page
       (MenuPage.deliver distance KeyCodes_ENTER KeyCodes_SPACE KeyCodes_UP
          KeyCodes_DOWN KeyCodes_PAGE_UP KeyCodes_HOME KeyCodes_PAGE_DOWN
          KeyCodes_END inputs w)).
Proof.
  apply keeps_deliver.
  - exact acts_in_order_refl.
  - exact acts_in_order_trans.
  - intros i v. destruct (setHighlighted_store i v) as (Hi & added & Hl & Hf).
    split; [intros r; unfold enabled at 1; rewrite Hi; apply rehighlighted_enabled |].
    split; [intros r; rewrite Hi; apply rehighlighted_actionHandler |].
    exists added. split; [exact Hl |].
    eapply Forall_impl; [exact Hf |].
    intros x Hx. destruct x; simpl; try exact I. now destruct (Hx handler item0).
  - intros r v. destruct (performAction_items r v) as [Hs _].
    apply (acts_in_order_log _ _ (MenuPage.calls_of (store v) r));
      [now rewrite Hs | now rewrite Hs | apply calls_of_in_order].
  - intros c v. apply (acts_in_order_log _ _ []);
      [reflexivity | simpl; now rewrite app_nil_r | constructor].
  - intros x Hx v. apply (acts_in_order_log _ _ [x]); [reflexivity | reflexivity |].
    constructor; [| constructor]. destruct Hx as [-> | ->]; exact I.
  - intros e f v. apply (acts_in_order_log _ _ []);
      [reflexivity | simpl; now rewrite app_nil_r | constructor].
Qed.

(** X1.  Whatever events the five handlers bound in [render] receive
    (pointer over, pointer down, pointer enter, pointer leave, key down), and
    whether a handler returns or throws, a MenuItem's flag stays set exactly
    when the item is the Menu's [highlightedItem]: so at most one item of the
    menu is flagged at any time. *)
Theorem handlers_keep_one_highlight (inputs : list MenuPage.Input) (w : MenuPage.World) :
  consistent (MenuPage.page w) ->
  let w' :=
    MenuPage.page
      (MenuPage.deliver distance KeyCodes_ENTER KeyCodes_SPACE KeyCodes_UP
         KeyCodes_DOWN KeyCodes_PAGE_UP KeyCodes_HOME KeyCodes_PAGE_DOWN
         KeyCodes_END inputs w) in
  (forall r, flag w' r = true <-> highlightedItem (menu w') = Some r)
  /\ (forall r1 r2, flag w' r1 = true -> flag w' r2 = true -> r1 = r2).
Proof.
  intros Hc w'.
  assert (Hc' : consistent w') by (now apply handlers_stay_consistent).
  split; [exact Hc' |].
  intros r1 r2. now apply consistent_at_most_one.
Qed.

(** X2.  No event makes a handler of the Menu call the action handler of a
    disabled item, or a handler other than the one the item holds: every
    action-handler call that a sequence of events adds to the log is the call
    of the handler of an enabled item.  The handlers never enable or disable
    an item and never replace its action handler. *)
Theorem handlers_call_enabled_items_only (inputs : list MenuPage.Input) (w : MenuPage.World) :
  let w0 := MenuPage.page w in
  let w' :=
    MenuPage.page
      (MenuPage.deliver distance KeyCodes_ENTER KeyCodes_SPACE KeyCodes_UP
         KeyCodes_DOWN KeyCodes_PAGE_UP KeyCodes_HOME KeyCodes_PAGE_DOWN
         KeyCodes_END inputs w) in
  (forall r, enabled w' r = enabled w0 r)
  /\ (forall r, MenuItem.actionHandler (MenuItem.items (store w') r)
                = MenuItem.actionHandler (MenuItem.items (store w0) r))
  /\ exists added,
       MenuItem.log (store w') = MenuItem.log (store w0) ++ added
       /\ forall h r, In (CallActionHandler h r) added ->
            enabled w0 r = true
            /\ MenuItem.actionHandler (MenuItem.items (store w0) r) = Some h.
Proof.
  intros w0 w'.
  destruct (handlers_act_in_order inputs w) as (He & Hh & added & Hl & Hf).
  split; [exact He |]. split; [exact Hh |].
  exists added. split; [exact Hl |].
  intros h r Hin. rewrite Forall_forall in Hf.
  apply list_elem_of_In in Hin. exact (Hf _ Hin).
Qed.

End PageStatements.
(** ** Methods that return *)

Section Returning.
Context {W : Type} (P : W -> Prop).

Lemma returns_ret {A} (a : A) : returns P (ret a).
Proof. intros w Hw. split; [exact Hw | now exists a]. Qed.



Lemma returns_bind {A B} (m : M W A) (k : A -> M W B) :
  returns P m -> (forall a, returns P (k a)) -> returns P (bind m k).
Proof.
  intros Hm Hk w Hw. unfold exec, bind.
  destruct (Hm w Hw) as [H1 [a Ha]]. unfold exec in H1.
  destruct (m w) as [w' o]. simpl in *. subst o.
  apply (Hk a w' H1).
Qed.

Lemma returns_for_each {A} (l : list A) (body : A -> M W unit) :
  (forall x, returns P (body x)) -> returns P (for_each l body).
Proof.
  intros Hb. induction l as [| x l IH]; simpl.
  - apply returns_ret.
  - apply returns_bind; [apply Hb | intros _; exact IH].
Qed.


End Returning.

(** ** Menu: a rendered menu *)

Module RenderedFacts.
Import Menu MenuFacts PageFacts.

Lemma ownerOf_Some w e r :
  ownerOf w e = Some r ->
  In r (menuItems (menu w))
  /\ MenuItem.element (MenuItem.items (store w) r) = Some e.
Proof.
  unfold ownerOf. intros H. apply find_some in H. destruct H as [Hin Hb].
  split; [exact Hin |]. now apply bool_decide_eq_true in Hb.
Qed.

(** [getMenuItem] answers with an item of the menu whose element is on the
    chain it walked. *)
Lemma getMenuItem_Some w child r :
  getMenuItem w child = Some r ->
  In r (menuItems (menu w))
  /\ exists e, In e child
       /\ MenuItem.element (MenuItem.items (store w) r) = Some e.
Proof.
  induction child as [| current parents IH]; simpl; [discriminate |].
  destruct (bool_decide (element (menu w) = Some current)); [discriminate |].
  assert (Hup : getMenuItem w parents = Some r ->
                In r (menuItems (menu w))
                /\ exists e, (current = e \/ In e parents)
                     /\ MenuItem.element (MenuItem.items (store w) r) = Some e).
  { intros H. destruct (IH H) as [Hin [e [He Hel]]]. eauto. }
  destruct (contains _ _); [| exact Hup].
  destruct (ownerOf w current) as [r' |] eqn:Eo; [| exact Hup].
  intros [= ->]. apply ownerOf_Some in Eo. destruct Eo as [Hin Hel]. eauto.
Qed.
























End RenderedFacts.

Section RenderedStatements.
Import Menu MenuFacts PageFacts RenderedFacts.

Variable distance : Coordinate -> Coordinate -> Q.
Variables KeyCodes_ENTER KeyCodes_SPACE KeyCodes_UP KeyCodes_DOWN : Z.
Variables KeyCodes_PAGE_UP KeyCodes_HOME KeyCodes_PAGE_DOWN KeyCodes_END : Z.


End RenderedStatements.
(** ** Menu: [render] and [dispose] *)

Module RenderFacts.
Import Menu MenuFacts PageFacts RenderedFacts.

Lemma contains_app_l l l' name :
  contains l name = true -> contains (l ++ l') name = true.
Proof.
  unfold contains. rewrite existsb_app. now intros ->.
Qed.

Lemma contains_cond_add c name l other :
  contains l other = true -> contains (MenuItem.cond_add c name l) other = true.
Proof.
  destruct c; simpl; [apply contains_app_l | tauto].
Qed.

(** One turn of the loop of [render]. *)
Lemma render_child child id (w : World) :
  (do! item (MenuItem.createDom child id) in ret tt) w
  = ({| menu := menu w; store := fst (MenuItem.createDom child id (store w)) |},
     Ret tt).
Proof. reflexivity. Qed.

(** The loop of [render] over [l]: every item of [l] gets an element made in
    this loop that carries the class [blocklyMenuItem], two items never the
    same one; elements made before and items outside [l] stay as they
    were. *)
Lemma render_children freshId l : forall w,
  let body := fun child => do! item (MenuItem.createDom child (freshId child)) in ret tt in
  let w' := exec (for_each l body) w in
  snd (for_each l body w) = Ret tt
  /\ menu w' = menu w
  /\ (MenuItem.nextElem (store w) <= MenuItem.nextElem (store w'))
  /\ (forall e, e < MenuItem.nextElem (store w) ->
        MenuItem.classList (store w') e = MenuItem.classList (store w) e)
  /\ (forall r, ~ In r l ->
        MenuItem.items (store w') r = MenuItem.items (store w) r)
  /\ (forall r, In r l ->
        exists e,
          MenuItem.element (MenuItem.items (store w') r) = Some e
          /\ MenuItem.nextElem (store w) <= e < MenuItem.nextElem (store w')
          /\ contains (MenuItem.classList (store w') e) "blocklyMenuItem" = true)
  /\ (forall r1 r2 e, In r1 l -> In r2 l ->
        MenuItem.element (MenuItem.items (store w') r1) = Some e ->
        MenuItem.element (MenuItem.items (store w') r2) = Some e -> r1 = r2).
Proof.
  induction l as [| x l IH]; intros w body w'.
  - subst w'. unfold exec. simpl.
    repeat split; try reflexivity; try tauto; try lia.
  - set (w1 := {| menu := menu w;
                  store := fst (MenuItem.createDom x (freshId x) (store w)) |}).
    assert (Hstep : for_each (x :: l) body w = for_each l body w1).
    { simpl. unfold bind at 1. unfold body at 1. now rewrite render_child. }
    assert (Hw' : w' = exec (for_each l body) w1).
    { unfold w', exec. now rewrite Hstep. }
    rewrite Hstep, Hw'. clear Hstep Hw' w'.
    destruct (IH w1) as (Hret & Hmenu & Hnext & Hclass & Hout & Hin & Hinj).
    fold body in Hret, Hmenu, Hnext, Hclass, Hout, Hin, Hinj.
    set (w' := exec (for_each l body) w1) in *.
    assert (Hn1 : MenuItem.nextElem (store w1) = S (MenuItem.nextElem (store w)))
      by reflexivity.
    assert (Hx : ~ In x l ->
              MenuItem.element (MenuItem.items (store w') x)
              = Some (MenuItem.nextElem (store w))
              /\ contains (MenuItem.classList (store w') (MenuItem.nextElem (store w)))
                   "blocklyMenuItem" = true).
    { intros Hnot. rewrite (Hout x Hnot), Hclass by lia.
      unfold w1. simpl. rewrite !upd_same. split; [reflexivity |].
      now repeat apply contains_cond_add. }
    split; [exact Hret |].
    split; [exact Hmenu |].
    split; [lia |].
    split.
    { intros e He. rewrite Hclass by lia. unfold w1. simpl.
      apply upd_other. lia. }
    split.
    { intros r Hnot. rewrite Hout by (intros H; apply Hnot; now right).
      unfold w1. simpl. apply upd_other. intros ->. apply Hnot. now left. }
    split.
    { intros r [<- | Hr].
      - destruct (in_dec Nat.eq_dec x l) as [Hxl | Hxl].
        + destruct (Hin x Hxl) as (e & He & Hrange & Hc).
          exists e. split; [exact He |]. split; [lia | exact Hc].
        + destruct (Hx Hxl) as [He Hc].
          exists (MenuItem.nextElem (store w)). split; [exact He |].
          split; [lia | exact Hc].
      - destruct (Hin r Hr) as (e & He & Hrange & Hc).
        exists e. split; [exact He |]. split; [lia | exact Hc]. }
    assert (Hfresh : forall r e, In r l -> ~ In x l ->
              MenuItem.element (MenuItem.items (store w') r) = Some e ->
              MenuItem.element (MenuItem.items (store w') x) = Some e -> r = x).
    { intros r e Hr Hxl He1 He2. destruct (Hx Hxl) as [He _].
      destruct (Hin r Hr) as (e' & He' & Hrange & _).
      rewrite He1 in He'. rewrite He2 in He. injection He' as <-. injection He as ->.
      lia. }
    intros r1 r2 e H1 H2 He1 He2.
    destruct (in_dec Nat.eq_dec x l) as [Hxl | Hxl].
    { apply (Hinj r1 r2 e); try assumption.
      - destruct H1 as [<- | H1]; assumption.
      - destruct H2 as [<- | H2]; assumption. }
    destruct H1 as [<- | H1], H2 as [<- | H2].
    + reflexivity.
    + symmetry. now apply (Hfresh r2 e).
    + now apply (Hfresh r1 e).
    + now apply (Hinj r1 r2 e).
Qed.

End RenderFacts.
Section RenderStatements.
Import Menu MenuFacts PageFacts RenderedFacts RenderFacts.

(** [render] is the making of the root followed by the loop over the
    children; it returns the root. *)
Lemma render_eq freshId w :
  let root := MenuItem.nextElem (store w) in
  let w0 :=
    {| menu := with_element (Some root) (menu w);
       store :=
         {| MenuItem.items := MenuItem.items (store w);
            MenuItem.classList :=
              upd (MenuItem.classList (store w)) root
                ["blocklyMenu"; "blocklyNonSelectable"];
            MenuItem.elemId := MenuItem.elemId (store w);
            MenuItem.nextElem := S root;
            MenuItem.log := MenuItem.log (store w) |} |} in
  render freshId w
  = (exec (for_each (menuItems (menu w))
             (fun child =>
                do! item (MenuItem.createDom child (freshId child)) in ret tt)) w0,
     Ret root).
Proof.
  intros root w0.
  destruct (render_children freshId (menuItems (menu w)) w0) as [Hret _].
  unfold render, exec.
  unfold bind at 1. unfold gets at 1. cbv beta iota.
  unfold bind at 1. unfold item at 1. unfold lift, modify. cbv beta iota.
  unfold bind at 1. cbv beta iota.
  unfold bind at 1. unfold gets at 1. cbv beta iota.
  unfold bind at 1. fold root. unfold set_menu, set_store. simpl menu. simpl store.
  fold w0.
  destruct (for_each _ _ w0) as [v o]. simpl in Hret. subst o. reflexivity.
Qed.

(** X4.  [render] returns the new root element and gives every item of the
    menu an element of its own; afterwards [getMenuItem], started at the
    element of an item, answers with that very item whatever the parents of
    the element are, and started at the root it answers
    null.  Every item has an element then. *)
Theorem render_then_getMenuItem (freshId : ItemRef -> string) (w : World) (r : ItemRef) :
  In r (menuItems (menu w)) ->
  let w' := exec (render freshId) w in
  exists root e,
    snd (render freshId w) = Ret root
    /\ element (menu w') = Some root
    /\ MenuItem.element (MenuItem.items (store w') r) = Some e
    /\ e <> root
    /\ (forall parents, getMenuItem w' (e :: parents) = Some r)
    /\ (forall parents, getMenuItem w' (root :: parents) = None)
    /\ MenuPage.rendered w'.
Proof.
  intros Hr w'.
  pose proof (render_eq freshId w) as Heq. cbv zeta in Heq.
  set (root := MenuItem.nextElem (store w)) in *.
  match type of Heq with
  | _ = (exec _ ?v, _) => set (w0 := v) in *
  end.
  destruct (render_children freshId (menuItems (menu w)) w0)
    as (_ & Hmenu & _ & _ & _ & Hin & Hinj).
  assert (Hw' : w' = exec (for_each (menuItems (menu w))
                             (fun child =>
                                do! item (MenuItem.createDom child (freshId child))
                                in ret tt)) w0).
  { unfold w', exec at 1. now rewrite Heq. }
  rewrite <- Hw' in Hmenu, Hin, Hinj.
  assert (Hitems : menuItems (menu w') = menuItems (menu w)) by (now rewrite Hmenu).
  assert (Hroot : element (menu w') = Some root) by (now rewrite Hmenu).
  destruct (Hin r Hr) as (e & He & Hrange & Hclass).
  assert (Hne : e <> root) by (simpl in Hrange; lia).
  exists root, e.
  split; [now rewrite Heq |].
  split; [exact Hroot |].
  split; [exact He |].
  split; [exact Hne |].
  split; [| split].
  - intros parents. simpl. rewrite Hroot.
    rewrite bool_decide_eq_false_2 by congruence.
    rewrite Hclass.
    destruct (ownerOf w' e) as [r' |] eqn:Eo.
    + apply ownerOf_Some in Eo. destruct Eo as [Hin' He'].
      rewrite Hitems in Hin'. f_equal. now apply (Hinj r' r e).
    + unfold ownerOf in Eo. rewrite Hitems in Eo.
      apply (find_none _ _ Eo) in Hr.
      apply bool_decide_eq_false in Hr. contradiction.
  - intros parents. simpl. rewrite Hroot.
    now rewrite bool_decide_eq_true_2.
  - intros r' Hr'. rewrite Hitems in Hr'.
    destruct (Hin r' Hr') as (e' & He' & _). now rewrite He'.
Qed.

End RenderStatements.
Section DisposeStatements.
Import Menu MenuFacts PageFacts RenderedFacts.

Lemma dispose_child child (w : World) :
  item (MenuItem.dispose child) w
  = ({| menu := menu w;
        store := MenuItem.set_item child (MenuItem.with_element None) (store w) |},
     Ret tt).
Proof. reflexivity. Qed.

(** The loop of [dispose]: the items of [l] lose their element and keep
    every other field; nothing else changes. *)
Lemma dispose_children l : forall w,
  let body := fun child => item (MenuItem.dispose child) in
  let w' := exec (for_each l body) w in
  snd (for_each l body w) = Ret tt
  /\ menu w' = menu w
  /\ MenuItem.log (store w') = MenuItem.log (store w)
  /\ MenuItem.classList (store w') = MenuItem.classList (store w)
  /\ (forall r, In r l ->
        MenuItem.items (store w') r
        = MenuItem.with_element None (MenuItem.items (store w) r))
  /\ (forall r, ~ In r l ->
        MenuItem.items (store w') r = MenuItem.items (store w) r).
Proof.
  induction l as [| x l IH]; intros w body w'.
  - subst w'. unfold exec. simpl. repeat split; try reflexivity; tauto.
  - set (w1 := {| menu := menu w;
                  store := MenuItem.set_item x (MenuItem.with_element None) (store w) |}).
    assert (Hstep : for_each (x :: l) body w = for_each l body w1).
    { simpl. unfold bind at 1. unfold body at 1. now rewrite dispose_child. }
    assert (Hw' : w' = exec (for_each l body) w1).
    { unfold w', exec. now rewrite Hstep. }
    rewrite Hstep, Hw'. clear Hstep Hw' w'.
    destruct (IH w1) as (Hret & Hmenu & Hlog & Hclass & Hin & Hout).
    fold body in Hret, Hmenu, Hlog, Hclass, Hin, Hout.
    split; [exact Hret |]. split; [exact Hmenu |].
    split; [exact Hlog |]. split; [exact Hclass |].
    assert (H1 : forall r,
              MenuItem.with_element None (MenuItem.items (store w1) r)
              = MenuItem.with_element None (MenuItem.items (store w) r)).
    { intros r. unfold w1. simpl. unfold upd.
      destruct (Nat.eqb_spec r x) as [-> |]; reflexivity. }
    split.
    + intros r Hr. destruct (in_dec Nat.eq_dec r l) as [Hrl | Hrl].
      * now rewrite Hin, H1.
      * destruct Hr as [<- | Hr]; [| contradiction].
        rewrite Hout by assumption. unfold w1. simpl. now rewrite upd_same.
    + intros r Hr. rewrite Hout by (intros H; apply Hr; now right).
      unfold w1. simpl. apply upd_other. intros ->. apply Hr. now left.
Qed.

(** X5.  [dispose] always returns; it takes the root element from the Menu
    and the element from each of its items, and leaves the highlight as it
    was (the field and every flag).  Afterwards [getMenuItem] answers null for
    every element, and [setHighlighted] of an item of the menu throws the
    [TypeError] of [getId] on a null element, after it made that item the
    highlighted one. *)
Theorem dispose_releases_elements (w : World) :
  let w' := exec dispose w in
  snd (dispose w) = Ret tt
  /\ element (menu w') = None
  /\ menuItems (menu w') = menuItems (menu w)
  /\ (forall r, In r (menuItems (menu w)) ->
        MenuItem.element (MenuItem.items (store w') r) = None)
  /\ highlightedItem (menu w') = highlightedItem (menu w)
  /\ (forall r, flag w' r = flag w r)
  /\ (forall target, getMenuItem w' target = None)
  /\ (forall r, In r (menuItems (menu w)) ->
        snd (setHighlighted (Some r) w')
        = Throw (TypeError "Cannot read properties of null (reading 'id')")
        /\ highlightedItem (menu (exec (setHighlighted (Some r)) w')) = Some r).
Proof.
  intros w'.
  destruct (dispose_children (menuItems (menu w)) w)
    as (Hret & Hmenu & Hlog & Hclass & Hin & Hout).
  cbv zeta in Hret, Hmenu, Hlog, Hclass, Hin, Hout.
  set (body := fun child => item (MenuItem.dispose child)) in *.
  assert (Heq : dispose w
                = (set_menu (with_element None)
                     (exec (for_each (menuItems (menu w)) body) w), Ret tt)).
  { unfold dispose, exec. unfold bind at 1. unfold gets at 1. cbv beta iota.
    unfold bind at 1. fold body.
    destruct (for_each (menuItems (menu w)) body w) as [v o].
    simpl in Hret. subst o. reflexivity. }
  set (v := exec (for_each (menuItems (menu w)) body) w) in *.
  assert (Hw' : w' = set_menu (with_element None) v).
  { unfold w', exec. now rewrite Heq. }
  assert (Helem : forall r, In r (menuItems (menu w)) ->
            MenuItem.element (MenuItem.items (store w') r) = None).
  { intros r Hr. rewrite Hw'. simpl. now rewrite (Hin r Hr). }
  assert (Hitems : menuItems (menu w') = menuItems (menu w)).
  { rewrite Hw'. simpl. now rewrite Hmenu. }
  split; [now rewrite Heq |].
  split; [now rewrite Hw' |].
  split; [exact Hitems |].
  split; [exact Helem |].
  split; [rewrite Hw'; simpl; now rewrite Hmenu |].
  split.
  { intros r. rewrite Hw'. unfold flag. simpl.
    destruct (in_dec Nat.eq_dec r (menuItems (menu w))) as [Hr | Hr].
    - now rewrite (Hin r Hr).
    - now rewrite (Hout r Hr). }
  split.
  { intros target.
    destruct (getMenuItem w' target) as [r |] eqn:Eg; [| reflexivity].
    apply getMenuItem_Some in Eg. destruct Eg as (Hr & e & _ & He).
    rewrite Hitems in Hr. rewrite (Helem r Hr) in He. discriminate. }
  intros r Hr. split; [| now rewrite setHighlighted_menu].
  pose proof (setHighlighted_Some r w') as H. cbv zeta in H. rewrite H.
  rewrite rehighlighted_element, (Helem r Hr). reflexivity.
Qed.

End DisposeStatements.
(** ** Menu: the walk over the enabled items *)

Module WalkFacts.
Import Menu MenuFacts PageFacts RenderedFacts.

Lemma at_index_middle (pre : list ItemRef) x rest :
  at_index (pre ++ x :: rest) (Z.of_nat (List.length pre)) = Some x.
Proof.
  unfold at_index. destruct (Z.ltb_spec (Z.of_nat (List.length pre)) 0); [lia |].
  rewrite Nat2Z.id. now rewrite list_lookup_middle.
Qed.

(** Walking up from the end of [pre]: the first enabled item of [rest]. *)
Lemma highlightLoop_up rest : forall pre fuel w,
  menuItems (menu w) = pre ++ rest -> List.length rest < fuel ->
  highlightLoop fuel (Z.of_nat (List.length pre)) 1 w
  = match head (List.filter (enabled w) rest) with
    | Some r => setHighlighted (Some r) w
    | None => (w, Ret tt)
    end.
Proof.
  induction rest as [| x rest IH]; intros pre fuel w Hl Hfuel;
    (destruct fuel as [| fuel]; [simpl in Hfuel; lia |]); rewrite highlightLoop_S, Hl.
  - rewrite at_index_outside; [reflexivity |].
    rewrite length_app. simpl. lia.
  - rewrite at_index_middle. simpl.
    destruct (enabled w x); [reflexivity |].
    replace (Z.of_nat (List.length pre) + 1)%Z
      with (Z.of_nat (List.length (pre ++ [x]))) by (rewrite length_app; simpl; lia).
    apply IH; [now rewrite <- app_assoc | simpl in Hfuel; lia].
Qed.

(** Walking down from the end of [pre]: the last enabled item of [pre]. *)
Lemma highlightLoop_down pre : forall post fuel w,
  menuItems (menu w) = pre ++ post -> List.length pre < fuel ->
  highlightLoop fuel (Z.of_nat (List.length pre) + -1) (-1) w
  = match last (List.filter (enabled w) pre) with
    | Some r => setHighlighted (Some r) w
    | None => (w, Ret tt)
    end.
Proof.
  induction pre as [| x pre IH] using rev_ind; intros post fuel w Hl Hfuel;
    (destruct fuel as [| fuel]; [simpl in Hfuel; lia |]); rewrite highlightLoop_S, Hl.
  - rewrite at_index_outside; [reflexivity |]. simpl. lia.
  - rewrite length_app in *. simpl List.length in *.
    replace (Z.of_nat (List.length pre + 1) + -1)%Z
      with (Z.of_nat (List.length pre)) by lia.
    rewrite <- app_assoc. simpl. rewrite at_index_middle.
    rewrite List.filter_app. simpl.
    destruct (enabled w x).
    + now rewrite last_snoc.
    + rewrite app_nil_r. apply (IH (x :: post)); [now rewrite Hl, <- app_assoc | lia].
Qed.

Lemma indexOf_middle (pre : list ItemRef) h post :
  ~ In h pre -> indexOf (pre ++ h :: post) h = Z.of_nat (List.length pre).
Proof.
  induction pre as [| a pre IH]; intros Hnot; simpl.
  - now rewrite Nat.eqb_refl.
  - destruct (Nat.eqb_spec a h) as [-> | Hne]; [exfalso; apply Hnot; now left |].
    rewrite IH by (intros H; apply Hnot; now right).
    destruct (Z.ltb_spec (Z.of_nat (List.length pre)) 0); lia.
Qed.

(** [highlightNext] and [highlightPrevious] around the highlighted item. *)
Lemma highlightNext_middle w pre h post :
  menuItems (menu w) = pre ++ h :: post -> ~ In h pre ->
  highlightedItem (menu w) = Some h ->
  highlightNext w
  = match head (List.filter (enabled w) post) with
    | Some r => setHighlighted (Some r) w
    | None => (w, Ret tt)
    end.
Proof.
  intros Hl Hnot Hh. unfold highlightNext, highlightHelper, currentIndex.
  rewrite Hh, Hl, indexOf_middle by assumption.
  replace (Z.of_nat (List.length pre) + 1)%Z
    with (Z.of_nat (List.length (pre ++ [h]))) by (rewrite length_app; simpl; lia).
  apply highlightLoop_up; [now rewrite <- app_assoc |].
  unfold enough. rewrite Hl, length_app. simpl. lia.
Qed.

Lemma highlightPrevious_middle w pre h post :
  menuItems (menu w) = pre ++ h :: post -> ~ In h pre ->
  highlightedItem (menu w) = Some h ->
  highlightPrevious w
  = match last (List.filter (enabled w) pre) with
    | Some r => setHighlighted (Some r) w
    | None => (w, Ret tt)
    end.
Proof.
  intros Hl Hnot Hh. unfold highlightPrevious, highlightHelper, currentIndex.
  rewrite Hh, Hl, indexOf_middle by assumption.
  destruct (Z.ltb_spec (Z.of_nat (List.length pre)) 0); [lia |].
  apply (highlightLoop_down pre (h :: post)); [exact Hl |].
  unfold enough. rewrite Hl, length_app. simpl. lia.
Qed.

Lemma highlightFirst_eq w :
  highlightFirst w
  = match head (MenuPage.enabledItems w) with
    | Some r => setHighlighted (Some r) w
    | None => (w, Ret tt)
    end.
Proof.
  unfold highlightFirst, highlightHelper.
  apply (highlightLoop_up (menuItems (menu w)) []); [reflexivity | apply enough_fuel].
Qed.

Lemma highlightLast_eq w :
  highlightLast w
  = match last (MenuPage.enabledItems w) with
    | Some r => setHighlighted (Some r) w
    | None => (w, Ret tt)
    end.
Proof.
  unfold highlightLast, highlightHelper.
  apply (highlightLoop_down (menuItems (menu w)) []);
    [now rewrite app_nil_r | apply enough_fuel].
Qed.

Lemma setHighlighted_enabledItems i w :
  MenuPage.enabledItems (exec (setHighlighted i) w) = MenuPage.enabledItems w.
Proof.
  unfold MenuPage.enabledItems. rewrite setHighlighted_menu. simpl.
  apply List.filter_ext. intros r. unfold enabled at 1.
  destruct (setHighlighted_store i w) as [Hi _]. rewrite Hi.
  apply rehighlighted_enabled.
Qed.

End WalkFacts.

Section WalkStatements.
Import Menu MenuFacts PageFacts RenderedFacts WalkFacts.

(** X6.  [highlightFirst] is [setHighlighted] of the first enabled item of
    the menu and [highlightLast] of the last enabled one, whatever was
    highlighted before; in a menu without an enabled item both leave the
    world as it is. *)
Theorem highlightFirst_and_Last_pick_the_ends (w : World) :
  highlightFirst w
  = match head (MenuPage.enabledItems w) with
    | Some r => setHighlighted (Some r) w
    | None => (w, Ret tt)
    end
  /\ highlightLast w
     = match last (MenuPage.enabledItems w) with
       | Some r => setHighlighted (Some r) w
       | None => (w, Ret tt)
       end.
Proof.
  split; [apply highlightFirst_eq | apply highlightLast_eq].
Qed.

End WalkStatements.
Section WalkOrder.
Import Menu MenuFacts PageFacts RenderedFacts WalkFacts.

Lemma highlightNext_enabledItems w :
  MenuPage.enabledItems (exec highlightNext w) = MenuPage.enabledItems w
  /\ menuItems (menu (exec highlightNext w)) = menuItems (menu w).
Proof.
  unfold exec, highlightNext, highlightHelper.
  destruct (highlightLoop_cases (enough w) (currentIndex w + 1) 1 w)
    as [H | [H | [r H]]]; rewrite H; simpl; try tauto.
  split; [apply setHighlighted_enabledItems |].
  change (fst (setHighlighted (Some r) w)) with (exec (setHighlighted (Some r)) w).
  now rewrite setHighlighted_menu.
Qed.

(** From nothing highlighted, [highlightNext] takes the first enabled
    item. *)
Lemma highlightNext_from_none w :
  highlightedItem (menu w) = None ->
  highlightedItem (menu (exec highlightNext w)) = head (MenuPage.enabledItems w).
Proof.
  intros Hn. unfold exec.
  assert (H : highlightNext w = highlightFirst w).
  { unfold highlightNext, highlightFirst, currentIndex. now rewrite Hn. }
  rewrite H, highlightFirst_eq.
  destruct (head (MenuPage.enabledItems w)) as [r |]; [| exact Hn].
  change (fst (setHighlighted (Some r) w)) with (exec (setHighlighted (Some r)) w).
  now rewrite setHighlighted_menu.
Qed.

(** From the enabled item at position [i] of the enabled items,
    [highlightNext] takes the one at position [i + 1], and stays where it is
    when there is none. *)
Lemma highlightNext_from_enabled w i h :
  NoDup (menuItems (menu w)) ->
  highlightedItem (menu w) = Some h ->
  MenuPage.enabledItems w !! i = Some h ->
  highlightedItem (menu (exec highlightNext w))
  = Some (default h (MenuPage.enabledItems w !! S i)).
Proof.
  intros Hnd Hh Hi.
  assert (Hin : In h (menuItems (menu w))).
  { apply list_elem_of_lookup_2, list_elem_of_In in Hi.
    unfold MenuPage.enabledItems in Hi. apply List.filter_In in Hi. tauto. }
  assert (Hen : enabled w h = true).
  { apply list_elem_of_lookup_2, list_elem_of_In in Hi.
    unfold MenuPage.enabledItems in Hi. apply List.filter_In in Hi. tauto. }
  apply in_split in Hin. destruct Hin as (pre & post & Hl).
  assert (Hpre : ~ In h pre).
  { rewrite Hl in Hnd. apply NoDup_app in Hnd. destruct Hnd as (_ & Hd & _).
    intros H. apply list_elem_of_In in H. apply (Hd h H). now left. }
  assert (Hsplit : MenuPage.enabledItems w
                   = List.filter (enabled w) pre ++ h :: List.filter (enabled w) post).
  { unfold MenuPage.enabledItems. rewrite Hl, List.filter_app. simpl. now rewrite Hen. }
  assert (Hnd' : NoDup (MenuPage.enabledItems w)).
  { apply NoDup_ListNoDup. unfold MenuPage.enabledItems.
    apply List.NoDup_filter. now apply NoDup_ListNoDup. }
  assert (Hpos : i = List.length (List.filter (enabled w) pre)).
  { apply (NoDup_lookup _ _ _ h Hnd' Hi).
    rewrite Hsplit. apply list_lookup_middle. reflexivity. }
  assert (Hnext : MenuPage.enabledItems w !! S i
                  = head (List.filter (enabled w) post)).
  { rewrite Hsplit, Hpos.
    rewrite lookup_app_r by lia.
    replace (S (List.length (List.filter (enabled w) pre))
             - List.length (List.filter (enabled w) pre)) with 1 by lia.
    simpl. now destruct (List.filter (enabled w) post). }
  rewrite Hnext. unfold exec.
  rewrite (highlightNext_middle w pre h post Hl Hpre Hh).
  destruct (head (List.filter (enabled w) post)) as [r |]; [| exact Hh].
  change (fst (setHighlighted (Some r) w)) with (exec (setHighlighted (Some r)) w).
  now rewrite setHighlighted_menu.
Qed.

Lemma iter_highlightNext_keeps k w :
  MenuPage.enabledItems (Nat.iter k (exec highlightNext) w) = MenuPage.enabledItems w
  /\ menuItems (menu (Nat.iter k (exec highlightNext) w)) = menuItems (menu w).
Proof.
  induction k as [| k [IH1 IH2]]; simpl; [tauto |].
  destruct (highlightNext_enabledItems (Nat.iter k (exec highlightNext) w)) as [H1 H2].
  split; congruence.
Qed.

(** X7.  In a menu whose items are distinct and in which nothing is
    highlighted, calling [highlightNext] again and again goes through the
    enabled items in the order of the array: after the call number [k + 1]
    the highlighted item is the enabled item at position [k], and once the
    last enabled item is reached the highlight stays on it (there is no
    wraparound).  In a menu without an enabled item nothing is ever
    highlighted. *)
Theorem highlightNext_visits_enabled_items_in_order (w : World) (k : nat) :
  NoDup (menuItems (menu w)) ->
  highlightedItem (menu w) = None ->
  highlightedItem (menu (Nat.iter (S k) (exec highlightNext) w))
  = MenuPage.enabledItems w
      !! Nat.min k (List.length (MenuPage.enabledItems w) - 1).
Proof.
  intros Hnd Hn. induction k as [| k IH].
  - simpl. rewrite highlightNext_from_none by exact Hn.
    now destruct (MenuPage.enabledItems w).
  - set (v := Nat.iter (S k) (exec highlightNext) w) in *.
    change (Nat.iter (S (S k)) (exec highlightNext) w) with (exec highlightNext v).
    destruct (iter_highlightNext_keeps (S k) w) as [Hen Hitems]. fold v in Hen, Hitems.
    set (n := List.length (MenuPage.enabledItems w)) in *.
    destruct (MenuPage.enabledItems w !! Nat.min k (n - 1)) as [h |] eqn:Eh.
    + pose proof (lookup_lt_Some _ _ _ Eh) as Hlt. fold n in Hlt.
      rewrite (highlightNext_from_enabled v (Nat.min k (n - 1)) h);
        [| now rewrite Hitems | exact IH | now rewrite Hen].
      rewrite Hen.
      destruct (Nat.lt_ge_cases (S k) n) as [Hk | Hk].
      * replace (Nat.min k (n - 1)) with k in * by lia.
        replace (Nat.min (S k) (n - 1)) with (S k) by lia.
        destruct (MenuPage.enabledItems w !! S k) as [h' |] eqn:E'; [reflexivity |].
        apply lookup_ge_None in E'. fold n in E'. lia.
      * replace (Nat.min (S k) (n - 1)) with (Nat.min k (n - 1)) by lia.
        rewrite Eh.
        rewrite (lookup_ge_None_2 _ (S (Nat.min k (n - 1)))) by (fold n; lia).
        reflexivity.
    + apply lookup_ge_None in Eh. fold n in Eh.
      assert (Hn0 : n = 0) by lia.
      replace (Nat.min (S k) (n - 1)) with 0 by lia.
      rewrite highlightNext_from_none by exact IH.
      rewrite Hen. destruct (MenuPage.enabledItems w); [reflexivity |].
      simpl in n. lia.
Qed.

End WalkOrder.
Section FocusStatements.
Import Menu MenuFacts PageFacts.

Lemma focus_eq w :
  MenuPage.focus w
  = match element (menu (MenuPage.page w)) with
    | None => (w, Ret tt)
    | Some root =>
        ({| MenuPage.page :=
              set_store
                (MenuItem.set_classList root (fun l => addClass l "blocklyFocused")
                   (store (MenuPage.page w)))
                (MenuPage.page w);
            MenuPage.activeElement := Some root |}, Ret tt)
    end.
Proof.
  destruct w as [[m s] a]. unfold MenuPage.focus, MenuPage.menu, getElement.
  unfold bind at 1. unfold lift at 1. unfold gets. simpl.
  destruct (element m); reflexivity.
Qed.

Lemma blur_eq w :
  MenuPage.blur w
  = match element (menu (MenuPage.page w)) with
    | None => (w, Ret tt)
    | Some root =>
        ({| MenuPage.page :=
              set_store
                (MenuItem.set_classList root (fun l => removeClass l "blocklyFocused")
                   (store (MenuPage.page w)))
                (MenuPage.page w);
            MenuPage.activeElement :=
              if bool_decide (MenuPage.activeElement w = Some root) then None
              else MenuPage.activeElement w |}, Ret tt)
    end.
Proof.
  destruct w as [[m s] a]. unfold MenuPage.blur, MenuPage.menu, getElement.
  unfold bind at 1. unfold lift at 1. unfold gets. simpl.
  destruct (element m) as [root |]; [| reflexivity].
  unfold bind, modify, MenuPage.set_class, MenuPage.menu, item, lift. simpl.
  destruct (bool_decide (a = Some root)); reflexivity.
Qed.

Lemma handleMouseLeave_eq w :
  MenuPage.handleMouseLeave w
  = match element (menu (MenuPage.page w)) with
    | None => (w, Ret tt)
    | Some root =>
        let b := exec MenuPage.blur w in
        (MenuPage.set_page (exec (setHighlighted None) (MenuPage.page b)) b, Ret tt)
    end.
Proof.
  unfold MenuPage.handleMouseLeave.
  unfold bind at 1. unfold MenuPage.menu at 1, lift at 1, getElement, gets.
  cbv beta iota. 
  destruct (element (menu (MenuPage.page w))) as [root |] eqn:E;
    [| destruct w; reflexivity].
  assert (Hw : MenuPage.set_page (MenuPage.page w) w = w) by (destruct w; reflexivity).
  rewrite Hw. unfold bind, exec. rewrite blur_eq, E. simpl.
  unfold MenuPage.menu, lift. simpl. rewrite setHighlighted_None. reflexivity.
Qed.

(** The highlight only ever switches the class [blocklyMenuItemHighlight]. *)
Lemma highlighted_world_other_class this b s e other :
  other <> "blocklyMenuItemHighlight" ->
  contains (MenuItem.classList (MenuItem.highlighted_world this b s) e) other
  = contains (MenuItem.classList s e) other.
Proof.
  intros Hne. unfold MenuItem.highlighted_world.
  destruct (MenuItem.element (MenuItem.items s this)) as [e' |]; [| reflexivity].
  destruct (negb _); [reflexivity |].
  destruct b; simpl; unfold upd;
    (destruct (Nat.eqb_spec e e') as [-> |]; [| reflexivity]).
  - now apply contains_addClass_other.
  - now apply contains_removeClass_other.
Qed.

Lemma rehighlighted_other_class i w e other :
  other <> "blocklyMenuItemHighlight" ->
  contains (MenuItem.classList (rehighlighted i w) e) other
  = contains (MenuItem.classList (store w) e) other.
Proof.
  intros Hne. unfold rehighlighted.
  destruct i as [it |], (highlightedItem (menu w)) as [old |];
    rewrite ?highlighted_world_other_class by exact Hne; reflexivity.
Qed.

(** X8.  The pointer entering a rendered menu gives its root the class
    [blocklyFocused]; the pointer leaving takes the class away again and
    clears the highlight: no item is the highlighted one, the item that was
    has its flag cleared, no other flag changes, and nothing is scrolled or
    told to ARIA.  On a menu that has no root element both handlers leave
    the world as it is.  Neither handler throws. *)
Theorem pointer_enter_and_leave (w : MenuPage.World) :
  let entered := exec MenuPage.handleMouseEnter w in
  let left := exec MenuPage.handleMouseLeave w in
  snd (MenuPage.handleMouseEnter w) = Ret tt
  /\ snd (MenuPage.handleMouseLeave w) = Ret tt
  /\ match element (menu (MenuPage.page w)) with
     | None => entered = w /\ left = w
     | Some root =>
         contains (MenuItem.classList (store (MenuPage.page entered)) root)
           "blocklyFocused" = true
         /\ contains (MenuItem.classList (store (MenuPage.page left)) root)
              "blocklyFocused" = false
         /\ highlightedItem (menu (MenuPage.page left)) = None
         /\ (forall r, flag (MenuPage.page left) r
                       = if bool_decide (highlightedItem (menu (MenuPage.page w)) = Some r)
                         then false else flag (MenuPage.page w) r)
         /\ MenuItem.log (store (MenuPage.page left))
            = MenuItem.log (store (MenuPage.page w))
     end.
Proof.
  intros entered left. subst entered left.
  unfold MenuPage.handleMouseEnter, exec.
  rewrite focus_eq, handleMouseLeave_eq.
  destruct (element (menu (MenuPage.page w))) as [root |] eqn:E;
    [| repeat split; reflexivity].
  cbv zeta. unfold exec. rewrite blur_eq, E.
  cbn [fst snd MenuPage.page MenuPage.activeElement MenuPage.set_page].
  rewrite setHighlighted_None.
  cbn [fst snd MenuPage.page MenuPage.activeElement menu store set_store].
  split; [reflexivity |]. split; [reflexivity |].
  split; [simpl; rewrite upd_same; apply contains_addClass |].
  split.
  { rewrite rehighlighted_other_class by discriminate.
    simpl. rewrite upd_same. apply contains_removeClass. }
  split; [reflexivity |].
  split.
  { intros r.
    pose proof (rehighlighted_flag None
                  (set_store
                     (MenuItem.set_classList root
                        (fun l => removeClass l "blocklyFocused")
                        (store (MenuPage.page w))) (MenuPage.page w)) r) as H.
    unfold flag in *. simpl in H. simpl. rewrite H.
    destruct (highlightedItem (menu (MenuPage.page w))) as [old |].
    - destruct (Nat.eqb_spec r old) as [-> | Hne].
      + now rewrite bool_decide_eq_true_2.
      + rewrite bool_decide_eq_false_2 by congruence. reflexivity.
    - reflexivity. }
  rewrite rehighlighted_log. reflexivity.
Qed.

End FocusStatements.
(** ** MenuItem: [createDom] *)

Section CreateDomStatements.
Import MenuItem.

Lemma contains_cond_add_here c name l :
  contains l name = false -> contains (cond_add c name l) name = c.
Proof.
  intros Hl. destruct c; simpl; [| exact Hl].
  unfold contains. rewrite existsb_app. simpl.
  now rewrite String.eqb_refl, orb_true_r.
Qed.

Lemma contains_cond_add_other c name l other :
  other <> name -> contains (cond_add c name l) other = contains l other.
Proof.
  intros Hne. destruct c; simpl; [| reflexivity].
  unfold contains. rewrite existsb_app. simpl.
  apply String.eqb_neq in Hne. now rewrite Hne, !orb_false_r.
Qed.

(** X9.  [createDom] returns a new element, which the item then gives as
    its element and whose generated id [getId] reads back.  The classes of
    the element show the state of the item at that moment:
    [blocklyMenuItem] always, [blocklyMenuItemDisabled] exactly when the item
    is not enabled, [blocklyMenuItemSelected] when it is checked,
    [blocklyMenuItemHighlight] when its highlight flag is set (also on a
    disabled item) and [blocklyMenuItemRtl] when it is right to left.  No
    other item and no other element changes. *)
Theorem createDom_classes_show_state (this : ItemRef) (freshId : string) (w : World) :
  let w' := exec (createDom this freshId) w in
  let e := nextElem w in
  let i := items w this in
  createDom this freshId w = (w', Ret e)
  /\ getElement this w' = (w', Ret (Some e))
  /\ getId this w' = (w', Ret freshId)
  /\ contains (classList w' e) "blocklyMenuItem" = true
  /\ contains (classList w' e) "blocklyMenuItemDisabled" = negb (enabled i)
  /\ contains (classList w' e) "blocklyMenuItemSelected" = checked i
  /\ contains (classList w' e) "blocklyMenuItemHighlight" = highlight i
  /\ contains (classList w' e) "blocklyMenuItemRtl" = rightToLeft i
  /\ (forall r, r <> this -> items w' r = items w r)
  /\ (forall e', e' <> e -> classList w' e' = classList w e').
Proof.
  intros w' e i.
  assert (Hclasses : classList w' e
            = cond_add (rightToLeft i) "blocklyMenuItemRtl"
                (cond_add (highlight i) "blocklyMenuItemHighlight"
                   (cond_add (checked i) "blocklyMenuItemSelected"
                      (cond_add (negb (enabled i)) "blocklyMenuItemDisabled"
                         ["blocklyMenuItem"])))).
  { unfold w', exec, createDom. simpl. apply upd_same. }
  split; [reflexivity |].
  split; [unfold getElement, gets, w', exec, createDom; simpl; now rewrite upd_same |].
  split.
  { unfold getId, getElement, bind, gets, w', exec, createDom. simpl.
    rewrite upd_same. simpl. now rewrite upd_same. }
  rewrite Hclasses.
  split; [now rewrite !contains_cond_add_other by discriminate |].
  split.
  { rewrite !contains_cond_add_other by discriminate.
    now apply contains_cond_add_here. }
  split.
  { rewrite !contains_cond_add_other by discriminate.
    apply contains_cond_add_here.
    now rewrite contains_cond_add_other by discriminate. }
  split.
  { rewrite !contains_cond_add_other by discriminate.
    apply contains_cond_add_here.
    now rewrite !contains_cond_add_other by discriminate. }
  split.
  { apply contains_cond_add_here.
    now rewrite !contains_cond_add_other by discriminate. }
  split.
  - intros r Hr. unfold w', exec, createDom. simpl. now apply upd_other.
  - intros e' He'. unfold w', exec, createDom. simpl. now apply upd_other.
Qed.

End CreateDomStatements.
(** ** MarkerManager: registering, failing and disposing *)

Section MarkerRoundTrips.
Import MarkerManager MarkerFacts.

(** X10.  On a manager in a tidy state [registerMarker (id, marker)] returns,
    and [getMarker (id)] then gives that marker, while every other id gives
    what it gave before.  A marker that was registered under the id is
    disposed first, once, before the drawer of the new marker is made; the
    new marker holds the new drawer.  [unregisterMarker (id)] after it leaves
    the id without a marker: the earlier one does not come back. *)
Theorem registerMarker_then_getMarker (id : string) (marker : MarkerRef) (w : World) :
  tidy w ->
  let d := nextDrawer w in
  let w' := exec (registerMarker id marker) w in
  snd (registerMarker id marker w) = Ret tt
  /\ getMarker id w' = (w', Ret (Some marker))
  /\ (forall id', id' <> id -> getMarker id' w' = (w', Ret (markers w !! id')))
  /\ drawerOf w' marker = Some d
  /\ calls w'
     = calls w
       ++ match markers w !! id with
          | Some old => [MarkerDispose old]
          | None => []
          end
       ++ [MakeMarkerDrawer marker d; CreateDom d d]
  /\ snd (unregisterMarker id w') = Ret tt
  /\ markers (exec (unregisterMarker id) w') = delete id (markers w).
Proof.
  intros Ht d w'.
  destruct (registerMarker_tidy id marker w Ht) as (Hret & _ & _ & Hm & _ & _).
  cbv zeta in Hret, Hm. fold w' in Hm.
  assert (Hrest : drawerOf w' marker = Some d
                  /\ calls w' = calls (drawn id marker w)).
  { unfold w', exec. revert Hret. rewrite registerMarker_eq. cbv zeta.
    destruct (blockCanvas w) as [children |]; [| intros _; simpl; now rewrite upd_same].
    destruct (cursorSvg_ w) as [c |]; [| intros _; simpl; now rewrite upd_same].
    destruct (insertBefore _ c children); [discriminate |].
    intros _. simpl. now rewrite upd_same. }
  destruct Hrest as [Hd Hc].
  split; [exact Hret |].
  split; [unfold getMarker, gets; now rewrite Hm, lookup_insert_eq |].
  split.
  { intros id' Hne. unfold getMarker, gets. now rewrite Hm, lookup_insert_ne. }
  split; [exact Hd |].
  split; [rewrite Hc; unfold drawn; simpl; now rewrite <- app_assoc |].
  unfold unregisterMarker, exec, bind, gets. rewrite Hm, lookup_insert_eq. simpl.
  split; [reflexivity |]. rewrite Hm. apply delete_insert_eq.
Qed.

(** X11.  When the manager holds a cursor node that is no child of the block
    canvas, [registerMarker] throws the [NotFoundError] of [insertBefore]
    half way: a marker registered under the id before has been disposed and
    removed by then and the new drawer has been made, but the new marker is
    not in the map, so [getMarker (id)] gives null; the canvas is
    untouched. *)
Theorem registerMarker_fails_half_way
  (id : string) (marker : MarkerRef) (w : World) (children : list Node) (c : Node) :
  blockCanvas w = Some children ->
  cursorSvg_ w = Some c ->
  ~ In c children ->
  let d := nextDrawer w in
  let w' := exec (registerMarker id marker) w in
  (exists msg, snd (registerMarker id marker w) = Throw (NotFoundError msg))
  /\ getMarker id w' = (w', Ret None)
  /\ (forall id', id' <> id -> markers w' !! id' = markers w !! id')
  /\ blockCanvas w' = Some children
  /\ calls w'
     = calls w
       ++ match markers w !! id with
          | Some old => [MarkerDispose old]
          | None => []
          end
       ++ [MakeMarkerDrawer marker d; CreateDom d d].
Proof.
  intros Hc Hcs Hnot d w'.
  assert (Hthrow : exists msg, insertBefore d c children = inl (NotFoundError msg)).
  { unfold insertBefore.
    destruct (existsb (Nat.eqb c) children) eqn:E; [| simpl; eauto].
    apply is_child_spec, list_elem_of_In in E. contradiction. }
  destruct Hthrow as [msg Hmsg].
  assert (Heq : registerMarker id marker w
                = (drawn id marker w, Throw (NotFoundError msg))).
  { rewrite registerMarker_eq. cbv zeta. fold d. now rewrite Hc, Hcs, Hmsg. }
  assert (Hw' : w' = drawn id marker w) by (unfold w', exec; now rewrite Heq).
  split; [exists msg; now rewrite Heq |].
  rewrite Hw'. unfold getMarker, gets, drawn. simpl.
  split.
  { destruct (markers w !! id) eqn:E; [now rewrite lookup_delete_eq | now rewrite E]. }
  split.
  { intros id' Hne. destruct (markers w !! id); [now rewrite lookup_delete_ne |].
    reflexivity. }
  split; [exact Hc |].
  now rewrite <- app_assoc.
Qed.

End MarkerRoundTrips.

Section MarkerDisposalStatements.
Import MarkerManager MarkerFacts MarkerDisposal.

Lemma unregisterMarker_present id marker w :
  markers w !! id = Some marker ->
  unregisterMarker id w
  = ({| cursor_ := cursor_ w; markerSvg_ := markerSvg_ w; cursorSvg_ := cursorSvg_ w;
        markers := delete id (markers w); blockCanvas := blockCanvas w;
        drawerOf := drawerOf w; nextDrawer := nextDrawer w;
        calls := calls w ++ [MarkerDispose marker] |}, Ret tt).
Proof.
  intros H. unfold unregisterMarker, bind, gets. rewrite H. reflexivity.
Qed.

Lemma disposals_ext keys w w1 :
  (forall id, id ∈ keys -> markers w1 !! id = markers w !! id) ->
  disposals keys w1 = disposals keys w.
Proof.
  unfold disposals, omap.
  induction keys as [| k keys IH]; intros H; [reflexivity |].
  simpl. rewrite H by now left.
  rewrite IH; [reflexivity |]. intros id Hid. apply H. now right.
Qed.

(** The loop of [dispose] over keys that are all in the map, each once. *)
Lemma dispose_loop keys : forall w,
  NoDup keys -> (forall id, id ∈ keys -> is_Some (markers w !! id)) ->
  let w' := exec (for_each keys (fun marker => unregisterMarker marker)) w in
  snd (for_each keys (fun marker => unregisterMarker marker) w) = Ret tt
  /\ calls w' = calls w ++ disposals keys w
  /\ cursor_ w' = cursor_ w /\ cursorSvg_ w' = cursorSvg_ w
  /\ markerSvg_ w' = markerSvg_ w /\ blockCanvas w' = blockCanvas w
  /\ drawerOf w' = drawerOf w /\ nextDrawer w' = nextDrawer w.
Proof.
  induction keys as [| id keys IH]; intros w Hnd Hin w'.
  - subst w'. unfold exec, disposals. simpl. rewrite app_nil_r. tauto.
  - apply NoDup_cons in Hnd. destruct Hnd as [Hnot Hnd].
    destruct (Hin id) as [marker Hm]; [now left |].
    set (w1 := exec (unregisterMarker id) w).
    assert (Hstep : for_each (id :: keys) (fun marker => unregisterMarker marker) w
                    = for_each keys (fun marker => unregisterMarker marker) w1).
    { simpl. unfold bind at 1, w1, exec.
      now rewrite (unregisterMarker_present id marker w Hm). }
    assert (Hw1 : markers w1 = delete id (markers w) /\ calls w1 = calls w ++ [MarkerDispose marker]
                  /\ cursor_ w1 = cursor_ w /\ cursorSvg_ w1 = cursorSvg_ w
                  /\ markerSvg_ w1 = markerSvg_ w /\ blockCanvas w1 = blockCanvas w
                  /\ drawerOf w1 = drawerOf w /\ nextDrawer w1 = nextDrawer w).
    { unfold w1, exec. rewrite (unregisterMarker_present id marker w Hm). simpl. tauto. }
    destruct Hw1 as (Hm1 & Hc1 & H1 & H2 & H3 & H4 & H5 & H6).
    assert (Hw' : w' = exec (for_each keys (fun marker => unregisterMarker marker)) w1).
    { unfold w', exec. now rewrite Hstep. }
    assert (Hother : forall id', id' ∈ keys -> markers w1 !! id' = markers w !! id').
    { intros id' Hid'. rewrite Hm1. apply lookup_delete_ne. intros <-. contradiction. }
    destruct (IH w1 Hnd) as (Hret & Hcalls & G1 & G2 & G3 & G4 & G5 & G6).
    { intros id' Hid'. rewrite Hother by exact Hid'. apply Hin. now right. }
    rewrite Hstep, Hw'. split; [exact Hret |].
    split.
    { rewrite Hcalls, Hc1, <- app_assoc. f_equal.
      rewrite (disposals_ext keys w w1 Hother).
      unfold disposals. simpl. now rewrite Hm. }
    repeat split; congruence.
Qed.

(** X12.  [dispose] of the manager never throws, although it goes through
    [unregisterMarker]: every registered marker is disposed once, in the
    order of the keys, then the cursor if there is one; afterwards no id has
    a marker and [getCursor] gives null.  The manager takes no node from the
    block canvas and keeps the cursor node it remembers. *)
Theorem dispose_unregisters_every_marker (keys : list string) (w : World) :
  keys_of keys w ->
  let w' := exec (dispose keys) w in
  snd (dispose keys w) = Ret tt
  /\ (forall id, getMarker id w' = (w', Ret None))
  /\ getCursor w' = (w', Ret None)
  /\ calls w'
     = calls w ++ disposals keys w
       ++ match cursor_ w with
          | Some cursor => [MarkerDispose cursor]
          | None => []
          end
  /\ blockCanvas w' = blockCanvas w
  /\ cursorSvg_ w' = cursorSvg_ w.
Proof.
  intros [Hnd Hkeys] w'.
  destruct (dispose_loop keys w Hnd) as (Hret & Hcalls & H1 & H2 & H3 & H4 & H5 & H6).
  { intros id Hid. now apply Hkeys. }
  cbv zeta in Hret, Hcalls, H1, H2, H3, H4, H5, H6.
  set (loop := for_each keys (fun marker => unregisterMarker marker)) in *.
  assert (Heq : dispose keys w
                = match cursor_ w with
                  | Some cursor =>
                      (with_cursor_ None
                         (exec (call (MarkerDispose cursor))
                            (with_markers ∅ (exec loop w))), Ret tt)
                  | None => (with_markers ∅ (exec loop w), Ret tt)
                  end).
  { unfold dispose. fold loop. unfold bind at 1. unfold exec in *.
    destruct (loop w) as [v o]. simpl in *. subst o.
    unfold bind, modify, gets. simpl. rewrite H1.
    destruct (cursor_ w); reflexivity. }
  unfold w', exec at 1 2 3 4 5 6 7. rewrite Heq.
  destruct (cursor_ w) as [cursor |]; simpl;
    unfold getMarker, getCursor, gets; simpl.
  - split; [reflexivity |]. split; [intros id; now rewrite lookup_empty |].
    split; [reflexivity |]. split; [| now split].
    rewrite Hcalls. now rewrite <- app_assoc.
  - split; [reflexivity |]. split; [intros id; now rewrite lookup_empty |].
    split; [now rewrite H1 |]. split; [| now split].
    rewrite Hcalls. now rewrite app_nil_r.
Qed.

End MarkerDisposalStatements.
(** ** Default shortcuts: when they may run and what they then do *)

Section ShortcutGuards.
Import Shortcuts.

Variable c : Collaborators.

Lemma registered_V0 :
  exec (V0.registerDefaultShortcuts c) []
  = [V0.escape c; V0.delete c; V0.copy c; V0.cut c; V0.paste c; V0.undo c; V0.redo c].
Proof. reflexivity. Qed.

Lemma registered_V1 :
  exec (V1.registerDefaultShortcuts c) []
  = [V1.escape c; V1.delete c; V1.copy c; V1.cut c; V1.paste c; V1.undo c; V1.redo c].
Proof. reflexivity. Qed.

(** X13.  What the preconditions of the seven default shortcuts allow, in
    both variants.  In a read-only workspace none of them holds.  While a
    gesture is in progress only those of escape and delete can hold.  They
    nest: where cut may run copy may, where copy may run delete and paste
    may, where delete may run escape may; undo, redo and paste may run in
    exactly the same situations. *)
Theorem default_preconditions_nest (workspace : WorkspaceSvg) (e : Ext c) :
  let registry :=
    exec (V0.registerDefaultShortcuts c) [] ++ exec (V1.registerDefaultShortcuts c) [] in
  let may (s : KeyboardShortcut c) := preconditionFn s workspace e in
  (options_readOnly workspace = true ->
   forall s, In s registry -> may s = false)
  /\ (inProgress c e = true ->
      forall s, In s registry -> may s = true ->
        name s = Names_Escape \/ name s = Names_Delete)
  /\ (forall s, In s registry -> may s = true -> may (V0.escape c) = true)
  /\ (may (V0.cut c) = true -> may (V0.copy c) = true)
  /\ (may (V0.copy c) = true ->
      may (V0.delete c) = true /\ may (V0.paste c) = true)
  /\ may (V0.undo c) = may (V0.redo c)
  /\ may (V0.undo c) = may (V0.paste c)
  /\ (forall s1, In s1 (exec (V1.registerDefaultShortcuts c) []) ->
        exists s0, In s0 (exec (V0.registerDefaultShortcuts c) [])
          /\ name s0 = name s1 /\ may s0 = may s1).
Proof.
  intros registry may. subst registry. rewrite registered_V0, registered_V1.
  unfold may.
  split.
  { intros Hro s Hs.
    repeat (destruct Hs as [<- | Hs];
            [simpl; rewrite Hro; simpl; try reflexivity;
             now destruct (inProgress c e) |]).
    destruct Hs. }
  split.
  { intros Hg s Hs Hm.
    repeat (destruct Hs as [<- | Hs];
            [first [ now left | now right
                   | simpl in Hm; rewrite Hg in Hm;
                     destruct (options_readOnly workspace); discriminate Hm ] |]).
    destruct Hs. }
  split.
  { intros s Hs Hm.
    repeat (destruct Hs as [<- | Hs];
            [simpl in *; destruct (options_readOnly workspace);
             [try discriminate Hm; now destruct (inProgress c e) | reflexivity] |]).
    destruct Hs. }
  split.
  { simpl. destruct (options_readOnly workspace), (inProgress c e),
      (getSelected c e) as [[i [] [] [] []] |]; simpl; tauto. }
  split.
  { simpl. destruct (options_readOnly workspace), (inProgress c e),
      (getSelected c e) as [[i [] [] [] []] |]; simpl; intros H;
      try discriminate H; now split. }
  split; [simpl; apply andb_comm |].
  split; [reflexivity |].
  intros s1 Hs.
  repeat (destruct Hs as [<- | Hs];
          [first [ exists (V0.escape c); split; [simpl; tauto | now split]
                 | exists (V0.delete c); split; [simpl; tauto | now split]
                 | exists (V0.copy c); split; [simpl; tauto | now split]
                 | exists (V0.cut c); split; [simpl; tauto | now split]
                 | exists (V0.paste c); split; [simpl; tauto | now split]
                 | exists (V0.undo c); split; [simpl; tauto | now split]
                 | exists (V0.redo c); split; [simpl; tauto | now split] ] |]).
  destruct Hs.
Qed.

End ShortcutGuards.
Section ShortcutCallbacks.
Import Shortcuts ShortcutGuard.

Variable c : Collaborators.

(** X14.  When [preventDefault] and [hideChaff] leave the selection and the
    gesture alone, a callback that is run where its precondition holds does
    not throw, in either variant.  Delete returns false without deleting
    while a gesture is in progress, and otherwise deletes the selected
    object, which is deletable.  Copy hands the selected object, never null,
    to the clipboard, after [preventDefault] and [hideChaff].  Cut copies the
    selected object first and deletes that same object next, and makes no
    other call. *)
Theorem guarded_callbacks_do_not_throw
  (workspace : WorkspaceSvg) (event : KeyEvent) (w : World c) :
  quiet c ->
  (forall s, s = V0.delete c \/ s = V1.delete c ->
     preconditionFn s workspace (ext w) = true ->
     exists selected,
       getSelected c (ext w) = Some selected /\ isDeletable selected = true
       /\ (if inProgress c (ext w)
           then snd (callback s workspace event w) = Ret false
                /\ calls (exec (callback s workspace event) w)
                   = calls w ++ [EventPreventDefault event]
           else snd (callback s workspace event w) = Ret true
                /\ calls (exec (callback s workspace event) w)
                   = calls w ++ [EventPreventDefault event; CheckAndDelete selected]))
  /\ (forall s, s = V0.copy c \/ s = V1.copy c ->
        preconditionFn s workspace (ext w) = true ->
        exists selected,
          getSelected c (ext w) = Some selected
          /\ snd (callback s workspace event w) = Ret true
          /\ calls (exec (callback s workspace event) w)
             = calls w ++ [EventPreventDefault event; HideChaff workspace;
                           ClipboardCopy (Some selected)])
  /\ (forall s, s = V0.cut c \/ s = V1.cut c ->
        preconditionFn s workspace (ext w) = true ->
        exists selected,
          getSelected c (ext w) = Some selected
          /\ snd (callback s workspace event w) = Ret true
          /\ calls (exec (callback s workspace event) w)
             = calls w ++ [ClipboardCopy (Some selected); CheckAndDelete selected]).
Proof.
  intros Hq.
  assert (Hpd : forall e, getSelected c (react c (EventPreventDefault event) e)
                          = getSelected c e
                          /\ inProgress c (react c (EventPreventDefault event) e)
                             = inProgress c e).
  { intros e. apply Hq. left. now exists event. }
  assert (Hhc : forall e, getSelected c (react c (HideChaff workspace) e)
                          = getSelected c e).
  { intros e. apply Hq. right. now exists workspace. }
  split; [| split].
  - intros s Hs Hpre.
    assert (Hcb : callback s workspace event w
                  = callback (V0.delete c) workspace event w)
      by (destruct Hs as [-> | ->]; reflexivity).
    assert (Hpre0 : preconditionFn (V0.delete c) workspace (ext w) = true)
      by (destruct Hs as [-> | ->]; exact Hpre).
    clear Hpre Hs. simpl in Hpre0.
    apply andb_true_iff in Hpre0. destruct Hpre0 as [_ Hsel].
    destruct (getSelected c (ext w)) as [selected |] eqn:Es; [| discriminate].
    exists selected. split; [reflexivity |]. split; [exact Hsel |].
    unfold exec. rewrite Hcb, delete_callback_eq. cbv zeta.
    unfold exec, call, modify. simpl.
    destruct (Hpd (ext w)) as [Hs1 Hg1]. rewrite Hg1, Hs1, Es.
    destruct (inProgress c (ext w)); simpl.
    + split; reflexivity.
    + split; [reflexivity |]. now rewrite <- app_assoc.
  - intros s Hs Hpre.
    assert (Hcb : callback s workspace event w
                  = callback (V0.copy c) workspace event w)
      by (destruct Hs as [-> | ->]; reflexivity).
    assert (Hpre0 : preconditionFn (V0.copy c) workspace (ext w) = true)
      by (destruct Hs as [-> | ->]; exact Hpre).
    clear Hpre Hs. simpl in Hpre0.
    apply andb_true_iff in Hpre0. destruct Hpre0 as [_ Hsel].
    destruct (getSelected c (ext w)) as [selected |] eqn:Es; [| discriminate].
    exists selected. split; [reflexivity |].
    unfold exec. rewrite Hcb.
    cbv [V0.copy callback bind call query gets modify ret fst snd]. simpl.
    rewrite Hhc. destruct (Hpd (ext w)) as [Hs1 _]. rewrite Hs1, Es.
    split; [reflexivity |]. now rewrite <- !app_assoc.
  - intros s Hs Hpre.
    assert (Hcb : callback s workspace event w
                  = callback (V0.cut c) workspace event w)
      by (destruct Hs as [-> | ->]; reflexivity).
    assert (Hpre0 : preconditionFn (V0.cut c) workspace (ext w) = true)
      by (destruct Hs as [-> | ->]; exact Hpre).
    clear Hpre Hs. simpl in Hpre0.
    apply andb_true_iff in Hpre0. destruct Hpre0 as [_ Hsel].
    destruct (getSelected c (ext w)) as [selected |] eqn:Es; [| discriminate].
    exists selected. split; [reflexivity |].
    unfold exec. rewrite Hcb.
    cbv [V0.cut callback bind call query gets modify ret fst snd]. simpl.
    rewrite Es. simpl.
    split; [reflexivity |]. now rewrite <- !app_assoc.
Qed.

End ShortcutCallbacks.
(** ** ToolboxCategory: colours that resolve *)

Section ToolboxResolves.
Import ToolboxCategory.

Variable replaceMessageReferences : string -> option string.
Variable Number : string -> option Q.
Variable hueToHex : Q -> string.
Variable parse : string -> option string.

Lemma parseColour_frame value w :
  (exists s, parseColour_ replaceMessageReferences Number hueToHex parse value w
             = (w, Ret s))
  \/ exists msg,
       warned msg w (parseColour_ replaceMessageReferences Number hueToHex parse value w).
Proof.
  unfold parseColour_, warned.
  destruct (replaceMessageReferences value) as [color |]; [| left; now eexists].
  destruct (String.eqb color ""); [left; now eexists |].
  destruct (Number color); [left; now eexists |].
  destruct (truthy (parse color)); [left; now eexists |].
  right. now eexists.
Qed.

Lemma colourFromStyle_eq name w :
  getColourfromStyle_ replaceMessageReferences Number hueToHex parse name w
  = if String.eqb name "" then (w, Ret "")
    else match theme w with
         | None => (w, Ret "")
         | Some th =>
             let colour :=
               match categoryStyles th !! name with
               | Some style => style_colour style
               | None => None
               end in
             if truthy colour
             then parseColour_ replaceMessageReferences Number hueToHex parse
                    (default "" colour) w
             else ({| name_ := name_ w; theme := theme w;
                      warnings := warnings w ++ [style_missing name] |}, Ret "")
         end.
Proof.
  unfold getColourfromStyle_.
  destruct (String.eqb name ""); [reflexivity |].
  unfold bind, gets. destruct (theme w) as [th |] eqn:E; [| reflexivity].
  cbv zeta. destruct (truthy _); [reflexivity |].
  unfold warn, modify, ret. simpl. now rewrite E.
Qed.

Lemma colourFromStyle_frame name w :
  (exists s, getColourfromStyle_ replaceMessageReferences Number hueToHex parse name w
             = (w, Ret s))
  \/ exists msg,
       warned msg w
         (getColourfromStyle_ replaceMessageReferences Number hueToHex parse name w).
Proof.
  rewrite colourFromStyle_eq.
  destruct (String.eqb name ""); [left; now eexists |].
  destruct (theme w) as [th |] eqn:E; [| left; now eexists].
  cbv zeta. destruct (truthy _); [apply parseColour_frame |].
  right. unfold warned. rewrite E. now eexists.
Qed.

Lemma getColour_frame category w :
  (exists s, getColour_ replaceMessageReferences Number hueToHex parse category w
             = (w, Ret s))
  \/ exists msg,
       warned msg w (getColour_ replaceMessageReferences Number hueToHex parse category w).
Proof.
  unfold getColour_.
  destruct (truthy (colour category) && truthy _).
  { right. unfold warned. now eexists. }
  destruct (truthy (nullish _ _)); [apply colourFromStyle_frame |].
  destruct (truthy (colour category)); [apply parseColour_frame |].
  left. now eexists.
Qed.

Lemma getColour_returns category w :
  exists s,
    snd (getColour_ replaceMessageReferences Number hueToHex parse category w) = Ret s.
Proof.
  destruct (getColour_frame category w) as [[s H] | [msg H]]; rewrite H; now eexists.
Qed.

(** X15.  [getColour_] changes nothing but the console: either it leaves the
    world exactly as it was, or it has printed one warning and then its
    result is the empty string; a colour other than the empty string is
    never given together with a warning.  A colour of the category that,
    after its message references are replaced, is a number gives the hex
    value of that hue, and one that [colourUtils.parse] knows gives what
    [parse] gives, both without a warning. *)
Theorem getColour_warns_only_with_empty_result (category : CategoryInfo) (w : World) :
  let resolve := getColour_ replaceMessageReferences Number hueToHex parse in
  let styleName := nullish (categorystyle category) (categoryStyle category) in
  ((exists s, resolve category w = (w, Ret s))
   \/ exists msg, warned msg w (resolve category w))
  /\ (forall value color hue,
        truthy styleName = false -> colour category = Some value -> value <> "" ->
        replaceMessageReferences value = Some color -> color <> "" ->
        Number color = Some hue ->
        resolve category w = (w, Ret (hueToHex hue)))
  /\ (forall value color hex,
        truthy styleName = false -> colour category = Some value -> value <> "" ->
        replaceMessageReferences value = Some color -> color <> "" ->
        Number color = None -> parse color = Some hex -> hex <> "" ->
        resolve category w = (w, Ret hex)).
Proof.
  intros resolve styleName. unfold resolve, getColour_. fold styleName.
  split; [| split].
  - apply getColour_frame.
  - intros value color hue Hs Hc Hv Hr Hne Hn. rewrite Hs, Hc. simpl.
    apply String.eqb_neq in Hv, Hne. rewrite Hv. simpl.
    unfold parseColour_. now rewrite Hr, Hne, Hn.
  - intros value color hex Hs Hc Hv Hr Hne Hn Hp Hh. rewrite Hs, Hc. simpl.
    apply String.eqb_neq in Hv, Hne, Hh. rewrite Hv. simpl.
    unfold parseColour_. rewrite Hr, Hne, Hn, Hp. simpl. now rewrite Hh.
Qed.

(** X16.  A category that names a style of the theme gets the colour that a
    category with the colour value of that style would get, warnings
    included.  On a workspace without a theme a style resolves to the empty
    string and nothing is printed.  The key [categorystyle], once present,
    hides the key [categoryStyle] (also when its value is the empty
    string). *)
Theorem style_resolves_like_its_colour (category : CategoryInfo) (w : World) :
  let resolve := getColour_ replaceMessageReferences Number hueToHex parse in
  let styleName := nullish (categorystyle category) (categoryStyle category) in
  (forall name th style,
     truthy (colour category) = false ->
     styleName = Some name -> name <> "" -> theme w = Some th ->
     categoryStyles th !! name = Some style ->
     truthy (style_colour style) = true ->
     resolve category w
     = resolve {| categorystyle := None; categoryStyle := None;
                  colour := style_colour style |} w)
  /\ (truthy (colour category) = false -> truthy styleName = true ->
      theme w = None -> resolve category w = (w, Ret ""))
  /\ (forall s,
        categorystyle category = Some s ->
        resolve category w
        = resolve {| categorystyle := Some s; categoryStyle := None;
                     colour := colour category |} w).
Proof.
  intros resolve styleName. unfold resolve, getColour_. fold styleName.
  split; [| split].
  - intros name th style Hc Hs Hne Hth Hst Hcol. rewrite Hc, Hs. simpl.
    apply String.eqb_neq in Hne. rewrite Hne, Hcol. simpl.
    rewrite colourFromStyle_eq, Hne, Hth, Hst. cbv zeta. now rewrite Hcol.
  - intros Hc Hs Hth. rewrite Hc, Hs. simpl.
    rewrite colourFromStyle_eq, Hth. now destruct (String.eqb _ "").
  - intros s Hs. unfold styleName. rewrite Hs. reflexivity.
Qed.

End ToolboxResolves.
(** ** ToolboxCategory: flyout contents and the colour border *)

Section FlyoutStatements.
Import ToolboxCategory ToolboxFlyout.

Variable FlyoutDefinition : Type.
Variable convertFlyoutDefToJsonArray : FlyoutDefinition -> list FlyoutItemInfo.

(** X17.  [updateFlyoutContents] replaces what the flyout shows:
    [getContents] gives the string for a dynamic category, or the converted
    array, whatever was there before, and a second call with the same
    argument changes nothing more.  [parseContents_] on its own adds to an
    array instead: the contents of a definition without [custom] are
    appended to the items present, and are dropped when the category is
    dynamic at that moment; a definition with [custom] makes the category
    dynamic. *)
Theorem updateFlyoutContents_replaces
  (contents' : string + FlyoutDefinition) (w : World) :
  let update := updateFlyoutContents FlyoutDefinition convertFlyoutDefToJsonArray in
  let w' := exec (update contents') w in
  snd (update contents' w) = Ret tt
  /\ getContents w' = (w', Ret (shown FlyoutDefinition convertFlyoutDefToJsonArray contents'))
  /\ exec (update contents') w' = w'
  /\ (forall def items new,
        custom def = None -> contents def = Some new ->
        flyoutItems_ w = Items items ->
        parseContents_ def w = (with_flyoutItems_ (Items (items ++ new)) w, Ret tt))
  /\ (forall def name,
        custom def = None -> flyoutItems_ w = Custom name ->
        parseContents_ def w = (w, Ret tt))
  /\ (forall def name,
        custom def = Some name ->
        parseContents_ def w = (with_flyoutItems_ (Custom name) w, Ret tt)).
Proof.
  intros update w'. subst update w'. unfold exec.
  split; [destruct contents'; reflexivity |].
  split; [destruct contents'; reflexivity |].
  split.
  { destruct contents' as [s | d], w as [def items];
      unfold updateFlyoutContents, parseContents_, with_flyoutItems_,
        with_toolboxItemDef_, bind, gets, modify; simpl; reflexivity. }
  split.
  { intros def items new Hc Hn Hf. unfold parseContents_. rewrite Hc, Hn.
    unfold bind, gets. now rewrite Hf. }
  split.
  { intros def name Hc Hf. unfold parseContents_. rewrite Hc.
    destruct (contents def); [| reflexivity].
    unfold bind, gets. now rewrite Hf. }
  intros def name Hc. unfold parseContents_. now rewrite Hc.
Qed.

Variable replaceMessageReferences : string -> option string.
Variable Number : string -> option Q.
Variable hueToHex : Q -> string.
Variable parse : string -> option string.

(** X18.  The definition [updateFlyoutContents] leaves in [toolboxItemDef_]
    keeps [kind], [id], [hidden], [cssconfig], [categorystyle] and [colour]
    of the old one.  It has no key [categoryStyle] and no key [cssConfig];
    it has the old name (or the empty string) when the contents are static
    and no name when they are a string.  So the colour [getColour_] finds
    for the category afterwards is the one of the old definition without
    its [categoryStyle]: a category whose style was given under that key
    only, and that has no colour, resolves to the empty string without a
    warning. *)
Theorem updateFlyoutContents_copies_named_keys
  (contents' : string + FlyoutDefinition) (w : World) (c : ToolboxCategory.World) :
  let update := updateFlyoutContents FlyoutDefinition convertFlyoutDefToJsonArray in
  let resolve := getColour_ replaceMessageReferences Number hueToHex parse in
  let old := toolboxItemDef_ w in
  let new := toolboxItemDef_ (exec (update contents') w) in
  kind new = kind old /\ id new = id old /\ hidden new = hidden old
  /\ cssconfig new = cssconfig old /\ cssConfig new = None
  /\ categorystyle (colours new) = categorystyle (colours old)
  /\ colour (colours new) = colour (colours old)
  /\ categoryStyle (colours new) = None
  /\ name new = match contents' with
                | inl _ => None
                | inr _ => Some (default "" (name old))
                end
  /\ (categorystyle (colours old) <> None ->
      resolve (colours new) c = resolve (colours old) c)
  /\ (categorystyle (colours old) = None -> truthy (colour (colours old)) = false ->
      resolve (colours new) c = (c, Ret "")).
Proof.
  intros update resolve old new. subst update resolve old new.
  destruct w as [def items].
  destruct contents' as [s | d]; unfold exec; simpl;
    (repeat (split; [try reflexivity; now destruct (name def) |]));
    (split;
     [ intros Hs; unfold getColour_; simpl;
       destruct (categorystyle (colours def)); [reflexivity | contradiction]
     | intros Hs Hc; unfold getColour_; simpl; rewrite Hs, Hc; reflexivity ]).
Qed.

End FlyoutStatements.

Section BorderStatements.
Import ToolboxCategory ToolboxBorder.

Variable replaceMessageReferences : string -> option string.
Variable Number : string -> option Q.
Variable hueToHex : Q -> string.
Variable parse : string -> option string.

Lemma addColourBorder_eq color w :
  addColourBorder_ color w
  = if String.eqb color "" then (w, Ret tt)
    else match rowDiv_ w with
         | None =>
             (w, Throw (TypeError
                "Cannot destructure property 'style' of 'this.rowDiv_' as it is null."))
         | Some style =>
             (with_rowDiv_
                (Some (if RTL w
                       then {| borderLeft := borderLeft style;
                               borderRight := ("8px solid " ++ color)%string |}
                       else {| borderLeft := ("8px solid " ++ color)%string;
                               borderRight := borderRight style |})) w, Ret tt)
         end.
Proof.
  unfold addColourBorder_.
  destruct (String.eqb color "") eqn:E; [reflexivity |].
  unfold bind, gets, throw, modify. cbv zeta.
  destruct (rowDiv_ w) as [style |]; [| reflexivity].
  destruct (RTL w); reflexivity.
Qed.

(** X19.  [refreshTheme] stores the colour that [getColour_] finds for the
    definition, warnings included.  When that colour is the empty string
    the row keeps the border it had: an earlier colour stays visible.
    Otherwise the border [8px solid] of the colour is written to the right
    side of the row in a right-to-left workspace and to the left side in
    others, and the other side is left alone; a category that has no row
    yet throws a [TypeError] then, after the colour was stored. *)
Theorem refreshTheme_border (w : World) :
  let resolve := getColour_ replaceMessageReferences Number hueToHex parse in
  let refresh := refreshTheme replaceMessageReferences Number hueToHex parse in
  let w' := exec refresh w in
  exists c,
    snd (resolve (toolboxItemDef_ w) (console w)) = Ret c
    /\ colour_ w' = c
    /\ console w' = exec (resolve (toolboxItemDef_ w)) (console w)
    /\ (c = "" -> rowDiv_ w' = rowDiv_ w /\ snd (refresh w) = Ret tt)
    /\ (forall style,
          c <> "" -> rowDiv_ w = Some style ->
          snd (refresh w) = Ret tt
          /\ rowDiv_ w'
             = Some (if RTL w
                     then {| borderLeft := borderLeft style;
                             borderRight := ("8px solid " ++ c)%string |}
                     else {| borderLeft := ("8px solid " ++ c)%string;
                             borderRight := borderRight style |}))
    /\ (c <> "" -> rowDiv_ w = None ->
        exists msg, snd (refresh w) = Throw (TypeError msg)).
Proof.
  intros resolve refresh w'.
  destruct (getColour_returns replaceMessageReferences Number hueToHex parse
              (toolboxItemDef_ w) (console w)) as [c Hc].
  fold resolve in Hc. exists c. split; [exact Hc |].
  assert (Heq : refresh w
                = addColourBorder_ c
                    (with_colour_ c
                       (set_console (exec (resolve (toolboxItemDef_ w)) (console w)) w))).
  { unfold refresh, refreshTheme, exec. fold resolve.
    unfold bind at 1. unfold gets at 1. cbv beta iota.
    unfold bind at 1. unfold lift.
    destruct (resolve (toolboxItemDef_ w) (console w)) as [cw o].
    simpl in Hc. subst o. reflexivity. }
  unfold w'. unfold exec. rewrite Heq, addColourBorder_eq.
  destruct (String.eqb_spec c "") as [-> | Hne]; simpl.
  - split; [reflexivity |]. split; [reflexivity |].
    split; [now split |]. split; [intros style H; contradiction |].
    intros H. contradiction.
  - destruct (rowDiv_ w) as [style |] eqn:Er; simpl.
    + split; [reflexivity |]. split; [reflexivity |].
      split; [intros H; contradiction |].
      split; [intros style' _ [= <-]; now split |]. intros _ H. discriminate.
    + split; [reflexivity |]. split; [reflexivity |].
      split; [intros H; contradiction |].
      split; [intros style' _ H; discriminate |]. intros _ _. now eexists.
Qed.

End BorderStatements.
(** ** ZoomControls: where the buttons are drawn *)

Section ZoomStatements.
Import ZoomControls ZoomLayout.

Variable UiMetrics : Type.
Variable getCornerOppositeToolbox : UiMetrics -> Position.
Variable getStartPositionRect :
  Position -> Size -> Q -> Q -> UiMetrics -> Rect.
Variable bumpPositionRect : Rect -> Q -> bumpDirection -> list Rect -> Rect.

Lemma ready_made movable : made (ready movable).
Proof.
  split; [now destruct movable |].
  exists 0, 1, 2. destruct movable; simpl; repeat split; lia.
Qed.

Lemma ready_rests movable side : rests side (ready movable).
Proof. destruct movable, side; reflexivity. Qed.

(** X20.  [position] on controls that were made and initialized, for any
    metrics, when the button that the side of the given corner leaves
    unwritten is at offset 0.  That is so on the first call after
    [createDom] and [init], and it is still so after the call, hence on
    every later call for a corner on the same side.  The controls are moved
    to the left and top of the rectangle that the helpers give for a size of
    32 by the height of the controls (66, or 109 with a reset button),
    bumped down from a top corner and up from a bottom one;
    [getBoundingRectangle] then is that place with that size.  The buttons
    are drawn inside that height and no two of them overlap.  On controls
    that were not initialized [position] does nothing. *)
Theorem position_stacks_the_buttons
  (metrics : UiMetrics) (savedPositions : list Rect) (w : World) :
  let place :=
    position UiMetrics getCornerOppositeToolbox getStartPositionRect bumpPositionRect in
  let w' := exec (place metrics savedPositions) w in
  let corner := getCornerOppositeToolbox metrics in
  let height :=
    match zoomResetGroup w with
    | Some _ => 109%Q
    | None => 66%Q
    end in
  let rect :=
    bumpPositionRect
      (getStartPositionRect corner {| width := 32; height := height |} 20 20 metrics)
      20
      match vertical corner with TOP => DOWN | BOTTOM => UP end
      savedPositions in
  (made w -> rests (vertical corner) w ->
   snd (place metrics savedPositions w) = Ret tt
   /\ getBoundingRectangle w'
      = (w', Ret {| top := top rect; bottom := (top rect + height)%Q;
                    left := left rect; right := (left rect + 32)%Q |})
   /\ offset w' (svgGroup w') = Some (top rect)
   /\ inside w' (offset w' (zoomOutGroup w'))
   /\ inside w' (offset w' (zoomInGroup w'))
   /\ inside w' (offset w' (zoomResetGroup w'))
   /\ apart (offset w' (zoomOutGroup w')) (offset w' (zoomInGroup w'))
   /\ apart (offset w' (zoomInGroup w')) (offset w' (zoomResetGroup w'))
   /\ apart (offset w' (zoomOutGroup w')) (offset w' (zoomResetGroup w'))
   /\ made w' /\ rests (vertical corner) w')
  /\ (forall movable side, made (ready movable) /\ rests side (ready movable))
  /\ (initialized w = false -> place metrics savedPositions w = (w, Ret tt)).
Proof.
  intros place w' corner height rect.
  split; [| split].
  - intros [Hinit (s & o & i & Hs & Ho & Hi & Hso & Hsi & Hoi & Hr)] Hrest.
    subst place w' height rect corner.
    destruct w as [reset out inn svg l t init tr nn mov].
    simpl in Hinit, Hs, Ho, Hi, Hr, Hrest. subst init svg out inn.
    unfold exec, position, getBoundingRectangle, controlsHeight, setTransform,
      with_position, bind, gets, modify, ret.
    unfold rests, offset in Hrest.
    assert (Hoff : forall y : Q, Some y = Some 0%Q -> y = 0%Q) by (intros y [= ->]; reflexivity).
    destruct (vertical (getCornerOppositeToolbox metrics));
      destruct reset as [r |]; simpl in Hrest |- *;
      try (destruct Hr as (Hrs & Hro & Hri));
      try (pose proof (Hoff _ Hrest) as Hzero);
      unfold made, rests, inside, apart, offset, controlsHeight; simpl;
      repeat match goal with
             | |- _ /\ _ => split
             end;
      try (exists s, o, i; repeat split; assumption);
      unfold upd in *;
      repeat match goal with
             | |- context [Nat.eqb ?a ?b] =>
                 destruct (Nat.eqb_spec a b); try congruence
             end;
      try rewrite Hzero;
      try reflexivity; try exact I; try exact Hrest;
      try (vm_compute; discriminate);
      try (left; vm_compute; discriminate);
      try (right; vm_compute; discriminate).
    all: try (exists s, o, i; repeat split; assumption).
  - intros movable side. split; [apply ready_made | apply ready_rests].
  - intros Hinit. unfold place, position, bind, gets. now rewrite Hinit.
Qed.


End ZoomStatements.
(** ** Icon: the group of the icon *)

Section IconStatements.
Import Icon.

Lemma createIcon_eq w :
  createIcon w
  = match iconGroup_ w with
    | Some _ => (w, Ret tt)
    | None =>
        let g := nextNode w in
        match block_ w with
        | None =>
            ({| block_ := None; iconGroup_ := Some g; hasBubble := hasBubble w;
                classList := upd (classList w) g ["blocklyIconGroup"];
                nextNode := S g; calls := calls w |},
             Throw (Error "Block is not set for this icon."))
        | Some b =>
            ({| block_ :=
                  Some {| isInFlyout := isInFlyout b;
                          svgRoot := MarkerManager.appendChild g (svgRoot b) |};
                iconGroup_ := Some g; hasBubble := hasBubble w;
                classList :=
                  (let made := upd (classList w) g ["blocklyIconGroup"] in
                   if isInFlyout b
                   then upd made g (addClass (made g) "blocklyIconGroupReadonly")
                   else made);
                nextNode := S g;
                calls := calls w ++ [DrawIcon_ g; ConditionalBind g; UpdateEditable] |},
             Ret tt)
        end
    end.
Proof.
  destruct w as [b g h cl n c].
  unfold createIcon, getBlock, drawIcon_, updateEditable, call, createSvgElement,
    bind, gets, modify, ret, throw, with_iconGroup_, with_svgRoot.
  simpl. destruct g as [g |]; [reflexivity |]. simpl.
  destruct b as [[flyout root] |]; simpl; [| reflexivity].
  destruct flyout; simpl; rewrite <- ?app_assoc; reflexivity.
Qed.

(** X22.  The group of an icon is made once.  [createIcon] on an icon that
    has its group returns without doing anything.  On an icon that has none
    it makes the group, marks it read-only when the block is in a flyout,
    draws the icon, appends the group to the SVG root of the block and binds
    the click; [dispose] then takes the group out of the root again but the
    icon keeps it, so a later [createIcon] does not put the icon back.  On
    an icon without a block [createIcon] throws, after it stored the new
    group: the next call returns as if the icon had been created. *)
Theorem createIcon_makes_the_group_once (w : World) :
  (iconGroup_ w <> None -> createIcon w = (w, Ret tt))
  /\ (forall b,
        fresh w -> block_ w = Some b ->
        let g := nextNode w in
        let w1 := exec createIcon w in
        let w2 := exec dispose w1 in
        snd (createIcon w) = Ret tt
        /\ iconGroup_ w1 = Some g
        /\ children w1 = svgRoot b ++ [g]
        /\ contains (classList w1 g) "blocklyIconGroupReadonly" = isInFlyout b
        /\ calls w1 = calls w ++ [DrawIcon_ g; ConditionalBind g; UpdateEditable]
        /\ children w2 = svgRoot b
        /\ iconGroup_ w2 = Some g
        /\ createIcon w2 = (w2, Ret tt))
  /\ (iconGroup_ w = None -> block_ w = None ->
      snd (createIcon w) = Throw (Error "Block is not set for this icon.")
      /\ iconGroup_ (exec createIcon w) = Some (nextNode w)
      /\ createIcon (exec createIcon w) = (exec createIcon w, Ret tt)).
Proof.
  split; [| split].
  - intros H. rewrite createIcon_eq. destruct (iconGroup_ w); [reflexivity | contradiction].
  - intros b [Hg Hold] Hb g w1 w2.
    assert (Hnew : g ∉ svgRoot b).
    { intros Hin. assert (g < nextNode w); [| unfold g in *; lia].
      apply Hold. unfold children. now rewrite Hb. }
    assert (H1 : createIcon w = (w1, Ret tt) /\ iconGroup_ w1 = Some g
                 /\ children w1 = svgRoot b ++ [g]
                 /\ contains (classList w1 g) "blocklyIconGroupReadonly" = isInFlyout b
                 /\ calls w1 = calls w ++ [DrawIcon_ g; ConditionalBind g; UpdateEditable]).
    { unfold w1, exec. rewrite createIcon_eq, Hg, Hb. cbv zeta. fold g.
      unfold children. simpl.
      rewrite MarkerFacts.appendChild_new by exact Hnew.
      repeat split; try reflexivity.
      destruct (isInFlyout b); simpl; rewrite !upd_same; reflexivity. }
    destruct H1 as (Heq & Hg1 & Hc1 & Hcl & Hcalls).
    assert (H2 : iconGroup_ w2 = Some g /\ children w2 = svgRoot b).
    { unfold w2, exec, dispose, removeNode, setVisible, call, bind, gets, modify.
      rewrite Hg1. simpl. split; [exact Hg1 |].
      unfold children in *. simpl. destruct (block_ w1) as [b1 |]; simpl in *.
      - rewrite Hc1. unfold MarkerManager.without. rewrite filter_app.
        fold (MarkerManager.without g (svgRoot b)).
        rewrite MarkerFacts.without_absent by exact Hnew.
        rewrite filter_cons_False by (intros H; now apply H).
        rewrite filter_nil. now rewrite app_nil_r.
      - now destruct (svgRoot b). }
    destruct H2 as [Hg2 Hc2].
    split; [now rewrite Heq |]. split; [exact Hg1 |]. split; [exact Hc1 |].
    split; [exact Hcl |]. split; [exact Hcalls |]. split; [exact Hc2 |].
    split; [exact Hg2 |]. rewrite createIcon_eq, Hg2. reflexivity.
  - intros Hg Hb. unfold exec. rewrite createIcon_eq, Hg, Hb. simpl.
    split; [reflexivity |]. split; [reflexivity |].
    rewrite createIcon_eq. reflexivity.
Qed.

End IconStatements.
(** ** The statements above on the sample worlds *)


Lemma handlers_keep_one_highlight_witness :
  Menu.consistent (MenuPage.page SampleMore.page3)
  /\ forall r1 r2,
       Menu.flag (MenuPage.page (SampleMore.deliver SampleMore.events SampleMore.page3)) r1
       = true ->
       Menu.flag (MenuPage.page (SampleMore.deliver SampleMore.events SampleMore.page3)) r2
       = true ->
       r1 = r2.
Proof.
  split; [apply MenuFacts.fresh_consistent, sample_menu_fresh |].
  exact (proj2 (handlers_keep_one_highlight Sample.axis_distance 13 32 38 40 33 36 34 35
                  SampleMore.events SampleMore.page3
                  (MenuFacts.fresh_consistent _ sample_menu_fresh))).
Defined.


Lemma render_then_getMenuItem_witness :
  In 2 (Menu.menuItems (Menu.menu SampleMore.menu3_unrendered))
  /\ exists root e,
       snd (Menu.render Sample.id_of SampleMore.menu3_unrendered) = Ret root
       /\ Menu.getMenuItem (exec (Menu.render Sample.id_of) SampleMore.menu3_unrendered)
            [e; root] = Some 2.
Proof.
  assert (H : In 2 (Menu.menuItems (Menu.menu SampleMore.menu3_unrendered)))
    by (vm_compute; tauto).
  split; [exact H |].
  destruct (render_then_getMenuItem Sample.id_of SampleMore.menu3_unrendered 2 H)
    as (root & e & Hroot & _ & _ & _ & Hfind & _).
  exists root, e. split; [exact Hroot | apply Hfind].
Defined.

Lemma highlightNext_visits_enabled_items_in_order_witness :
  NoDup (Menu.menuItems (Menu.menu Sample.menu3))
  /\ Menu.highlightedItem (Menu.menu Sample.menu3) = None
  /\ Menu.highlightedItem
       (Menu.menu (Nat.iter 2 (exec Menu.highlightNext) Sample.menu3)) = Some 2.
Proof.
  assert (Hnd : NoDup (Menu.menuItems (Menu.menu Sample.menu3))).
  { apply NoDup_ListNoDup. vm_compute. repeat constructor; simpl; lia. }
  split; [exact Hnd |]. split; [reflexivity |].
  rewrite (highlightNext_visits_enabled_items_in_order Sample.menu3 1 Hnd eq_refl).
  reflexivity.
Defined.

Lemma registerMarker_then_getMarker_witness :
  MarkerManager.tidy (MarkerManager.new Sample.canvas2)
  /\ MarkerManager.getMarker "m1"
       (exec (MarkerManager.registerMarker "m1" 10) (MarkerManager.new Sample.canvas2))
     = (exec (MarkerManager.registerMarker "m1" 10) (MarkerManager.new Sample.canvas2),
        Ret (Some 10)).
Proof.
  assert (Ht : MarkerManager.tidy (MarkerManager.new Sample.canvas2)).
  { apply MarkerFacts.new_tidy. apply NoDup_ListNoDup. vm_compute.
    repeat constructor; simpl; lia. }
  split; [exact Ht |].
  destruct (registerMarker_then_getMarker "m1" 10 (MarkerManager.new Sample.canvas2) Ht)
    as (_ & Hget & _).
  exact Hget.
Defined.

Lemma registerMarker_fails_half_way_witness :
  MarkerManager.blockCanvas SampleMore.lost_cursor = Some [1; 2]
  /\ MarkerManager.cursorSvg_ SampleMore.lost_cursor = Some 9
  /\ ~ In 9 [1; 2]
  /\ MarkerManager.getMarker "m1"
       (exec (MarkerManager.registerMarker "m1" 10) SampleMore.lost_cursor)
     = (exec (MarkerManager.registerMarker "m1" 10) SampleMore.lost_cursor, Ret None).
Proof.
  assert (Hnot : ~ In 9 [1; 2]) by (simpl; lia).
  split; [reflexivity |]. split; [reflexivity |]. split; [exact Hnot |].
  destruct (registerMarker_fails_half_way "m1" 10 SampleMore.lost_cursor [1; 2] 9
              eq_refl eq_refl Hnot) as (_ & Hget & _).
  exact Hget.
Defined.

Lemma sample_keys : MarkerDisposal.keys_of ["m1"] SampleMore.one_marker.
Proof.
  split; [apply NoDup_singleton |].
  intros id. simpl. rewrite list_elem_of_singleton, lookup_singleton_is_Some.
  split; congruence.
Qed.

Lemma dispose_unregisters_every_marker_witness :
  MarkerDisposal.keys_of ["m1"] SampleMore.one_marker
  /\ MarkerManager.calls (exec (MarkerDisposal.dispose ["m1"]) SampleMore.one_marker)
     = [MarkerManager.MarkerDispose 10; MarkerManager.MarkerDispose 5].
Proof.
  split; [exact sample_keys |].
  destruct (dispose_unregisters_every_marker ["m1"] SampleMore.one_marker sample_keys)
    as (_ & _ & _ & Hcalls & _).
  rewrite Hcalls. reflexivity.
Defined.

Lemma sample_collaborators_quiet : ShortcutGuard.quiet Sample.collaborators.
Proof.
  intros x e [[event ->] | [ws ->]]; split; reflexivity.
Qed.

Lemma guarded_callbacks_do_not_throw_witness :
  ShortcutGuard.quiet Sample.collaborators
  /\ exists selected,
       Shortcuts.getSelected Sample.collaborators (Shortcuts.ext Sample.idle)
       = Some selected
       /\ snd (Shortcuts.callback (Shortcuts.V0.cut Sample.collaborators)
                 Sample.workspace 0 Sample.idle) = Ret true
       /\ Shortcuts.calls
            (exec (Shortcuts.callback (Shortcuts.V0.cut Sample.collaborators)
                     Sample.workspace 0) Sample.idle)
          = Shortcuts.calls Sample.idle
            ++ [Shortcuts.ClipboardCopy (Some selected);
                Shortcuts.CheckAndDelete selected].
Proof.
  split; [exact sample_collaborators_quiet |].
  destruct (guarded_callbacks_do_not_throw Sample.collaborators Sample.workspace 0
              Sample.idle sample_collaborators_quiet) as (_ & _ & Hcut).
  apply (Hcut (Shortcuts.V0.cut Sample.collaborators)); [now left | reflexivity].
Defined.
(** ** MarkerManager: what every call keeps *)

Section MarkerCallStatements.
Import MarkerManager MarkerFacts MarkerCalls.

Lemma setCursor_None_eq w :
  setCursor None w
  = ({| cursor_ := None; markerSvg_ := markerSvg_ w; cursorSvg_ := cursorSvg_ w;
        markers := markers w; blockCanvas := blockCanvas w;
        drawerOf := drawerOf w; nextDrawer := nextDrawer w;
        calls := calls w
                 ++ match cursor_ w with
                    | Some old =>
                        match drawerOf w old with
                        | Some od => [DrawerDispose od]
                        | None => []
                        end
                    | None => []
                    end |}, Ret tt).
Proof.
  unfold setCursor, getDrawer, call, bind, gets, modify, ret, with_cursor_.
  destruct w as [cur msvg csvg mk canvas dof next cl]; simpl.
  destruct cur as [old |]; simpl; [| now rewrite app_nil_r].
  destruct (dof old); simpl; [reflexivity | now rewrite app_nil_r].
Qed.

Lemma registerMarker_markerSvg id marker w :
  markerSvg_ (exec (registerMarker id marker) w) = markerSvg_ w.
Proof.
  unfold exec. rewrite registerMarker_eq. cbv zeta.
  destruct (blockCanvas w) as [children |]; [| reflexivity].
  destruct (cursorSvg_ w) as [c |]; [| reflexivity].
  destruct (insertBefore _ c children); reflexivity.
Qed.

Lemma unregisterMarker_canvas id w :
  let w' := exec (unregisterMarker id) w in
  blockCanvas w' = blockCanvas w /\ cursorSvg_ w' = cursorSvg_ w
  /\ markerSvg_ w' = markerSvg_ w /\ nextDrawer w' = nextDrawer w.
Proof.
  unfold exec, unregisterMarker, bind, gets.
  destruct (markers w !! id); simpl; tauto.
Qed.

Lemma step_tidy_or_throws op w :
  tidy w -> op <> OpSetCursor None ->
  tidy (exec (step op) w)
  /\ (snd (step op w) = Ret tt
      \/ exists id msg,
           op = OpUnregisterMarker id /\ markers w !! id = None
           /\ snd (step op w) = Throw (Error msg)).
Proof.
  intros Ht Hop. destruct op as [id marker | id | [cursor |]]; simpl.
  - destruct (registerMarker_tidy id marker w Ht) as [Hr [Ht' _]].
    split; [exact Ht' | now left].
  - destruct (unregisterMarker_canvas id w) as (Hc & Hcs & Hms & Hn).
    split.
    + unfold tidy in *. rewrite Hc, Hcs, Hn. exact Ht.
    + unfold unregisterMarker, bind, gets.
      destruct (markers w !! id) eqn:E; [now left |].
      right. exists id. eexists. split; [reflexivity |]. split; [exact E | reflexivity].
  - destruct (setCursor_tidy cursor w Ht) as [Hr [Ht' _]].
    split; [exact Ht' | now left].
  - now contradiction Hop.
Qed.

(** A node other than the remembered cursor node leaves the canvas. *)
Lemma removed_tidy node w :
  tidy w -> cursorSvg_ w <> Some node ->
  tidy (exec (happen (Removed node)) w).
Proof.
  unfold tidy, exec. simpl. intros Ht Hne.
  destruct (blockCanvas w) as [children |]; simpl; [| exact I].
  destruct Ht as (Hnd & Hold & Hlast).
  split; [unfold without; now apply NoDup_filter |].
  split.
  { intros n Hn. unfold without in Hn. apply list_elem_of_filter in Hn.
    apply Hold. tauto. }
  intros c Hc. destruct (Hlast c Hc) as [pre ->].
  exists (without node pre). unfold without. rewrite filter_app. f_equal.
  rewrite filter_cons_True; [reflexivity |].
  intros ->. now apply Hne.
Qed.

Lemma history_tidy events : forall w,
  tidy w -> cursor_node_stays events w -> tidy (history events w).
Proof.
  induction events as [| event events IH]; intros w Ht Hk; [exact Ht |].
  destruct Hk as [Hnow Hrest]. simpl. apply IH; [| exact Hrest].
  destruct event as [op | node].
  - now apply step_tidy_or_throws.
  - now apply removed_tidy.
Qed.

(** No event stores a node in [markerSvg_]. *)
Lemma happen_markerSvg event w :
  markerSvg_ (exec (happen event) w) = markerSvg_ w.
Proof.
  destruct event as [[id marker | id | [cursor |]] | node]; simpl.
  - apply registerMarker_markerSvg.
  - now destruct (unregisterMarker_canvas id w) as (_ & _ & Hms & _).
  - unfold exec. now rewrite setCursor_eq.
  - unfold exec. now rewrite setCursor_None_eq.
  - reflexivity.
Qed.

Lemma history_markerSvg events : forall w,
  markerSvg_ (history events w) = markerSvg_ w.
Proof.
  induction events as [| event events IH]; intros w; [reflexivity |].
  simpl. now rewrite IH, happen_markerSvg.
Qed.

(** X23.  Whatever calls of [registerMarker], [unregisterMarker] and
    [setCursor] (null included) a new manager receives, and whatever nodes
    leave the canvas in between, the field [markerSvg_] is still null: no
    call stores a marker node in it.  As long as [setCursor] was never given
    null and the node that left was never the cursor node remembered at that
    moment (the node of a replaced cursor or of a marker may leave, as when
    [dispose] of its drawer takes it away), the children of the canvas are
    distinct, the remembered cursor node is the last of them, and the only
    call that can throw next is [unregisterMarker] of an id that has no
    marker.  [setCursor (null)] is different: it disposes the drawer of the
    old cursor and makes [getCursor] give null, but the manager goes on
    remembering the node of the old cursor and does not take it off the
    canvas itself; when that node then leaves the canvas, the next
    [registerMarker] throws the [NotFoundError] of [insertBefore]. *)
Theorem cursor_node_is_remembered_after_setCursor_null
  (canvas : option (list Node)) (events : list Event) :
  NoDup (default [] canvas) ->
  let w := history events (new canvas) in
  markerSvg_ w = None
  /\ (cursor_node_stays events (new canvas) ->
      (forall children, blockCanvas w = Some children -> NoDup children)
      /\ (forall c children,
            cursorSvg_ w = Some c -> blockCanvas w = Some children ->
            exists pre, children = pre ++ [c])
      /\ (forall op,
            op <> OpSetCursor None ->
            snd (step op w) = Ret tt
            \/ exists id msg,
                 op = OpUnregisterMarker id /\ markers w !! id = None
                 /\ snd (step op w) = Throw (Error msg)))
  /\ (let w' := exec (setCursor None) w in
      snd (setCursor None w) = Ret tt
      /\ getCursor w' = (w', Ret None)
      /\ cursorSvg_ w' = cursorSvg_ w
      /\ blockCanvas w' = blockCanvas w
      /\ calls w'
         = calls w
           ++ match cursor_ w with
              | Some old =>
                  match drawerOf w old with
                  | Some od => [DrawerDispose od]
                  | None => []
                  end
              | None => []
              end
      /\ (forall c children id marker,
            cursorSvg_ w = Some c -> blockCanvas w = Some children ->
            exists msg,
              snd (registerMarker id marker
                     (history [Call (OpSetCursor None); Removed c] w))
              = Throw (NotFoundError msg))).
Proof.
  intros Hnd w.
  split; [unfold w; now rewrite history_markerSvg |].
  split.
  { intros Hk.
    assert (Ht : tidy w) by (apply history_tidy; [now apply new_tidy | exact Hk]).
    split.
    { intros children Hc. unfold tidy in Ht. rewrite Hc in Ht. tauto. }
    split.
    { intros c children Hcs Hc. unfold tidy in Ht. rewrite Hc in Ht.
      destruct Ht as (_ & _ & Hlast). now apply Hlast. }
    intros op Hop. now apply step_tidy_or_throws. }
  unfold history, exec. simpl. rewrite setCursor_None_eq. simpl.
  split; [reflexivity |]. split; [reflexivity |]. split; [reflexivity |].
  split; [reflexivity |]. split; [reflexivity |].
  intros c children id marker Hcs Hc.
  rewrite registerMarker_eq. cbv zeta. simpl. rewrite Hcs, Hc. simpl.
  assert (Hgone : existsb (Nat.eqb c) (without c children) = false).
  { destruct (existsb (Nat.eqb c) (without c children)) eqn:E; [| reflexivity].
    apply is_child_spec in E. unfold without in E.
    apply list_elem_of_filter in E. destruct E as [E _]. now contradiction E. }
  unfold insertBefore. rewrite Hgone. simpl. now eexists.
Qed.

Lemma cursor_node_is_remembered_after_setCursor_null_witness :
  NoDup (default [] Sample.canvas2)
  /\ blockCanvas
       (history
          [Call (OpRegisterMarker "m1" 10); Call (OpSetCursor (Some 20));
           Call (OpSetCursor (Some 21)); Removed 4;
           Call (OpUnregisterMarker "m2"); Call (OpRegisterMarker "m2" 11)]
          (new Sample.canvas2)) = Some [1; 2; 3; 6; 5]
  /\ cursorSvg_
       (history
          [Call (OpRegisterMarker "m1" 10); Call (OpSetCursor (Some 20));
           Call (OpSetCursor (Some 21)); Removed 4;
           Call (OpUnregisterMarker "m2"); Call (OpRegisterMarker "m2" 11)]
          (new Sample.canvas2)) = Some 5
  /\ exists pre, [1; 2; 3; 6; 5] = pre ++ [5].
Proof.
  assert (Hnd : NoDup (default [] Sample.canvas2)).
  { apply NoDup_ListNoDup. vm_compute. repeat constructor; simpl; lia. }
  split; [exact Hnd |]. split; [reflexivity |]. split; [reflexivity |].
  destruct (cursor_node_is_remembered_after_setCursor_null Sample.canvas2
              [Call (OpRegisterMarker "m1" 10); Call (OpSetCursor (Some 20));
               Call (OpSetCursor (Some 21)); Removed 4;
               Call (OpUnregisterMarker "m2"); Call (OpRegisterMarker "m2" 11)] Hnd)
    as (_ & Hkeeps & _).
  destruct Hkeeps as (_ & Hlast & _).
  { vm_compute. repeat split; discriminate. }
  apply (Hlast 5 [1; 2; 3; 6; 5]); reflexivity.
Defined.

End MarkerCallStatements.

Lemma position_stacks_the_buttons_witness :
  ZoomLayout.made (exec (SampleMore.place ZoomControls.TOP []) (ZoomControls.ready true))
  /\ ZoomLayout.rests ZoomControls.TOP
       (exec (SampleMore.place ZoomControls.TOP []) (ZoomControls.ready true))
  /\ ZoomLayout.apart
       (ZoomControls.offset
          (exec (SampleMore.place ZoomControls.TOP [])
             (exec (SampleMore.place ZoomControls.TOP []) (ZoomControls.ready true)))
          (ZoomControls.zoomOutGroup
             (exec (SampleMore.place ZoomControls.TOP [])
                (exec (SampleMore.place ZoomControls.TOP []) (ZoomControls.ready true)))))
       (ZoomControls.offset
          (exec (SampleMore.place ZoomControls.TOP [])
             (exec (SampleMore.place ZoomControls.TOP []) (ZoomControls.ready true)))
          (ZoomControls.zoomResetGroup
             (exec (SampleMore.place ZoomControls.TOP [])
                (exec (SampleMore.place ZoomControls.TOP []) (ZoomControls.ready true))))).
Proof.
  destruct (position_stacks_the_buttons ZoomControls.verticalPosition
              SampleMore.corner_of SampleMore.start_rect SampleMore.no_bump
              ZoomControls.TOP [] (ZoomControls.ready true))
    as (Hfirst & Hready & _).
  destruct (Hready true ZoomControls.TOP) as [Hmade Hrests].
  destruct (Hfirst Hmade Hrests) as (_ & _ & _ & _ & _ & _ & _ & _ & _ & Hmade1 & Hrests1).
  split; [exact Hmade1 |]. split; [exact Hrests1 |].
  destruct (position_stacks_the_buttons ZoomControls.verticalPosition
              SampleMore.corner_of SampleMore.start_rect SampleMore.no_bump
              ZoomControls.TOP []
              (exec (SampleMore.place ZoomControls.TOP []) (ZoomControls.ready true)))
    as (Hsecond & _).
  destruct (Hsecond Hmade1 Hrests1) as (_ & _ & _ & _ & _ & _ & _ & _ & Happart & _).
  exact Happart.
Defined.
